(** * Zerodha login automation: a shallow embedding and its properties

    The four Python modules of the repository are embedded as programs of a
    small free monad [Prog] over the primitive operations the scripts call
    (Selenium WebDriver, [time], [logging], [os.getenv], the file system,
    Fernet, SMTP, the Kite Connect client).  A program is run against a
    [World]: the browser's page and URL at every step, the failures the
    outside injects, and the library functions the code relies on.

    Time is kept in milliseconds ([time.time()] returns seconds as a float in
    the source; every constant of the source is a whole number of
    milliseconds). *)

From Stdlib Require Import ZArith Lia Ascii String List Bool.
From stdpp Require Import base option list gmap strings pretty.

Local Open Scope Z_scope.
Local Open Scope string_scope.

(** ** Python exceptions and results *)

Module Py.

(** The exception classes the scripts meet.  [KeyboardInterrupt] derives from
    [BaseException] only; the Selenium classes derive from
    [WebDriverException]. *)
Inductive exn : Type :=
| NoSuchElementException
| StaleElementReferenceException
| ElementNotInteractableException
| TimeoutException
| WebDriverException
| KeyboardInterrupt
| KeyError (key : string)
| ValueError
| TypeError
| RuntimeError (msg : string)
| FileNotFoundError (msg : string)
| OSError
| InvalidToken
| SMTPException.

(** [isinstance(e, Exception)] *)
Definition is_Exception (e : exn) : bool :=
  match e with
  | KeyboardInterrupt => false
  | _ => true
  end.

(** [isinstance(e, WebDriverException)] *)
Definition is_WebDriverException (e : exn) : bool :=
  match e with
  | NoSuchElementException | StaleElementReferenceException
  | ElementNotInteractableException | TimeoutException
  | WebDriverException => true
  | _ => false
  end.

(** What a primitive call gives back. *)
Inductive result (X : Type) : Type :=
| Ok (x : X)
| Exc (e : exn).
Arguments Ok {X} x.
Arguments Exc {X} e.

Definition is_ok {X} (r : result X) : bool :=
  match r with Ok _ => true | Exc _ => false end.

(** How a run of a program ends. [OutOfFuel] is the model's own: a loop
    whose bound on iterations was not enough. *)
Inductive outcome (A : Type) : Type :=
| Returns (a : A)
| Raises (e : exn)
| OutOfFuel.
Arguments Returns {A} a.
Arguments Raises {A} e.
Arguments OutOfFuel {A}.

(** Python truthiness of an optional string ([None] and [""] are falsy). *)
Definition truthy (v : option string) : bool :=
  match v with
  | Some s => negb (String.eqb s "")
  | None => false
  end.

(** [a or b] on optional strings. *)
Definition py_or (a b : option string) : option string :=
  if truthy a then a else b.

(** [sub in s] *)
Fixpoint contains (sub s : string) : bool :=
  String.prefix sub s ||
  match s with
  | EmptyString => false
  | String _ s' => contains sub s'
  end.

(** ASCII white space as [str.strip()] and XPath see it. *)
Definition is_space (c : ascii) : bool :=
  let n := nat_of_ascii c in
  ((9 <=? n)%nat && (n <=? 13)%nat) || ((28 <=? n)%nat && (n <=? 32)%nat).

Fixpoint lstrip (s : string) : string :=
  match s with
  | String c s' => if is_space c then lstrip s' else s
  | EmptyString => EmptyString
  end.

Fixpoint rstrip (s : string) : string :=
  match s with
  | String c s' =>
      match rstrip s' with
      | EmptyString => if is_space c then EmptyString else String c EmptyString
      | r => String c r
      end
  | EmptyString => EmptyString
  end.

(** [s.strip()] *)
Definition strip (s : string) : string := rstrip (lstrip s).

(** The characters of a string, as [enumerate(otp)] yields them. *)
Fixpoint chars (s : string) : list string :=
  match s with
  | EmptyString => []
  | String c s' => String c EmptyString :: chars s'
  end.

End Py.
Export Py.

(** ** The page the browser shows, and Selenium's locators *)

Module Dom.

(** A [WebElement] is a handle on a node of the live page. *)
Definition handle : Type := nat.

Record Element : Type := {
  el_handle : handle;
  el_tag : string;
  el_attrs : gmap string string;
  el_text : string;
  el_displayed : bool;
  el_enabled : bool
}.

(** The bracketed condition of the XPath expressions the scripts use. *)
Inductive xcond : Type :=
| XAttrEq (a v : string)         (* @a='v' *)
| XAttrContains (a s : string)   (* contains(@a,'s') *)
| XTextContains (s : string)     (* contains(text(),'s') *)
| XNormSpaceEq (s : string)      (* normalize-space()='s' *)
| XOr (c1 c2 : xcond)
| XAnd (c1 c2 : xcond).

(** [By.ID], [By.TAG_NAME] and [By.XPATH] with an expression [//tag[c]]
    ([None] for [//*[c]]). *)
Inductive By : Type :=
| ById (v : string)
| ByTagName (t : string)
| ByXPath (tag : option string) (c : xcond).

#[global] Instance xcond_eq_dec : EqDecision xcond.
Proof. solve_decision. Defined.

#[global] Instance By_eq_dec : EqDecision By.
Proof. solve_decision. Defined.

(** XPath white space: space, tab, line feed, carriage return. *)
Definition is_xml_space (c : ascii) : bool :=
  let n := nat_of_ascii c in
  (n =? 32)%nat || (n =? 9)%nat || (n =? 10)%nat || (n =? 13)%nat.

Fixpoint norm_go (s : string) (pending started : bool) : string :=
  match s with
  | EmptyString => EmptyString
  | String c s' =>
      if is_xml_space c then norm_go s' started started
      else if pending then String " "%char (String c (norm_go s' false true))
      else String c (norm_go s' false true)
  end.

(** XPath [normalize-space()]: outer white space removed, inner runs of
    white space replaced by one space. *)
Definition normalize_space (s : string) : string := norm_go s false false.

Fixpoint holds (c : xcond) (e : Element) : bool :=
  match c with
  | XAttrEq a v =>
      match el_attrs e !! a with
      | Some x => String.eqb x v
      | None => false
      end
  | XAttrContains a s => contains s (default "" (el_attrs e !! a))
  | XTextContains s => contains s (el_text e)
  | XNormSpaceEq s => String.eqb (normalize_space (el_text e)) s
  | XOr c1 c2 => holds c1 e || holds c2 e
  | XAnd c1 c2 => holds c1 e && holds c2 e
  end.

Definition matches (loc : By) (e : Element) : bool :=
  match loc with
  | ById v => holds (XAttrEq "id" v) e
  | ByTagName t => String.eqb (el_tag e) t
  | ByXPath None c => holds c e
  | ByXPath (Some t) c => String.eqb (el_tag e) t && holds c e
  end.

(** The handles of the matching elements, in document order. *)
Definition query (loc : By) (pg : list Element) : list handle :=
  map el_handle (List.filter (matches loc) pg).

Definition lookup_element (h : handle) (pg : list Element) : option Element :=
  List.find (fun e => Nat.eqb (el_handle e) h) pg.

End Dom.
Export Dom.

(** ** Primitive operations, programs and worlds *)

Module Sys.

(** An argument of [driver.execute_script]. *)
Inductive jsarg : Type :=
| JElem (h : handle)
| JStr (s : string).

Inductive level : Type := INFO | WARNING | ERROR.

#[global] Instance level_eq_dec : EqDecision level.
Proof. solve_decision. Defined.

(** The calls that leave the scripts, indexed by what they return. *)
Inductive Prim : Type -> Type :=
| TimeTime : Prim Z
| Sleep (ms : Z) : Prim unit
| Log (lvl : level) (msg : string) : Prim unit
| Print (msg : string) : Prim unit
| Getenv (k : string) : Prim (option string)
| PyInt (s : string) : Prim Z
| QueryParam (u key : string) : Prim (option string)
| BuildDriver : Prim unit
| DriverGet (u : string) : Prim unit
| FindElements (loc : By) : Prim (list handle)
| IsDisplayed (h : handle) : Prim bool
| IsEnabled (h : handle) : Prim bool
| Click (h : handle) : Prim unit
| Clear (h : handle) : Prim unit
| SendKeys (h : handle) (keys : string) : Prim unit
| ExecuteScript (js : string) (args : list jsarg) : Prim unit
| CurrentUrl : Prim string
| SaveScreenshot (path : string) : Prim unit
| DriverQuit : Prim unit
| TotpNow (secret : string) : Prim string
| KiteLoginUrl (api_key : option string) : Prim string
| GenerateSession (api_key : option string) (request_token : string)
    (api_secret : option string) : Prim (gmap string string)
| PathExists (path : string) : Prim bool
| ReadCsv (path : string) : Prim (list (gmap string string))
| WriteBytes (path : string) (data : list Byte.byte) : Prim unit
| ReadBytes (path : string) : Prim (list Byte.byte)
| Chmod (path : string) (mode : Z) : Prim unit
| Unlink (path : string) : Prim unit
| FernetNew (key : string) : Prim string
| FernetEncrypt (key : string) (data : list Byte.byte) : Prim (list Byte.byte)
| FernetDecrypt (key : string) (data : list Byte.byte) : Prim (list Byte.byte)
| SmtpSend (host : string) (port : Z) (user password : string)
    (subject body to_addr : string) : Prim unit.

(** One call and its answer, as recorded in the trace of a run. *)
Inductive Event : Type :=
| Ev {X : Type} (op : Prim X) (r : result X).

(** Programs: a tree of calls, each continued on the call's answer. *)
Inductive Prog (A : Type) : Type :=
| Ret (a : A)
| Raise (e : exn)
| Starve
| Call {X : Type} (op : Prim X) (k : result X -> Prog A).
Arguments Ret {A} a.
Arguments Raise {A} e.
Arguments Starve {A}.
Arguments Call {A X} op k.

Fixpoint bind {A B} (m : Prog A) (f : A -> Prog B) : Prog B :=
  match m with
  | Ret a => f a
  | Raise e => Raise e
  | Starve => Starve
  | Call op k => Call op (fun r => bind (k r) f)
  end.

Declare Scope prog_scope.
Delimit Scope prog_scope with prog.
Bind Scope prog_scope with Prog.
Notation "x ← y ; z" := (bind y (fun x => z)) : prog_scope.
Notation "' x ← y ; z" := (bind y (fun x => z)) : prog_scope.
Notation "y ;; z" := (bind y (fun _ => z)) : prog_scope.
Open Scope prog_scope.

(** A call whose exception, if any, is raised in the program. *)
Definition call {X} (op : Prim X) : Prog X :=
  Call op (fun r => match r with Ok x => Ret x | Exc e => Raise e end).

(** [try: m  except ...: h e]; the handler refuses ([None]) the exceptions
    its clauses do not name, which then propagate. *)
Fixpoint try_except {A} (m : Prog A) (h : exn -> option (Prog A)) : Prog A :=
  match m with
  | Ret a => Ret a
  | Raise e => match h e with Some p => p | None => Raise e end
  | Starve => Starve
  | Call op k => Call op (fun r => try_except (k r) h)
  end.

(** [except Exception as e: h e] *)
Definition on_Exception {A} (h : exn -> Prog A) : exn -> option (Prog A) :=
  fun e => if is_Exception e then Some (h e) else None.

(** bare [except: p] *)
Definition on_any {A} (p : Prog A) : exn -> option (Prog A) :=
  fun _ => Some p.

(** [except KeyboardInterrupt: p] *)
Definition on_KeyboardInterrupt {A} (p : Prog A) : exn -> option (Prog A) :=
  fun e => match e with KeyboardInterrupt => Some p | _ => None end.

(** [try: m  finally: fin] *)
Fixpoint try_finally {A} (m : Prog A) (fin : Prog unit) : Prog A :=
  match m with
  | Ret a => bind fin (fun _ => Ret a)
  | Raise e => bind fin (fun _ => Raise e)
  | Starve => Starve
  | Call op k => Call op (fun r => try_finally (k r) fin)
  end.

(** [try: m  except Exception: pass] *)
Definition attempt (m : Prog unit) : Prog unit :=
  try_except m (on_Exception (fun _ => Ret tt)).

(** [try: m  except: pass] *)
Definition attempt_any (m : Prog unit) : Prog unit :=
  try_except m (on_any (Ret tt)).

Definition log_info (msg : string) : Prog unit := call (Log INFO msg).
Definition log_warning (msg : string) : Prog unit := call (Log WARNING msg).
Definition log_error (msg : string) : Prog unit := call (Log ERROR msg).

(** The outside of the scripts. [page] and [url] are what the browser shows
    at each step of the run, [fault] the failure (if any) a call meets at a
    step, [latency] the milliseconds a call takes; the remaining fields are
    the library functions and services the scripts use. *)
Record World : Type := {
  page : nat -> list Element;
  url : nat -> string;
  fault : nat -> forall X, Prim X -> option exn;
  latency : nat -> N;
  environ : gmap string string;
  py_int : string -> option Z;
  parse_qs : string -> string -> option string;
  csv_dict_reader : list Byte.byte -> list (gmap string string);
  totp_now : string -> Z -> option string;
  kite_login_url : option string -> string;
  kite_session : nat -> string -> gmap string string;
  fernet_valid_key : string -> bool;
  fernet_encrypt : string -> nat -> list Byte.byte -> list Byte.byte;
  fernet_decrypt : string -> list Byte.byte -> option (list Byte.byte)
}.

(** What a run changes: the number of calls made, the clock (ms) and the
    files on disk. *)
Record St : Type := {
  tick : nat;
  now : Z;
  files : gmap string (list Byte.byte)
}.

Definition elapse (st : St) (d : Z) : St :=
  {| tick := S (tick st); now := now st + d; files := files st |}.

Definition set_files (st : St) (fs : gmap string (list Byte.byte)) : St :=
  {| tick := tick st; now := now st; files := fs |}.

Definition lag (W : World) (st : St) : Z := Z.of_N (latency W (tick st)).

(** A call computed inside the process: it takes no time and cannot fail
    from outside. *)
Definition inside {X} (st : St) (r : result X) : result X * St :=
  (r, elapse st 0).

(** A call to the browser or the network: the world may make it fail with
    any exception, a [KeyboardInterrupt] included. *)
Definition outside {X} (W : World) (st : St) (op : Prim X) (normal : result X)
  : result X * St :=
  (match fault W (tick st) X op with Some e => Exc e | None => normal end,
   elapse st (lag W st)).

(** The failure of a file, mail or cipher call: an [Exception]. *)
Definition io_fault {X} (W : World) (st : St) (op : Prim X) : option exn :=
  match fault W (tick st) X op with
  | Some e => if is_Exception e then Some e else None
  | None => None
  end.

Definition io {X} (W : World) (st : St) (op : Prim X) (normal : result X)
  : result X * St :=
  (match io_fault W st op with Some e => Exc e | None => normal end,
   elapse st (lag W st)).

Definition of_option {X} (o : option X) (e : exn) : result X :=
  match o with Some x => Ok x | None => Exc e end.

(** The answer of the world to a call, and the state after it. *)
Definition respond (W : World) (st : St) {X} (op : Prim X) : result X * St :=
  match op in Prim X return result X * St with
  | TimeTime => inside st (Ok (now st))
  | Sleep ms =>
      match fault W (tick st) _ (Sleep ms) with
      | Some KeyboardInterrupt => (Exc KeyboardInterrupt, elapse st (lag W st))
      | _ => (Ok tt, elapse st (Z.max 0 ms + lag W st))
      end
  | Log _ _ => inside st (Ok tt)
  | Print _ => inside st (Ok tt)
  | Getenv k => inside st (Ok (environ W !! k))
  | PyInt s => inside st (of_option (py_int W s) ValueError)
  | QueryParam u key => inside st (Ok (parse_qs W u key))
  | BuildDriver => outside W st BuildDriver (Ok tt)
  | DriverGet u => outside W st (DriverGet u) (Ok tt)
  | FindElements loc =>
      outside W st (FindElements loc) (Ok (query loc (page W (tick st))))
  | IsDisplayed h =>
      outside W st (IsDisplayed h)
        (of_option (el_displayed <$> lookup_element h (page W (tick st)))
           StaleElementReferenceException)
  | IsEnabled h =>
      outside W st (IsEnabled h)
        (of_option (el_enabled <$> lookup_element h (page W (tick st)))
           StaleElementReferenceException)
  | Click h => outside W st (Click h) (Ok tt)
  | Clear h => outside W st (Clear h) (Ok tt)
  | SendKeys h keys => outside W st (SendKeys h keys) (Ok tt)
  | ExecuteScript js args => outside W st (ExecuteScript js args) (Ok tt)
  | CurrentUrl => outside W st CurrentUrl (Ok (url W (tick st)))
  | SaveScreenshot p => outside W st (SaveScreenshot p) (Ok tt)
  | DriverQuit => outside W st DriverQuit (Ok tt)
  | TotpNow secret => inside st (of_option (totp_now W secret (now st)) ValueError)
  | KiteLoginUrl k => inside st (Ok (kite_login_url W k))
  | GenerateSession k rt sec =>
      outside W st (GenerateSession k rt sec) (Ok (kite_session W (tick st) rt))
  | PathExists p => inside st (Ok (bool_decide (is_Some (files st !! p))))
  | ReadCsv p =>
      io W st (ReadCsv p)
        (of_option (csv_dict_reader W <$> files st !! p) (FileNotFoundError p))
  | WriteBytes p d =>
      match io_fault W st (WriteBytes p d) with
      | Some e => (Exc e, elapse st (lag W st))
      | None => (Ok tt, set_files (elapse st (lag W st)) (<[p := d]> (files st)))
      end
  | ReadBytes p =>
      io W st (ReadBytes p) (of_option (files st !! p) (FileNotFoundError p))
  | Chmod p m => io W st (Chmod p m) (Ok tt)
  | Unlink p =>
      match io_fault W st (Unlink p) with
      | Some e => (Exc e, elapse st (lag W st))
      | None =>
          match files st !! p with
          | Some _ => (Ok tt, set_files (elapse st (lag W st)) (delete p (files st)))
          | None => (Exc (FileNotFoundError p), elapse st (lag W st))
          end
      end
  | FernetNew key =>
      inside st (if fernet_valid_key W key then Ok key else Exc ValueError)
  | FernetEncrypt key d => inside st (Ok (fernet_encrypt W key (tick st) d))
  | FernetDecrypt key d => inside st (of_option (fernet_decrypt W key d) InvalidToken)
  | SmtpSend h p u pw s b t => io W st (SmtpSend h p u pw s b t) (Ok tt)
  end.

(** Running a program: how it ends, the state it leaves and the calls it
    made, oldest first. *)
Fixpoint exec (W : World) {A} (p : Prog A) (st : St)
  : outcome A * St * list Event :=
  match p with
  | Ret a => (Returns a, st, [])
  | Raise e => (Raises e, st, [])
  | Starve => (OutOfFuel, st, [])
  | Call op k =>
      let '(r, st1) := respond W st op in
      let '(o, st2, evs) := exec W (k r) st1 in
      (o, st2, Ev op r :: evs)
  end.

End Sys.
Export Sys.

(** ** Selenium's waits (library code the scripts call) *)

Module Selenium.

(** [driver.find_element(by, value)]: the first match, or
    [NoSuchElementException]. *)
Definition find_element (loc : By) : Prog handle :=
  els ← call (FindElements loc);
  match els with
  | el :: _ => Ret el
  | [] => Raise NoSuchElementException
  end.

(** [EC.presence_of_element_located(locator)] *)
Definition presence_of_element_located (loc : By) : Prog (option handle) :=
  el ← find_element loc; Ret (Some el).

(** [EC.element_to_be_clickable(locator)]: the first match, if it is
    displayed and enabled. *)
Definition element_to_be_clickable (loc : By) : Prog (option handle) :=
  el ← find_element loc;
  d ← call (IsDisplayed el);
  if d then (e ← call (IsEnabled el); Ret (if e then Some el else None))
  else Ret None.

(** Iterations that fit in [timeout] when each one sleeps [interval]. *)
Definition rounds (timeout interval : Z) : nat :=
  Z.to_nat (timeout / interval) + 2.

Fixpoint until_loop {A} (fuel : nat) (end_time : Z) (method : Prog (option A))
  : Prog A :=
  match fuel with
  | O => Starve
  | S fuel' =>
      v ← try_except method
            (fun e => match e with
                      | NoSuchElementException => Some (Ret None)
                      | _ => None
                      end);
      match v with
      | Some a => Ret a
      | None =>
          t ← call TimeTime;
          if (end_time <? t)%Z then Raise TimeoutException
          else (call (Sleep 500);; until_loop fuel' end_time method)
      end
  end.

(** [WebDriverWait(driver, timeout).until(method)], polling every 0.5 s and
    ignoring [NoSuchElementException]. *)
Definition wait_until {A} (timeout : Z) (method : Prog (option A)) : Prog A :=
  t0 ← call TimeTime;
  until_loop (rounds timeout 500) (t0 + timeout) method.

End Selenium.
Export Selenium.

(** ** token_manager.py *)

Module TokenManager.

Definition ACCESS_TOKEN_DIR : string := "tokens".

(** [ACCESS_TOKEN_DIR / f"{client_id}_access_token.enc"] *)
Definition token_path (client_id : string) : string :=
  ACCESS_TOKEN_DIR +:+ "/" +:+ client_id +:+ "_access_token.enc".

Definition _get_fernet : Prog string :=
  key ← call (Getenv "FERNET_KEY");
  if truthy key then call (FernetNew (default "" key))
  else Raise (RuntimeError "FERNET_KEY not set in environment").

Definition save_encrypted_token (client_id token : string) : Prog unit :=
  f ← _get_fernet;
  let token_b := list_byte_of_string token in
  enc ← call (FernetEncrypt f token_b);
  let path := token_path client_id in
  call (WriteBytes path enc);;
  attempt (call (Chmod path 384)).

Definition load_encrypted_token (client_id : string) : Prog string :=
  let path := token_path client_id in
  present ← call (PathExists path);
  if negb present
  then Raise (FileNotFoundError ("Encrypted token not found for client: " +:+ client_id))
  else
    f ← _get_fernet;
    enc ← call (ReadBytes path);
    dec ← call (FernetDecrypt f enc);
    Ret (string_of_list_byte dec).

Definition delete_encrypted_token (client_id : string) : Prog unit :=
  let path := token_path client_id in
  present ← call (PathExists path);
  if present then call (Unlink path) else Ret tt.

End TokenManager.

(** ** notify.py *)

Module Notify.

Definition str_exn (e : exn) : string :=
  match e with
  | NoSuchElementException => "NoSuchElementException"
  | StaleElementReferenceException => "StaleElementReferenceException"
  | ElementNotInteractableException => "ElementNotInteractableException"
  | TimeoutException => "TimeoutException"
  | WebDriverException => "WebDriverException"
  | KeyboardInterrupt => "KeyboardInterrupt"
  | KeyError k => "KeyError: " +:+ k
  | ValueError => "ValueError"
  | TypeError => "TypeError"
  | RuntimeError m => m
  | FileNotFoundError m => m
  | OSError => "OSError"
  | InvalidToken => "InvalidToken"
  | SMTPException => "SMTPException"
  end.

Definition send_email (subject body : string) : Prog unit :=
  to_addr ← call (Getenv "NOTIFY_EMAIL");
  if negb (truthy to_addr) then Ret tt
  else
    host ← call (Getenv "SMTP_HOST");
    port_s ← call (Getenv "SMTP_PORT");
    port ← match port_s with
           | Some s => call (PyInt s)
           | None => Ret 587
           end;
    user ← call (Getenv "SMTP_USER");
    password ← call (Getenv "SMTP_PASS");
    if negb (truthy host && truthy user && truthy password) then Ret tt
    else
      try_except
        (call (SmtpSend (default "" host) port (default "" user)
                 (default "" password) subject body (default "" to_addr)))
        (on_Exception (fun e => call (Print ("Failed to send email: " +:+ str_exn e)))).

End Notify.
Export Notify.

(** ** Shared pieces of the two login scripts *)

Module Common.

(** The module-level constants both scripts read from the environment when
    they are imported. *)
Record Config : Type := {
  API_KEY : option string;
  API_SECRET : option string;
  ACCOUNTS_CSV : string;
  KEEP_BROWSER_MINUTES : Z
}.

Definition LOG_DIR : string := "logs".

(** [LOG_DIR / f"{name_prefix}_{ts}.png"] with [ts = int(time.time())] *)
Definition screenshot_path (name_prefix : string) (t : Z) : string :=
  LOG_DIR +:+ "/" +:+ name_prefix +:+ "_" +:+ pretty (Z.quot t 1000) +:+ ".png".

(** [repr] of a row of [csv.DictReader], keys in the order of the map. *)
Definition repr_row (r : gmap string string) : string :=
  "{" +:+
  String.concat ", "
    (map (fun kv => "'" +:+ kv.1 +:+ "': '" +:+ kv.2 +:+ "'") (map_to_list r))
  +:+ "}".

Definition str_bool (b : bool) : string := if b then "True" else "False".

Definition str_opt (o : option string) : string := default "None" o.

(** [r ← p; if r is not None: return r; else: k] *)
Definition or_else {A} (p : Prog (option A)) (k : Prog A) : Prog A :=
  r ← p;
  match r with
  | Some a => Ret a
  | None => k
  end.

(** A [try] block that either yields a value the function goes on with, or
    whose handler returns from the function. *)
Definition try_or_return {A R} (m : Prog A) (h : exn -> option (Prog R))
    (k : A -> Prog R) : Prog R :=
  r ← try_except (a ← m; Ret (inl a))
        (fun e => match h e with
                  | Some p => Some (b ← p; Ret (inr b))
                  | None => None
                  end);
  match r with
  | inl a => k a
  | inr b => Ret b
  end.

(** [[e for e in cand if e.is_displayed() and e.is_enabled()]] *)
Fixpoint displayed_and_enabled (cand : list handle) : Prog (list handle) :=
  match cand with
  | [] => Ret []
  | e :: rest =>
      d ← call (IsDisplayed e);
      keep ← (if d : bool then call (IsEnabled e) else Ret false);
      tl ← displayed_and_enabled rest;
      Ret (if keep : bool then e :: tl else tl)
  end.

(** [[e for e in els if e.is_displayed()]] *)
Fixpoint displayed_only (cand : list handle) : Prog (list handle) :=
  match cand with
  | [] => Ret []
  | e :: rest =>
      d ← call (IsDisplayed e);
      tl ← displayed_only rest;
      Ret (if d : bool then e :: tl else tl)
  end.

Definition ID_TOTP : By := ById "totp".
Definition ID_PIN : By := ById "pin".
Definition ID_USERID : By := ById "userid".
Definition ID_PASSWORD : By := ById "password".

(** [//button[@type='submit']] *)
Definition XP_SUBMIT : By := ByXPath (Some "button") (XAttrEq "type" "submit").

Definition MARKER : string := "request_token=".

End Common.
Export Common.

(** ** zerodha_api_login.py *)

Module OAuth.
Section Script.
Variable cfg : Config.

Definition screenshot (name_prefix : string) : Prog string :=
  t ← call TimeTime;
  let path := screenshot_path name_prefix t in
  try_except
    (call (SaveScreenshot path);; log_info ("Screenshot saved: " +:+ path))
    (on_Exception (fun e => log_warning ("Failed to save screenshot: " +:+ str_exn e)));;
  Ret path.

Fixpoint read_rows (reader : list (gmap string string))
    (rows : list (string * string * string)) : Prog (list (string * string * string)) :=
  match reader with
  | [] => Ret rows
  | r :: rest =>
      let uid := py_or (py_or (r !! "user_id") (r !! "userid")) (r !! "user") in
      let pwd := r !! "password" in
      let totp := py_or (py_or (r !! "totp_secret") (r !! "totp")) (r !! "secret") in
      if negb (truthy uid && truthy pwd && truthy totp)
      then (log_warning ("Skipping incomplete row: " +:+ repr_row r);;
            read_rows rest rows)
      else read_rows rest
             (rows ++ [(strip (default "" uid), strip (default "" pwd),
                        strip (default "" totp))])
  end.

Definition read_accounts (file_path : string) : Prog (list (string * string * string)) :=
  present ← call (PathExists file_path);
  if negb present
  then (log_error ("Accounts CSV not found: " +:+ file_path);; Ret [])
  else (reader ← call (ReadCsv file_path); read_rows reader []).

(** [//input[@maxlength='1' and ( @inputmode='numeric' or
    contains(@class,'otp') or contains(@class,'digit') )]] *)
Definition XP_SPLIT_BOXES : By :=
  ByXPath (Some "input")
    (XAnd (XAttrEq "maxlength" "1")
       (XOr (XOr (XAttrEq "inputmode" "numeric") (XAttrContains "class" "otp"))
          (XAttrContains "class" "digit"))).

(** [//input[@inputmode='numeric' or @type='tel' or @type='number' or
    @type='password']] *)
Definition XP_NUMERIC_OR_PASSWORD : By :=
  ByXPath (Some "input")
    (XOr (XOr (XOr (XAttrEq "inputmode" "numeric") (XAttrEq "type" "tel"))
            (XAttrEq "type" "number"))
       (XAttrEq "type" "password")).

(** The first two blocks of the loop of [find_otp_fields]: the first
    element of that id, if it is displayed and enabled. *)
Definition probe_id (loc : By) : Prog (option (list handle)) :=
  try_except
    (els ← call (FindElements loc);
     match els with
     | el :: _ =>
         d ← call (IsDisplayed el);
         if d : bool
         then (e ← call (IsEnabled el); Ret (if e : bool then Some [el] else None))
         else Ret None
     | [] => Ret None
     end)
    (on_Exception (fun _ => Ret None)).

(** The third block: split single-character boxes, two at least. *)
Definition probe_split : Prog (option (list handle)) :=
  try_except
    (cand ← call (FindElements XP_SPLIT_BOXES);
     cand ← displayed_and_enabled cand;
     Ret (if (2 <=? length cand)%nat then Some cand else None))
    (on_Exception (fun _ => Ret None)).

(** The fourth block: any numeric or password input. *)
Definition probe_fallback : Prog (option (list handle)) :=
  try_except
    (cand ← call (FindElements XP_NUMERIC_OR_PASSWORD);
     cand ← displayed_and_enabled cand;
     Ret (match cand with [] => None | _ => Some cand end))
    (on_Exception (fun _ => Ret None)).

Fixpoint find_otp_loop (fuel : nat) (end_ : Z) : Prog (list handle) :=
  match fuel with
  | O => Starve
  | S fuel' =>
      t ← call TimeTime;
      if (t <? end_)%Z then
        or_else (probe_id ID_TOTP)
          (or_else (probe_id ID_PIN)
             (or_else probe_split
                (or_else probe_fallback
                   (call (Sleep 400);; find_otp_loop fuel' end_))))
      else Ret []
  end.

Definition find_otp_fields (timeout : Z) : Prog (list handle) :=
  t0 ← call TimeTime;
  find_otp_loop (rounds timeout 400) (t0 + timeout).

(** The [for i, ch in enumerate(otp)] loop of [enter_otp]. *)
Fixpoint enter_split (i : nat) (otp : list string) (fields : list handle)
  : Prog unit :=
  match otp with
  | [] => Ret tt
  | ch :: rest =>
      match fields !! i with
      | None => Ret tt
      | Some fld =>
          attempt (call (ExecuteScript "arguments[0].focus();" [JElem fld]));;
          attempt (call (Clear fld));;
          attempt (call (Click fld));;
          call (SendKeys fld ch);;
          call (Sleep 60);;
          enter_split (S i) rest fields
      end
  end.

Definition enter_otp (otp : string) (fields : list handle) : Prog bool :=
  try_except
    (match fields with
     | [] => Ret false
     | [fld] =>
         attempt
           (call (ExecuteScript
                    "arguments[0].focus(); arguments[0].value = arguments[1];"
                    [JElem fld; JStr otp]));;
         attempt (call (Clear fld);; call (Click fld));;
         call (SendKeys fld otp);;
         Ret true
     | _ => enter_split 0 (chars otp) fields;; Ret true
     end)
    (on_Exception
       (fun e => log_error ("Error entering OTP: " +:+ str_exn e);; Ret false)).

Fixpoint poll_loop (fuel : nat) (end_ : Z)
  : Prog (option string * option string * string) :=
  match fuel with
  | O => Starve
  | S fuel' =>
      t ← call TimeTime;
      if (t <? end_)%Z then
        cur ← try_except (call CurrentUrl) (on_Exception (fun _ => Ret ""));
        if contains MARKER cur then
          rt ← call (QueryParam cur "request_token");
          status ← call (QueryParam cur "status");
          Ret (rt, status, cur)
        else (call (Sleep 500);; poll_loop fuel' end_)
      else (cur ← call CurrentUrl; Ret (None, None, cur))
  end.

Definition wait_for_request_token (timeout : Z)
  : Prog (option string * option string * string) :=
  t0 ← call TimeTime;
  poll_loop (rounds timeout 500) (t0 + timeout).

(** [//button[normalize-space()='Continue' or normalize-space()='CONTINUE'
    or normalize-space()='Continue ']] *)
Definition XP_CONTINUE : By :=
  ByXPath (Some "button")
    (XOr (XOr (XNormSpaceEq "Continue") (XNormSpaceEq "CONTINUE"))
       (XNormSpaceEq "Continue ")).

(** [//*[contains(@class,'profile') or contains(@class,'user-id') or
    contains(text(),'Positions') or contains(text(),'Holdings')]] *)
Definition XP_DASHBOARD : By :=
  ByXPath None
    (XOr (XOr (XOr (XAttrContains "class" "profile") (XAttrContains "class" "user-id"))
            (XTextContains "Positions"))
       (XTextContains "Holdings")).

(** The [for b in btn] loop of the continuation step. *)
Fixpoint click_first_usable (btn : list handle) : Prog bool :=
  match btn with
  | [] => Ret false
  | b :: rest =>
      clicked ← try_except
        (d ← call (IsDisplayed b);
         if d : bool
         then (e ← call (IsEnabled b);
               if e : bool then (call (Click b);; Ret true) else Ret false)
         else Ret false)
        (on_Exception (fun _ => Ret false));
      if clicked : bool then Ret true else click_first_usable rest
  end.

(** The continuation step of [perform_oauth_login] (the block that sets
    [clicked]). *)
Definition click_continue : Prog bool :=
  clicked ← try_except
    (btn ← call (FindElements XP_CONTINUE); click_first_usable btn)
    (on_Exception (fun _ => Ret false));
  if clicked : bool then Ret true
  else
    try_except
      (btn ← find_element XP_SUBMIT; call (Click btn);; Ret true)
      (on_Exception (fun _ => Ret false)).

Fixpoint heartbeat_loop (fuel : nat) (expiry : Z) : Prog unit :=
  match fuel with
  | O => Starve
  | S fuel' =>
      t ← call TimeTime;
      if (t <? expiry)%Z then
        (attempt (call (ExecuteScript "void(0);" []));;
         call (Sleep 30000);;
         heartbeat_loop fuel' expiry)
      else Ret tt
  end.

(** The keep-alive block of [perform_oauth_login]
    ([if KEEP_BROWSER_MINUTES > 0: ...]). *)
Definition keep_alive : Prog unit :=
  if (0 <? KEEP_BROWSER_MINUTES cfg)%Z then
    t ← call TimeTime;
    let expiry := (t + KEEP_BROWSER_MINUTES cfg * 60000)%Z in
    log_info ("Keeping browser open for " +:+ pretty (KEEP_BROWSER_MINUTES cfg)
              +:+ " minutes until " +:+ pretty expiry +:+ " UTC");;
    try_except
      (heartbeat_loop (rounds (KEEP_BROWSER_MINUTES cfg * 60000) 30000) expiry)
      (on_KeyboardInterrupt (log_info "Interrupted while keeping browser open"))
  else Ret tt.

(** The [except WebDriverException] and [except Exception] clauses of
    [perform_oauth_login]; [driver] tells whether the local variable
    [driver] was assigned when the exception was raised. *)
Definition on_failure (user_id : string) (driver : bool)
  : exn -> option (Prog bool) :=
  fun e =>
    if is_WebDriverException e then
      Some (log_error ("WebDriver exception for " +:+ user_id +:+ ": " +:+ str_exn e);;
            (if driver
             then attempt (screenshot ("webdriver_exc_" +:+ user_id);; Ret tt)
             else Ret tt);;
            Ret false)
    else if is_Exception e then
      Some (log_error ("Unhandled error for " +:+ user_id +:+ ": " +:+ str_exn e);;
            (if driver
             then attempt (screenshot ("exception_" +:+ user_id);; Ret tt)
             else Ret tt);;
            Ret false)
    else None.

(** From [driver.get(login_url)] to [time.sleep(1.0)]. *)
Definition submit_credentials (user_id password login_url : string) : Prog unit :=
  call (DriverGet login_url);;
  uid_field ← wait_until 25000 (presence_of_element_located ID_USERID);
  call (Clear uid_field);;
  call (SendKeys uid_field user_id);;
  pwd_field ← find_element ID_PASSWORD;
  call (Clear pwd_field);;
  call (SendKeys pwd_field password);;
  submit ← find_element XP_SUBMIT;
  call (Click submit);;
  log_info "Submitted credentials";;
  call (Sleep 1000).

(** From [save_encrypted_token] to the final [return True]. *)
Definition store_and_finish (user_id access_token : string) : Prog bool :=
  try_or_return
    (TokenManager.save_encrypted_token user_id access_token;;
     log_info ("Access token saved (encrypted) for " +:+ user_id);;
     send_email ("Kite token updated for " +:+ user_id)
       ("Access token refreshed and saved for " +:+ user_id))
    (on_Exception
       (fun e =>
          log_error ("Failed to save token for " +:+ user_id +:+ ": " +:+ str_exn e);;
          Ret false))
    (fun _ => keep_alive;; Ret true).

(** From [generate_session] on. *)
Definition exchange_and_store (user_id rt : string) : Prog bool :=
  try_or_return
    (call (GenerateSession (API_KEY cfg) rt (API_SECRET cfg)))
    (on_Exception
       (fun ex =>
          log_error ("generate_session failed: " +:+ str_exn ex);;
          screenshot ("generate_session_" +:+ user_id);;
          send_email ("Kite generate_session failed for " +:+ user_id)
            ("Error: " +:+ str_exn ex);;
          Ret false))
    (fun data =>
       let access_token := data !! "access_token" in
       if negb (truthy access_token) then
         log_error ("generate_session returned no access_token for " +:+ user_id
                    +:+ ": " +:+ repr_row data);;
         screenshot ("no_access_token_" +:+ user_id);;
         send_email ("Kite token missing for " +:+ user_id)
           ("generate_session returned: " +:+ repr_row data);;
         Ret false
       else store_and_finish user_id (default "" access_token)).

(** The branch [if not rt:] of [perform_oauth_login]. *)
Definition dashboard_probe (user_id final_url : string) : Prog bool :=
  try_except
    (wait_until 6000 (presence_of_element_located XP_DASHBOARD);;
     log_info ("Login appears successful for " +:+ user_id
               +:+ " (dashboard loaded). No request_token in URL.");;
     screenshot ("logged_in_no_request_" +:+ user_id);;
     Ret true)
    (on_Exception
       (fun _ =>
          log_error ("❌ No request_token found and dashboard not detected. Final URL: "
                     +:+ final_url);;
          screenshot ("no_request_token_" +:+ user_id);;
          send_email ("Kite login failed for " +:+ user_id)
            ("No request_token captured. Final URL: " +:+ final_url);;
          Ret false)).

Definition NO_OTP_MESSAGE (user_id : string) : string :=
  "❌ No OTP fields found for " +:+ user_id.

(** What [perform_oauth_login] does once [find_otp_fields] has returned. *)
Definition after_locator (user_id totp_secret : string) (fields : list handle)
  : Prog bool :=
  match fields with
  | [] =>
      log_error (NO_OTP_MESSAGE user_id);;
      screenshot ("no_otp_" +:+ user_id);;
      send_email ("Kite OTP not found for " +:+ user_id)
        ("Unable to find OTP input after credentials submission for " +:+ user_id);;
      Ret false
  | _ =>
      try_or_return
        (otp ← call (TotpNow totp_secret);
         log_info ("Generated OTP: " +:+ otp);;
         Ret otp)
        (on_Exception
           (fun e =>
              log_error ("Failed to generate OTP for " +:+ user_id +:+ ": "
                         +:+ str_exn e);;
              Ret false))
        (fun otp =>
           ok ← enter_otp otp fields;
           if negb ok then
             log_error ("❌ OTP entry failed for " +:+ user_id);;
             screenshot ("otp_entry_fail_" +:+ user_id);;
             send_email ("Kite OTP entry failed for " +:+ user_id)
               ("OTP entry failed for " +:+ user_id);;
             Ret false
           else
             clicked ← click_continue;
             log_info ("TOTP submitted. Waiting for redirect... (clicked="
                       +:+ str_bool clicked +:+ ")");;
             '(rt, status, final_url) ← wait_for_request_token 30000;
             if negb (truthy rt) then dashboard_probe user_id final_url
             else
               log_info ("Captured request_token for " +:+ user_id +:+ " (status="
                         +:+ str_opt status +:+ ") -> " +:+ str_opt rt);;
               exchange_and_store user_id (default "" rt))
  end.

(** From the first log line to [driver = build_driver()]. *)
Definition open_browser (user_id : string) : Prog string :=
  log_info ("=== Login start: " +:+ user_id +:+ " ===");;
  login_url ← call (KiteLoginUrl (API_KEY cfg));
  log_info ("Login URL: " +:+ login_url);;
  call BuildDriver;;
  Ret login_url.

Definition perform_oauth_login (user_id password totp_secret : string) : Prog bool :=
  try_or_return
    (open_browser user_id)
    (on_failure user_id false)
    (fun login_url =>
       try_finally
         (try_except
            (submit_credentials user_id password login_url;;
             fields ← find_otp_fields 18000;
             after_locator user_id totp_secret fields)
            (on_failure user_id true))
         (attempt (call DriverQuit))).

(** The [for uid, pwd, totp in accounts] loop of [main]. *)
Fixpoint main_loop (accounts : list (string * string * string)) : Prog unit :=
  match accounts with
  | [] => Ret tt
  | (uid, pwd, totp) :: rest =>
      stop ← try_except
        (ok ← perform_oauth_login uid pwd totp;
         log_info ("Result for " +:+ uid +:+ ": " +:+ str_bool ok);;
         Ret false)
        (fun e =>
           match e with
           | KeyboardInterrupt => Some (log_info "Interrupted by user";; Ret true)
           | _ =>
               if is_Exception e
               then Some (log_error ("Unhandled error in main loop for " +:+ uid);;
                          Ret false)
               else None
           end);
      if stop : bool then Ret tt
      else (call (Sleep 4000);; main_loop rest)
  end.

Definition main : Prog unit :=
  if negb (truthy (API_KEY cfg)) || negb (truthy (API_SECRET cfg)) then
    log_error "API_KEY or API_SECRET missing in environment (.env)"
  else
    accounts ← read_accounts (ACCOUNTS_CSV cfg);
    log_info ("Loaded " +:+ pretty (Z.of_nat (length accounts)) +:+ " accounts");;
    main_loop accounts.

End Script.
End OAuth.

(** ** kite_dashboard_login.py *)

Module Dashboard.
Section Script.
Variable cfg : Config.

Definition screenshot (name_prefix : string) : Prog string :=
  t ← call TimeTime;
  let path := screenshot_path name_prefix t in
  attempt (call (SaveScreenshot path);; log_info ("Screenshot saved: " +:+ path));;
  Ret path.

Fixpoint poll_loop (fuel : nat) (end_ : Z)
  : Prog (option string * option string * string) :=
  match fuel with
  | O => Starve
  | S fuel' =>
      t ← call TimeTime;
      if (t <? end_)%Z then
        u ← try_except (call CurrentUrl) (on_any (Ret ""));
        if contains MARKER u then
          rt ← call (QueryParam u "request_token");
          status ← call (QueryParam u "status");
          Ret (rt, status, u)
        else (call (Sleep 500);; poll_loop fuel' end_)
      else (u ← call CurrentUrl; Ret (None, None, u))
  end.

Definition wait_for_request_token (timeout : Z)
  : Prog (option string * option string * string) :=
  t0 ← call TimeTime;
  poll_loop (rounds timeout 500) (t0 + timeout).

(** [//input[@maxlength='1' and (@inputmode='numeric' or
    contains(@class,'digit') or contains(@class,'otp'))]] *)
Definition XP_SPLIT_BOXES : By :=
  ByXPath (Some "input")
    (XAnd (XAttrEq "maxlength" "1")
       (XOr (XOr (XAttrEq "inputmode" "numeric") (XAttrContains "class" "digit"))
          (XAttrContains "class" "otp"))).

(** [//input[@inputmode='numeric' or @type='tel' or @type='number']] *)
Definition XP_NUMERIC : By :=
  ByXPath (Some "input")
    (XOr (XOr (XAttrEq "inputmode" "numeric") (XAttrEq "type" "tel"))
       (XAttrEq "type" "number")).

(** [//input[@type='password']] *)
Definition XP_PASSWORD : By := ByXPath (Some "input") (XAttrEq "type" "password").

(** The strategies of one iteration of [find_otp_fields], inside its
    [try]; [None] when none of them returns. *)
Definition probe_by_id (loc : By) : Prog (option (list handle)) :=
  el ← call (FindElements loc);
  Ret (match el with [] => None | _ => Some el end).

Definition probe_split : Prog (option (list handle)) :=
  els ← call (FindElements XP_SPLIT_BOXES);
  els ← displayed_and_enabled els;
  Ret (if (2 <=? length els)%nat then Some els else None).

Definition probe_numeric : Prog (option (list handle)) :=
  els ← call (FindElements XP_NUMERIC);
  els ← displayed_and_enabled els;
  Ret (if (2 <=? length els)%nat then Some els
       else if (length els =? 1)%nat then Some els
       else None).

Definition probe_password : Prog (option (list handle)) :=
  els ← call (FindElements XP_PASSWORD);
  els ← displayed_only els;
  Ret (if (1 <=? length els)%nat then Some els else None).

Definition probe_all : Prog (option (list handle)) :=
  try_except
    (r ← probe_by_id ID_TOTP;
     match r with
     | Some el => Ret (Some el)
     | None =>
         r ← probe_by_id ID_PIN;
         match r with
         | Some el => Ret (Some el)
         | None =>
             r ← probe_split;
             match r with
             | Some els => Ret (Some els)
             | None =>
                 r ← probe_numeric;
                 match r with
                 | Some els => Ret (Some els)
                 | None => probe_password
                 end
             end
         end
     end)
    (on_any (Ret None)).

Fixpoint find_otp_loop (fuel : nat) (end_ : Z) : Prog (list handle) :=
  match fuel with
  | O => Starve
  | S fuel' =>
      t ← call TimeTime;
      if (t <? end_)%Z then
        or_else probe_all (call (Sleep 300);; find_otp_loop fuel' end_)
      else Ret []
  end.

Definition find_otp_fields (timeout : Z) : Prog (list handle) :=
  t0 ← call TimeTime;
  find_otp_loop (rounds timeout 300) (t0 + timeout).

(** The [for i, ch in enumerate(otp)] loop of [enter_otp_into_fields]. *)
Fixpoint enter_split (i : nat) (otp : list string) (fields : list handle)
  : Prog unit :=
  match otp with
  | [] => Ret tt
  | ch :: rest =>
      match fields !! i with
      | None => Ret tt
      | Some fld =>
          call (ExecuteScript "arguments[0].scrollIntoView(true);" [JElem fld]);;
          attempt_any (call (Click fld));;
          call (Clear fld);;
          call (SendKeys fld ch);;
          call (Sleep 50);;
          enter_split (S i) rest fields
      end
  end.

Definition enter_otp_into_fields (otp : string) (fields : list handle) : Prog bool :=
  try_except
    (match fields with
     | [f] =>
         attempt_any (call (Click f));;
         call (Clear f);;
         call (SendKeys f otp);;
         Ret true
     | _ => enter_split 0 (chars otp) fields;; Ret true
     end)
    (on_Exception
       (fun e => log_error ("OTP typing error: " +:+ str_exn e);; Ret false)).

(** [//button[contains(text(),'Continue') or contains(text(),'CONTINUE')]] *)
Definition XP_CONTINUE : By :=
  ByXPath (Some "button")
    (XOr (XTextContains "Continue") (XTextContains "CONTINUE")).

Definition TAG_BUTTON : By := ByTagName "button".

(** The two [try: btn = wait.until(...); btn.click(); return True
    except: pass] blocks of [click_continue_button]. *)
Definition click_when_clickable (timeout : Z) (loc : By) : Prog bool :=
  try_except
    (btn ← wait_until timeout (element_to_be_clickable loc);
     call (Click btn);;
     Ret true)
    (on_any (Ret false)).

(** The fallback loop [for b in driver.find_elements(By.TAG_NAME, "button")]. *)
Fixpoint click_first_visible (bs : list handle) : Prog bool :=
  match bs with
  | [] => Ret false
  | b :: rest =>
      d ← call (IsDisplayed b);
      e ← (if d : bool then call (IsEnabled b) else Ret false);
      if e : bool then (call (Click b);; Ret true)
      else click_first_visible rest
  end.

Definition click_continue_button (timeout : Z) : Prog bool :=
  try_except
    (a ← click_when_clickable timeout XP_CONTINUE;
     if a : bool then Ret true
     else
       b ← click_when_clickable timeout XP_SUBMIT;
       if b : bool then Ret true
       else (bs ← call (FindElements TAG_BUTTON); click_first_visible bs))
    (on_any (Ret false)).

Fixpoint heartbeat_loop (fuel : nat) (end_time : Z) : Prog unit :=
  match fuel with
  | O => Starve
  | S fuel' =>
      t ← call TimeTime;
      if (t <? end_time)%Z then
        (attempt_any
           (call (ExecuteScript "window.scrollBy(0,1);" []);;
            call (ExecuteScript "window.scrollBy(0,-1);" []));;
         call (Sleep 30000);;
         heartbeat_loop fuel' end_time)
      else Ret tt
  end.

Definition DAY : Z := 24 * 60 * 60 * 1000.

(** The 24-hour block of [perform_login_for_account]. *)
Definition keep_alive : Prog unit :=
  log_info "✅ Keeping dashboard open for 24 hours...";;
  t ← call TimeTime;
  heartbeat_loop (rounds DAY 30000) (t + DAY);;
  log_info "✅ 24 hours finished — browser stays open.".

Definition NO_OTP_MESSAGE : string := "OTP field not found".

(** What [perform_login_for_account] does once [find_otp_fields] has
    returned. *)
Definition after_locator (user_id totp_secret : string) (fields : list handle)
  : Prog bool :=
  match fields with
  | [] =>
      log_error NO_OTP_MESSAGE;;
      screenshot ("no_otp_" +:+ user_id);;
      Ret false
  | _ =>
      otp ← call (TotpNow totp_secret);
      log_info ("Generated OTP: " +:+ otp);;
      ok ← enter_otp_into_fields otp fields;
      if negb ok then
        log_error "OTP typing failed";;
        screenshot ("otp_fail_" +:+ user_id);;
        Ret false
      else
        click_continue_button 10000;;
        wait_for_request_token 30000;;
        log_info "✅ Login successful — dashboard loaded!";;
        keep_alive;;
        Ret true
  end.

(** From [driver.get] to [time.sleep(1)]. *)
Definition submit_credentials (user_id password : string) : Prog unit :=
  call (DriverGet "https://kite.zerodha.com/");;
  uid ← wait_until 20000 (presence_of_element_located ID_USERID);
  call (Clear uid);;
  call (SendKeys uid user_id);;
  pwd ← find_element ID_PASSWORD;
  call (Clear pwd);;
  call (SendKeys pwd password);;
  btn ← find_element XP_SUBMIT;
  call (Click btn);;
  log_info "Submitted credentials";;
  call (Sleep 1000).

(** The two lines before the [try] of [perform_login_for_account]. *)
Definition open_browser (user_id : string) : Prog unit :=
  log_info ("Starting login for " +:+ user_id);;
  call BuildDriver.

Definition perform_login_for_account (user_id password totp_secret : string)
  : Prog bool :=
  open_browser user_id;;
  try_except
    (submit_credentials user_id password;;
     fields ← find_otp_fields 15000;
     after_locator user_id totp_secret fields)
    (on_Exception
       (fun e =>
          log_error ("Error: " +:+ str_exn e);;
          screenshot ("exception_" +:+ user_id);;
          Ret false)).

(** [r[key]] on a row of [csv.DictReader]. *)
Definition getitem (r : gmap string string) (key : string) : Prog string :=
  match r !! key with
  | Some v => Ret v
  | None => Raise (KeyError key)
  end.

Fixpoint read_rows (reader : list (gmap string string))
    (rows : list (string * string * string)) : Prog (list (string * string * string)) :=
  match reader with
  | [] => Ret rows
  | r :: rest =>
      u ← getitem r "user_id";
      p ← getitem r "password";
      t ← getitem r "totp_secret";
      read_rows rest (rows ++ [(u, p, t)])
  end.

Definition read_accounts (fp : string) : Prog (list (string * string * string)) :=
  reader ← call (ReadCsv fp);
  read_rows reader [].

Fixpoint main_loop (accounts : list (string * string * string)) : Prog unit :=
  match accounts with
  | [] => Ret tt
  | (uid, pwd, totp) :: rest =>
      perform_login_for_account uid pwd totp;;
      call (Sleep 4000);;
      main_loop rest
  end.

Definition main : Prog unit :=
  if negb (truthy (API_KEY cfg)) || negb (truthy (API_SECRET cfg)) then
    log_error "API credentials missing"
  else
    accounts ← read_accounts (ACCOUNTS_CSV cfg);
    log_info ("Loaded " +:+ pretty (Z.of_nat (length accounts)) +:+ " accounts");;
    main_loop accounts.

End Script.
End Dashboard.

(** ** Reading the trace of a run *)

Module Trace.

(** The driver answered that [h] is displayed. *)
Definition shown (h : handle) (ev : Event) : bool :=
  match ev with
  | Ev op r =>
      match op in Prim X return result X -> bool with
      | IsDisplayed h' =>
          fun r => match r with Ok b => b && Nat.eqb h h' | Exc _ => false end
      | _ => fun _ => false
      end r
  end.

(** The driver answered that [h] is enabled. *)
Definition usable (h : handle) (ev : Event) : bool :=
  match ev with
  | Ev op r =>
      match op in Prim X return result X -> bool with
      | IsEnabled h' =>
          fun r => match r with Ok b => b && Nat.eqb h h' | Exc _ => false end
      | _ => fun _ => false
      end r
  end.

(** During the run the driver answered that [h] is displayed and that it is
    enabled. *)
Definition checked (h : handle) (evs : list Event) : bool :=
  existsb (shown h) evs && existsb (usable h) evs.

(** A lookup by id listed [h]. *)
Definition by_id (h : handle) (ev : Event) : bool :=
  match ev with
  | Ev op r =>
      match op in Prim X return result X -> bool with
      | FindElements (ById _) =>
          fun r => match r with Ok l => existsb (Nat.eqb h) l | Exc _ => false end
      | _ => fun _ => false
      end r
  end.

(** A [send_keys] that went through: the field and the text it received. *)
Definition sent_key (ev : Event) : option (handle * string) :=
  match ev with
  | Ev op r =>
      match op with
      | SendKeys h s => if is_ok r then Some (h, s) else None
      | _ => None
      end
  end.

Definition sent_keys (evs : list Event) : list (handle * string) :=
  omap sent_key evs.

(** A [click] that went through. *)
Definition clicked (ev : Event) : option handle :=
  match ev with
  | Ev op r =>
      match op with
      | Click h => if is_ok r then Some h else None
      | _ => None
      end
  end.

Definition clicks (evs : list Event) : list handle := omap clicked evs.

(** Every [click] that was tried, with whether it went through. *)
Definition click_tried (ev : Event) : option (handle * bool) :=
  match ev with
  | Ev op r =>
      match op with
      | Click h => Some (h, is_ok r)
      | _ => None
      end
  end.

Definition clicks_tried (evs : list Event) : list (handle * bool) :=
  omap click_tried evs.

(** A [save_screenshot] call, with whether the file was written. *)
Definition shot (ev : Event) : option (string * bool) :=
  match ev with
  | Ev op r =>
      match op with
      | SaveScreenshot p => Some (p, is_ok r)
      | _ => None
      end
  end.

Definition shots (evs : list Event) : list (string * bool) := omap shot evs.

Definition logged (ev : Event) : option (level * string) :=
  match ev with
  | Ev op _ =>
      match op with
      | Log lvl msg => Some (lvl, msg)
      | _ => None
      end
  end.

Definition logs (evs : list Event) : list (level * string) := omap logged evs.

(** A token exchange that answered, and the answer's access token. *)
Definition exchanged (ev : Event) : option (option string) :=
  match ev with
  | Ev op r =>
      match op in Prim X return result X -> option (option string) with
      | GenerateSession _ _ _ =>
          fun r => match r with
                   | Ok data => Some (data !! "access_token")
                   | Exc _ => None
                   end
      | _ => fun _ => None
      end r
  end.

Definition exchanges (evs : list Event) : list (option string) := omap exchanged evs.

(** A write to disk that went through. *)
Definition written (ev : Event) : option (string * list Byte.byte) :=
  match ev with
  | Ev op r =>
      match op with
      | WriteBytes p d => if is_ok r then Some (p, d) else None
      | _ => None
      end
  end.

Definition writes (evs : list Event) : list (string * list Byte.byte) :=
  omap written evs.

(** A Fernet encryption: the plain text and the cipher text. *)
Definition encrypted (ev : Event) : option (list Byte.byte * list Byte.byte) :=
  match ev with
  | Ev op r =>
      match op in Prim X return result X -> option (list Byte.byte * list Byte.byte) with
      | FernetEncrypt _ d =>
          fun r => match r with Ok c => Some (d, c) | Exc _ => None end
      | _ => fun _ => None
      end r
  end.

Definition encryptions (evs : list Event) : list (list Byte.byte * list Byte.byte) :=
  omap encrypted evs.

(** A query of the page that found something. *)
Definition found (loc : By) (ev : Event) : bool :=
  match ev with
  | Ev op r =>
      match op in Prim X return result X -> bool with
      | FindElements loc' =>
          fun r => match r with
                   | Ok (_ :: _) => bool_decide (loc = loc')
                   | _ => false
                   end
      | _ => fun _ => false
      end r
  end.

(** A call to the browser was interrupted from the keyboard. *)
Definition interrupted (ev : Event) : bool :=
  match ev with
  | Ev _ (Exc KeyboardInterrupt) => true
  | _ => false
  end.

Definition is_sleep (ev : Event) : bool :=
  match ev with
  | Ev op _ => match op with Sleep _ => true | _ => false end
  end.

Definition is_driver_build (ev : Event) : bool :=
  match ev with
  | Ev op _ => match op with BuildDriver => true | _ => false end
  end.

(** The locator of a query of the page, answered or not. *)
Definition queried (ev : Event) : option By :=
  match ev with
  | Ev op r =>
      match op with
      | FindElements loc => Some loc
      | _ => None
      end
  end.

Definition queries (evs : list Event) : list By := omap queried evs.

(** A query of [loc] listed [h] first. *)
Definition first_of (loc : By) (h : handle) (ev : Event) : bool :=
  match ev with
  | Ev op r =>
      match op in Prim X return result X -> bool with
      | FindElements loc' =>
          fun r => match r with
                   | Ok (h' :: _) => bool_decide (loc = loc') && Nat.eqb h h'
                   | _ => false
                   end
      | _ => fun _ => false
      end r
  end.

(** A message handed to the SMTP server, delivered or not: host, port,
    user, password, subject, body, recipient. *)
Definition mailed (ev : Event)
  : option (string * Z * string * string * string * string * string) :=
  match ev with
  | Ev op r =>
      match op with
      | SmtpSend h p u pw s b t => Some (h, p, u, pw, s, b, t)
      | _ => None
      end
  end.

Definition mails (evs : list Event)
  : list (string * Z * string * string * string * string * string) :=
  omap mailed evs.

(** The life of a browser: started (or the start failed), closed. *)
Inductive browser_step : Type :=
| Built (ok : bool)
| Quit.

Definition lifecycle_step (ev : Event) : option browser_step :=
  match ev with
  | Ev op r =>
      match op with
      | BuildDriver => Some (Built (is_ok r))
      | DriverQuit => Some Quit
      | _ => None
      end
  end.

Definition lifecycle (evs : list Event) : list browser_step :=
  omap lifecycle_step evs.

(** What [time.time()] answered. *)
Definition clock_reading (ev : Event) : option Z :=
  match ev with
  | Ev op r =>
      match op in Prim X return result X -> option Z with
      | TimeTime => fun r => match r with Ok t => Some t | Exc _ => None end
      | _ => fun _ => None
      end r
  end.

Definition readings (evs : list Event) : list Z := omap clock_reading evs.

End Trace.
Export Trace.

(** ** Properties of all runs of a program *)

Module Logic.

(** A constraint on what calls may answer. *)
Definition answers : Type := forall X, Prim X -> result X -> Prop.

(** [always adm p Q]: on every path through [p] whose answers satisfy
    [adm], the events of the path and the way it ends satisfy [Q]. *)
Fixpoint always (adm : answers) {A} (p : Prog A)
    (Q : list Event -> outcome A -> Prop) : Prop :=
  match p with
  | Ret a => Q [] (Returns a)
  | Raise e => Q [] (Raises e)
  | Starve => Q [] OutOfFuel
  | Call op k =>
      forall r, adm _ op r -> always adm (k r) (fun evs o => Q (Ev op r :: evs) o)
  end.

Definition only_Exception {X} (r : result X) : Prop :=
  match r with
  | Exc e => is_Exception e = true
  | Ok _ => True
  end.

(** No constraint: any answer to any call. *)
Definition every : answers := fun _ _ _ => True.

(** What the answers of every world satisfy. *)
Definition any_world : answers :=
  fun X op r =>
    match op with
    | TimeTime | Log _ _ | Print _ | Getenv _ | QueryParam _ _
    | KiteLoginUrl _ | PathExists _ | FernetEncrypt _ _ => is_ok r = true
    | Sleep _ =>
        match r with
        | Exc e => e = KeyboardInterrupt
        | Ok _ => True
        end
    | PyInt _ | TotpNow _ | FernetNew _ | FernetDecrypt _ _
    | ReadCsv _ | WriteBytes _ _ | ReadBytes _ | Chmod _ _ | Unlink _
    | SmtpSend _ _ _ _ _ _ _ => only_Exception r
    | _ => True
    end.

(** Typing into a field and sleeping go through, and no call is
    interrupted from the keyboard. *)
Definition typing_succeeds : answers :=
  fun X op r =>
    match op with
    | SendKeys _ _ | Sleep _ => is_ok r = true
    | _ => only_Exception r
    end.

(** As [typing_succeeds], and clearing a field and running a script go
    through as well. *)
Definition page_steady : answers :=
  fun X op r =>
    match op with
    | SendKeys _ _ | Sleep _ | Clear _ | ExecuteScript _ _ => is_ok r = true
    | _ => only_Exception r
    end.

(** What a run tells of a handle: it was answered displayed and enabled;
    it was answered displayed; it was answered displayed or listed by a
    lookup by id. *)
Definition is_checked (h : handle) (evs : list Event) : Prop :=
  checked h evs = true.

Definition is_shown (h : handle) (evs : list Event) : Prop :=
  existsb (shown h) evs = true.

Definition is_seen (h : handle) (evs : list Event) : Prop :=
  existsb (shown h) evs = true \/ existsb (by_id h) evs = true.

(** Every handle a locator returns satisfies [P] on the events of its run. *)
Definition all_of (P : handle -> list Event -> Prop)
    (evs : list Event) (o : outcome (list handle)) : Prop :=
  forall l, o = Returns l -> Forall (fun h => P h evs) l.

Definition some_of (P : handle -> list Event -> Prop)
    (evs : list Event) (o : outcome (option (list handle))) : Prop :=
  forall l, o = Returns (Some l) -> Forall (fun h => P h evs) l.

(** No call is interrupted from the keyboard, and calls inside the process
    answer. *)
Definition calm : answers :=
  fun X op r => any_world X op r /\ only_Exception r.

(** A property of the events of the runs that return [True]. *)
Definition when_true (S : list Event -> Prop)
    (evs : list Event) (o : outcome bool) : Prop :=
  o = Returns true -> S evs.

(** The program does not return [True]. *)
Definition never_true (p : Prog bool) : Prop :=
  always every p (fun _ o => o <> Returns true).

(** The token [tok] was encrypted and the cipher text written to the token
    file of [user_id]. *)
Definition kept (user_id tok : string) (evs : list Event) : Prop :=
  exists enc,
    In (list_byte_of_string tok, enc) (encryptions evs) /\
    In (TokenManager.token_path user_id, enc) (writes evs).

(** The token exchange answered with a non-empty access token, which was
    then handed to the token store. *)
Definition stored (user_id : string) (evs : list Event) : Prop :=
  exists tok,
    In (Some tok) (exchanges evs) /\ tok <> "" /\ kept user_id tok evs.

(** The probe for dashboard markup found some. *)
Definition dashboard_reached (evs : list Event) : Prop :=
  existsb (found OAuth.XP_DASHBOARD) evs = true.

(** What a successful attempt of the OAuth script rests on. *)
Definition success_grounds (user_id : string) (evs : list Event) : Prop :=
  stored user_id evs \/ dashboard_reached evs.

(** No token exchange and no write to disk among the events. *)
Definition token_free (evs : list Event) : Prop :=
  exchanges evs = [] /\ writes evs = [].

(** A program none of whose runs exchanges a token or writes to disk. *)
Definition silent {A} (p : Prog A) : Prop :=
  always every p (fun evs _ => token_free evs).

(** How a timed loop ends: normally, past its deadline [d] and with events
    that satisfy [clean]; or by a keyboard interrupt raised by its last
    call, the events before it satisfying [clean]. *)
Definition ends_at (clean : list Event -> Prop) (d : Z)
    (r : outcome unit * St * list Event) : Prop :=
  (r.1.1 = Returns tt /\ clean r.2 /\ (d <= now r.1.2)%Z) \/
  (r.1.1 = Raises KeyboardInterrupt /\
   exists pre X (op : Prim X),
     r.2 = (pre ++ [Ev op (Exc KeyboardInterrupt)])%list /\ clean pre).

(** How one round of the loop's body ends. *)
Definition round_ends (clean : list Event -> Prop)
    (r : outcome unit * St * list Event) : Prop :=
  (r.1.1 = Returns tt /\ clean r.2) \/
  (r.1.1 = Raises KeyboardInterrupt /\
   exists pre X (op : Prim X),
     r.2 = (pre ++ [Ev op (Exc KeyboardInterrupt)])%list /\ clean pre).

(** No call among the events was interrupted. *)
Definition undisturbed (evs : list Event) : Prop :=
  existsb interrupted evs = false.

(** The driver can always write a screenshot. *)
Definition camera_works (W : World) : Prop :=
  forall t p, fault W t _ (SaveScreenshot p) = None.

(** A run whose events follow the events [e] of an earlier part. *)
Definition prepend {A} (e : list Event) (r : outcome A * St * list Event)
  : outcome A * St * list Event :=
  (r.1.1, r.1.2, (e ++ r.2)%list).

(** The world [W] answers within [adm]. *)
Definition answers_within (W : World) (adm : answers) : Prop :=
  forall st X (op : Prim X), adm X op (respond W st op).1.

(** No call is interrupted from the keyboard. *)
Definition uninterrupted (W : World) : Prop :=
  forall t X (op : Prim X), fault W t X op <> Some KeyboardInterrupt.

(** The run ends with a click that went through, on a handle that
    satisfies [P] on the events before it, and no earlier click went
    through. *)
Definition ends_with_click (P : handle -> list Event -> Prop)
    (evs : list Event) : Prop :=
  exists pre h,
    evs = (pre ++ [Ev (Click h) (Ok tt)])%list /\ clicks pre = [] /\ P h pre.

(** How a continuation step ends: [True] after one click, the last call of
    the step; anything else without a click that went through. [E] says
    which exceptions may leave the step. *)
Definition click_outcome (P : handle -> list Event -> Prop) (E : exn -> Prop)
    (evs : list Event) (o : outcome bool) : Prop :=
  match o with
  | Returns true => ends_with_click P evs
  | Returns false => clicks evs = []
  | Raises e => E e /\ clicks evs = []
  | OutOfFuel => clicks evs = []
  end.

(** The page was queried with [a], then [b], then [c], each any number of
    times, [a] at least once and [c] at most once. *)
Definition in_stages (a b c : By) (evs : list Event) : Prop :=
  exists n1 n2 n3,
    queries evs = (replicate n1 a ++ replicate n2 b ++ replicate n3 c)%list /\
    (1 <= n1)%nat /\ (n3 <= 1)%nat.

(** In world [W] the program has fuel enough from every state. *)
Definition terminates (W : World) {A} (p : Prog A) : Prop :=
  forall st, (exec W p st).1.1 <> OutOfFuel.

(** A wait queried the page with [loc] only, and at least once unless it
    ran out of fuel. *)
Definition polled (loc : By) {A} (evs : list Event) (o : outcome A) : Prop :=
  exists n, queries evs = replicate n loc /\ (o <> OutOfFuel -> (1 <= n)%nat).

(** The driver listed [h] first for the submit locator. *)
Definition is_first_submit (h : handle) (evs : list Event) : Prop :=
  existsb (first_of XP_SUBMIT h) evs = true.

(** An exception that [except Exception] does not catch. *)
Definition beyond_Exception (e : exn) : Prop := is_Exception e = false.

(** In world [W] the program returns [True] only after at least [d]
    milliseconds. *)
Definition takes (W : World) (p : Prog bool) (d : Z) : Prop :=
  forall st, (exec W p st).1.1 = Returns true ->
             (now st + d <= now (exec W p st).1.2)%Z.

(** In world [W] the program has fuel enough when it starts at time [t] or
    later. *)
Definition lasts (W : World) {A} (p : Prog A) (t : Z) : Prop :=
  forall st, (t <= now st)%Z -> (exec W p st).1.1 <> OutOfFuel.

(** On the paths that [adm] admits the program neither starts nor closes a
    browser, and an exception that leaves it satisfies [E]. *)
Definition steady (adm : answers) (E : exn -> Prop) {A} (p : Prog A) : Prop :=
  always adm p (fun evs o => lifecycle evs = [] /\ forall e, o = Raises e -> E e).

(** How the browser of one attempt of the OAuth script lives: it could not
    be started, or it was started once and closed once, by the last call of
    the attempt. *)
Definition closed_session (evs : list Event) : Prop :=
  lifecycle evs = [Built false] \/
  (lifecycle evs = [Built true; Quit] /\
   exists pre r, evs = (pre ++ [Ev DriverQuit r])%list).

(** The steps of a browser that was started ([true]) and closed, or that
    could not be started ([false]). *)
Definition session (started : bool) : list browser_step :=
  if started then [Built true; Quit] else [Built false].

(** Started at time [t] or later in world [W], the locator returns the
    empty list only when the clock has reached [d]. *)
Definition gives_up_from (W : World) (p : Prog (list handle)) (t d : Z) : Prop :=
  forall st, (t <= now st)%Z -> (exec W p st).1.1 = Returns [] ->
             (d <= now (exec W p st).1.2)%Z.

(** A strategy of the locator that returns handles returns at least one. *)
Definition finds_some (o : outcome (option (list handle))) : Prop :=
  o <> Returns (Some []).

(** What the poller returns for redirect address [u] in world [W]. *)
Definition redirect_of (W : World) (u : string)
  : option string * option string * string :=
  (parse_qs W u "request_token", parse_qs W u "status", u).

(** Started at time [t] or later in world [W], the poller returns either
    what a redirect address with the marker gives, or no token once the
    clock has reached [d]. *)
Definition polls_until (W : World)
    (p : Prog (option string * option string * string)) (t d : Z) : Prop :=
  forall st, (t <= now st)%Z ->
    forall rt status u, (exec W p st).1.1 = Returns (rt, status, u) ->
      (contains MARKER u = true /\ (rt, status, u) = redirect_of W u) \/
      (rt = None /\ status = None /\ (d <= now (exec W p st).1.2)%Z).

(** The keystrokes that went through are the first of [expected], in order,
    and all of them when the answer is [True]. *)
Definition types (expected : list (handle * string)) (evs : list Event)
    (o : outcome bool) : Prop :=
  sent_keys evs `prefix_of` expected /\
  (o = Returns true -> sent_keys evs = expected).

(** What a path through the loop over the characters has typed: the first
    of [expected], all of them when the loop ends, and nothing logged. *)
Definition split_typed (expected : list (handle * string)) (evs : list Event)
    (o : outcome unit) : Prop :=
  sent_keys evs `prefix_of` expected /\
  logs evs = [] /\
  (o = Returns tt -> sent_keys evs = expected).

(** The last line logged is an error. *)
Definition error_logged (evs : list Event) : Prop :=
  exists msg, last (logs evs) = Some (ERROR, msg).

(** No browser is closed among the events. *)
Definition never_quits (evs : list Event) : Prop := ~ In Quit (lifecycle evs).

(** What leaves a call satisfies [E], and so does every [Exception]. *)
Definition lets_through (adm : answers) (E : exn -> Prop) : Prop :=
  (forall X (op : Prim X) e, adm X op (Exc e) -> E e) /\
  (forall e, is_Exception e = true -> E e).

(** An exception that [except Exception] catches; one that it does not. *)
Definition caught (e : exn) : Prop := is_Exception e = true.
Definition uncaught (e : exn) : Prop := is_Exception e = false.

(** Started at time [t] or later in world [W], the program raises an
    exception that [except Exception] would catch only from a read of the
    address that is its last call, once the clock has reached [d]. *)
Definition fails_late (W : World) {A} (p : Prog A) (t d : Z) : Prop :=
  forall st, (t <= now st)%Z ->
    forall e, (exec W p st).1.1 = Raises e -> caught e ->
      (d <= now (exec W p st).1.2)%Z /\
      exists pre, (exec W p st).2 = (pre ++ [Ev CurrentUrl (Exc e)])%list.

(** On the paths that [adm] admits, an exception that leaves the program
    satisfies [P]. *)
Definition escapes (adm : answers) (P : exn -> Prop) {A} (p : Prog A) : Prop :=
  always adm p (fun _ o => forall e, o = Raises e -> P e).

(** No exception that [except Exception] catches leaves the program. *)
Definition contained {A} (p : Prog A) : Prop :=
  escapes any_world uncaught p.

(** Where no call is interrupted from the keyboard, no exception leaves
    the program. *)
Definition unfailing {A} (p : Prog A) : Prop :=
  escapes calm (fun _ => False) p.

(** How a run ends, what it did and the state it leaves. *)
Definition outcome_of (W : World) {A} (p : Prog A) (st : St) : outcome A :=
  (exec W p st).1.1.

Definition events_of (W : World) {A} (p : Prog A) (st : St) : list Event :=
  (exec W p st).2.

Definition state_of (W : World) {A} (p : Prog A) (st : St) : St :=
  (exec W p st).1.2.

(** A variable of the environment is set to a non-empty value. *)
Definition env_set (W : World) (k v : string) : Prop :=
  environ W !! k = Some v /\ v <> "".

(** [SMTP_PORT] is set to something [int] rejects. *)
Definition bad_port (W : World) : Prop :=
  exists s, environ W !! "SMTP_PORT" = Some s /\ py_int W s = None.

(** The port [send_email] connects to: 587 unless [SMTP_PORT] says
    otherwise. *)
Definition smtp_port (W : World) (port : Z) : Prop :=
  (environ W !! "SMTP_PORT" = None /\ port = 587) \/
  (exists s, environ W !! "SMTP_PORT" = Some s /\ py_int W s = Some port).

End Logic.
Export Logic.

(** ** The account source as the specification words it *)

Module Spec.

(** The value of a field: the first non-empty value the row holds under one
    of the accepted header spellings. *)
Fixpoint field (names : list string) (r : gmap string string) : option string :=
  match names with
  | [] => None
  | n :: rest =>
      match r !! n with
      | Some v => if String.eqb v "" then field rest r else Some v
      | None => field rest r
      end
  end.

Definition USER_ID_NAMES : list string := ["user_id"; "userid"; "user"].
Definition PASSWORD_NAMES : list string := ["password"].
Definition TOTP_NAMES : list string := ["totp_secret"; "totp"; "secret"].

(** A row with its three required fields gives an account (trimmed); a row
    missing one gives none. *)
Definition account_of_row (r : gmap string string) : option (string * string * string) :=
  match field USER_ID_NAMES r, field PASSWORD_NAMES r, field TOTP_NAMES r with
  | Some u, Some p, Some t => Some (strip u, strip p, strip t)
  | _, _, _ => None
  end.

Definition complete (r : gmap string string) : bool :=
  bool_decide (is_Some (account_of_row r)).

Definition accounts_of_rows (rows : list (gmap string string))
  : list (string * string * string) :=
  omap account_of_row rows.

(** What the fields receive from the injector: one field takes the whole
    passcode; several fields take one character each, in order, as far as
    the shorter of the two lists goes. *)
Definition expected_keys (otp : string) (fields : list handle) : list (handle * string) :=
  match fields with
  | [f] => [(f, otp)]
  | _ => zip fields (chars otp)
  end.

(** The warning the loader logs for a dropped row. *)
Definition skip_warning (r : gmap string string) : level * string :=
  (WARNING, "Skipping incomplete row: " +:+ repr_row r).

(** The triple the dashboard loader builds from a row: the values under
    the exact headers, as they are. *)
Definition verbatim_account (r : gmap string string) : string * string * string :=
  (default "" (r !! "user_id"), default "" (r !! "password"),
   default "" (r !! "totp_secret")).

(** The row has the three headers in their exact spelling. *)
Definition has_exact_headers (r : gmap string string) : Prop :=
  is_Some (r !! "user_id") /\ is_Some (r !! "password") /\ is_Some (r !! "totp_secret").

(** The continuation control as the specification words it: the first
    visible, enabled button labelled "Continue" in any letter case; failing
    that the first visible, enabled button of type submit; failing that the
    first visible, enabled button. *)
Definition lower_ascii (c : ascii) : ascii :=
  let n := nat_of_ascii c in
  if (65 <=? n)%nat && (n <=? 90)%nat then ascii_of_nat (n + 32) else c.

Fixpoint lower (s : string) : string :=
  match s with
  | EmptyString => EmptyString
  | String c s' => String (lower_ascii c) (lower s')
  end.

Definition visible_button (e : Element) : bool :=
  String.eqb (el_tag e) "button" && el_displayed e && el_enabled e.

Definition labelled_continue (e : Element) : bool :=
  String.eqb (lower (strip (el_text e))) "continue".

Definition of_submit_type (e : Element) : bool :=
  bool_decide (el_attrs e !! "type" = Some "submit").

Definition continuation_target (pg : list Element) : option handle :=
  match List.find (fun e => visible_button e && labelled_continue e) pg with
  | Some e => Some (el_handle e)
  | None =>
      match List.find (fun e => visible_button e && of_submit_type e) pg with
      | Some e => Some (el_handle e)
      | None => el_handle <$> List.find visible_button pg
      end
  end.

End Spec.

(** ** Example worlds *)

Module Examples.

(** A stand-in for Fernet: reversal, whatever the key. *)
Definition toy_encrypt (key : string) (nonce : nat) (m : list Byte.byte)
  : list Byte.byte := rev m.

Definition toy_decrypt (key : string) (c : list Byte.byte)
  : option (list Byte.byte) := Some (rev c).

(** The text after the first occurrence of [pat] in [s]. *)
Fixpoint after (pat s : string) : option string :=
  if String.prefix pat s
  then Some (String.substring (String.length pat) (String.length s) s)
  else match s with
       | EmptyString => None
       | String _ s' => after pat s'
       end.

Fixpoint upto_amp (s : string) : string :=
  match s with
  | EmptyString => EmptyString
  | String c s' => if Ascii.eqb c "&"%char then EmptyString else String c (upto_amp s')
  end.

(** A stand-in for [parse_qs(urlparse(u).query).get(key, [None])[0]]. *)
Definition toy_parse_qs (u key : string) : option string :=
  match after (key +:+ "=") u with
  | Some rest => if String.eqb (upto_amp rest) "" then None else Some (upto_amp rest)
  | None => None
  end.

Definition no_fault : nat -> forall X, Prim X -> option exn :=
  fun _ _ _ => None.

Definition world (pg : nat -> list Element) (u : nat -> string)
    (flt : nat -> forall X, Prim X -> option exn)
    (env : gmap string string)
    (csv : list (gmap string string))
    (session : gmap string string) : World :=
  {| page := pg;
     url := u;
     fault := flt;
     latency := fun _ => 0%N;
     environ := env;
     py_int := fun _ => Some 587;
     parse_qs := toy_parse_qs;
     csv_dict_reader := fun _ => csv;
     totp_now := fun _ _ => Some "123456";
     kite_login_url := fun _ => "https://kite.zerodha.com/connect/login?v=3&api_key=key";
     kite_session := fun _ _ => session;
     fernet_valid_key := fun _ => true;
     fernet_encrypt := toy_encrypt;
     fernet_decrypt := toy_decrypt |}.

Definition start : St := {| tick := 0; now := 1700000000000; files := ∅ |}.

Definition start_with_csv : St :=
  {| tick := 0; now := 1700000000000; files := {[ "accounts.csv" := [] ]} |}.

Definition config : Config :=
  {| API_KEY := Some "key"; API_SECRET := Some "secret";
     ACCOUNTS_CSV := "accounts.csv"; KEEP_BROWSER_MINUTES := 0 |}.

(** A platform where [chmod] is not supported. *)
Definition chmod_unsupported : nat -> forall X, Prim X -> option exn :=
  fun _ _ op =>
    match op with
    | Chmod _ _ => Some OSError
    | _ => None
    end.

(** A page on which focusing and clicking a field fail, while typing works. *)
Definition clicks_fail : nat -> forall X, Prim X -> option exn :=
  fun _ _ op =>
    match op with
    | Click _ => Some ElementNotInteractableException
    | _ => None
    end.

Definition typing_world : World :=
  world (fun _ => []) (fun _ => "") clicks_fail ∅ [] ∅.

(** A field with id [totp] that is on the page but hidden and disabled. *)
Definition hidden_totp : Element :=
  {| el_handle := 7%nat; el_tag := "input"; el_attrs := {[ "id" := "totp" ]};
     el_text := ""; el_displayed := false; el_enabled := false |}.

Definition hidden_totp_world : World :=
  world (fun _ => [hidden_totp]) (fun _ => "") no_fault ∅ [] ∅.

(** A password input that is displayed but disabled. *)
Definition disabled_password : Element :=
  {| el_handle := 8%nat; el_tag := "input"; el_attrs := {[ "type" := "password" ]};
     el_text := ""; el_displayed := true; el_enabled := false |}.

Definition disabled_password_world : World :=
  world (fun _ => [disabled_password]) (fun _ => "") no_fault ∅ [] ∅.

(** Four split digit boxes, after a hidden one. *)
Definition digit_box (h : handle) (visible : bool) : Element :=
  {| el_handle := h; el_tag := "input";
     el_attrs := {[ "maxlength" := "1"; "inputmode" := "numeric" ]};
     el_text := ""; el_displayed := visible; el_enabled := true |}.

Definition split_boxes_world : World :=
  world (fun _ => [digit_box 20%nat false; digit_box 21%nat true; digit_box 22%nat true;
                   digit_box 23%nat true; digit_box 24%nat true])
    (fun _ => "") no_fault ∅ [] ∅.

(** A browser whose window is gone: reading the URL fails. *)
Definition url_unreadable : nat -> forall X, Prim X -> option exn :=
  fun _ _ op =>
    match op with
    | CurrentUrl => Some WebDriverException
    | _ => None
    end.

Definition url_unreadable_world : World :=
  world (fun _ => []) (fun _ => "") url_unreadable ∅ [] ∅.

(** Two complete accounts. *)
Definition two_rows : list (gmap string string) :=
  [ {[ "user_id" := "AB1234"; "password" := "pw1"; "totp_secret" := "SEED1" ]};
    {[ "user_id" := "CD5678"; "password" := "pw2"; "totp_secret" := "SEED2" ]} ].

(** The browser cannot be started. *)
Definition no_browser : nat -> forall X, Prim X -> option exn :=
  fun _ _ op =>
    match op with
    | BuildDriver => Some WebDriverException
    | _ => None
    end.

Definition no_browser_world : World :=
  world (fun _ => []) (fun _ => "") no_browser ∅ two_rows ∅.

(** The login page: the user-id and password inputs and the submit button,
    and nothing that looks like an OTP field. *)
Definition login_page : list Element :=
  [ {| el_handle := 1%nat; el_tag := "input"; el_attrs := {[ "id" := "userid" ]};
       el_text := ""; el_displayed := true; el_enabled := true |};
    {| el_handle := 2%nat; el_tag := "input"; el_attrs := {[ "id" := "password" ]};
       el_text := ""; el_displayed := true; el_enabled := true |};
    {| el_handle := 3%nat; el_tag := "button"; el_attrs := {[ "type" := "submit" ]};
       el_text := "Login"; el_displayed := true; el_enabled := true |} ].

Definition stuck_login_world : World :=
  world (fun _ => login_page) (fun _ => "https://kite.zerodha.com/") no_fault
    ∅ [] ∅.

(** The page after the credentials went in: the login form and a single
    OTP field. *)
Definition otp_page : list Element :=
  login_page ++
  [ {| el_handle := 4%nat; el_tag := "input"; el_attrs := {[ "id" := "totp" ]};
       el_text := ""; el_displayed := true; el_enabled := true |} ].

(** The operator presses Ctrl-C while the script sleeps between two
    heartbeats. *)
Definition interrupt_long_sleep : nat -> forall X, Prim X -> option exn :=
  fun _ _ op =>
    match op with
    | Sleep ms => if (ms =? 30000)%Z then Some KeyboardInterrupt else None
    | _ => None
    end.

Definition ctrl_c_world : World :=
  world (fun _ => otp_page) (fun _ => "https://kite.zerodha.com/dashboard")
    interrupt_long_sleep ∅ [] ∅.

(** The operator presses Ctrl-C during the first heartbeat script. *)
Definition interrupt_first_script : nat -> forall X, Prim X -> option exn :=
  fun t _ op =>
    match op with
    | ExecuteScript _ _ => if (t <? 5)%nat then Some KeyboardInterrupt else None
    | _ => None
    end.

Definition ctrl_c_in_script_world : World :=
  world (fun _ => otp_page) (fun _ => "https://kite.zerodha.com/dashboard")
    interrupt_first_script ∅ [] ∅.

Definition keep_two_minutes : Config :=
  {| API_KEY := Some "key"; API_SECRET := Some "secret";
     ACCOUNTS_CSV := "accounts.csv"; KEEP_BROWSER_MINUTES := 2 |}.

Definition store_world : World :=
  world (fun _ => []) (fun _ => "") chmod_unsupported
    {[ "FERNET_KEY" := "a-key" ]} [] ∅.

(** Rows with the alternate spellings, and two incomplete rows. *)
Definition alt_rows : list (gmap string string) :=
  [ {[ "userid" := " AB1234 "; "password" := "pw1"; "totp" := "SEED1" ]};
    {[ "user" := "CD5678"; "password" := ""; "secret" := "SEED2" ]};
    {[ "user_id" := "EF9012"; "password" := "pw3" ]};
    {[ "user" := "GH3456"; "password" := "pw4"; "secret" := "SEED4" ]} ].

Definition alt_csv_world : World :=
  world (fun _ => []) (fun _ => "") no_fault ∅ alt_rows ∅.

(** Rows with the exact headers; the second has an empty password. *)
Definition exact_rows : list (gmap string string) :=
  [ {[ "user_id" := "AB1234"; "password" := "pw1"; "totp_secret" := "SEED1" ]};
    {[ "user_id" := "CD5678"; "password" := ""; "totp_secret" := "SEED2" ]} ].

Definition exact_csv_world : World :=
  world (fun _ => []) (fun _ => "") no_fault ∅ exact_rows ∅.

(** The browser stays on a page with the login form and an OTP field; the
    address never carries a request token. *)
Definition no_redirect_world : World :=
  world (fun _ => otp_page) (fun _ => "https://kite.zerodha.com/dashboard")
    no_fault ∅ [] ∅.

(** The redirect arrives with a request token and the exchange yields an
    access token; [env] decides whether the token store has its key. *)
Definition redirect_world (env : gmap string string) : World :=
  world (fun _ => otp_page)
    (fun _ => "https://127.0.0.1/?request_token=abc&status=success")
    no_fault env [] {[ "access_token" := "tok" ]}.

(** Pages for the continuation step. *)
Definition button (h : handle) (label : string) (attrs : gmap string string)
    (usable : bool) : Element :=
  {| el_handle := h; el_tag := "button"; el_attrs := attrs; el_text := label;
     el_displayed := usable; el_enabled := usable |}.

Definition static_world (pg : list Element) : World :=
  world (fun _ => pg) (fun _ => "https://kite.zerodha.com/") no_fault ∅ [] ∅.

(** One button, neither labelled "Continue" nor of type submit. *)
Definition next_page : list Element := [button 5%nat "Next" ∅ true].

(** A button labelled in lower case, and a submit button. *)
Definition lowercase_page : list Element :=
  [button 5%nat "continue" ∅ true; button 6%nat "Cancel" {[ "type" := "submit" ]} true].

(** A hidden "Continue" button before a visible one, and a submit button. *)
Definition hidden_first_page : list Element :=
  [button 5%nat "Continue" ∅ false; button 6%nat "Continue" ∅ true;
   button 7%nat "Back" {[ "type" := "submit" ]} true].

(** A hidden, disabled submit button alone. *)
Definition hidden_submit_page : list Element :=
  [button 5%nat "Login" {[ "type" := "submit" ]} false].

(** The operator presses Ctrl-C during the pause between two accounts. *)
Definition interrupt_pause : nat -> forall X, Prim X -> option exn :=
  fun _ _ op =>
    match op with
    | Sleep ms => if (ms =? 4000)%Z then Some KeyboardInterrupt else None
    | _ => None
    end.

Definition ctrl_c_in_pause_world : World :=
  world (fun _ => otp_page) (fun _ => "https://kite.zerodha.com/dashboard")
    interrupt_pause ∅ [] ∅.

Definition two_accounts : list (string * string * string) :=
  [("AB1234", "pw1", "SEED1"); ("CD5678", "pw2", "SEED2")].

End Examples.

(** * Properties *)

Local Open Scope list_scope.

(** ** Running programs *)

Section Exec.
Variable W : World.

Lemma exec_bind {A B} (m : Prog A) (f : A -> Prog B) (st : St) :
  exec W (bind m f) st =
  match exec W m st with
  | (Returns a, s1, e1) =>
      match exec W (f a) s1 with
      | (o, s2, e2) => (o, s2, e1 ++ e2)
      end
  | (Raises e, s1, e1) => (Raises e, s1, e1)
  | (OutOfFuel, s1, e1) => (OutOfFuel, s1, e1)
  end.
Proof.
  revert st. induction m as [a|e| |X op k IH]; intros st; cbn.
  - destruct (exec W (f a) st) as [[o s2] e2]. reflexivity.
  - reflexivity.
  - reflexivity.
  - destruct (respond W st op) as [r st1]. rewrite IH.
    destruct (exec W (k r) st1) as [[[a|e|] s1] e1]; try reflexivity.
    destruct (exec W (f a) s1) as [[o s2] e2]. reflexivity.
Qed.

Lemma exec_try_except {A} (m : Prog A) (h : exn -> option (Prog A)) (st : St) :
  exec W (try_except m h) st =
  match exec W m st with
  | (Raises e, s1, e1) =>
      match h e with
      | Some p =>
          match exec W p s1 with
          | (o, s2, e2) => (o, s2, e1 ++ e2)
          end
      | None => (Raises e, s1, e1)
      end
  | r => r
  end.
Proof.
  revert st. induction m as [a|e| |X op k IH]; intros st; cbn.
  - reflexivity.
  - destruct (h e) as [p|]; [|reflexivity].
    destruct (exec W p st) as [[o s2] e2]. reflexivity.
  - reflexivity.
  - destruct (respond W st op) as [r st1]. rewrite IH.
    destruct (exec W (k r) st1) as [[[a|e|] s1] e1]; try reflexivity.
    destruct (h e) as [p|]; [|reflexivity].
    destruct (exec W p s1) as [[o s2] e2]. reflexivity.
Qed.

Lemma exec_try_finally {A} (m : Prog A) (fin : Prog unit) (st : St) :
  exec W (try_finally m fin) st =
  match exec W m st with
  | (OutOfFuel, s1, e1) => (OutOfFuel, s1, e1)
  | (o, s1, e1) =>
      match exec W fin s1 with
      | (Returns _, s2, e2) => (o, s2, e1 ++ e2)
      | (Raises e, s2, e2) => (Raises e, s2, e1 ++ e2)
      | (OutOfFuel, s2, e2) => (OutOfFuel, s2, e1 ++ e2)
      end
  end.
Proof.
  revert st. induction m as [a|e| |X op k IH]; intros st; cbn.
  - rewrite exec_bind.
    destruct (exec W fin st) as [[[[]|e|] s2] e2]; cbn; rewrite ?app_nil_r; reflexivity.
  - rewrite exec_bind.
    destruct (exec W fin st) as [[[[]|e'|] s2] e2]; cbn; rewrite ?app_nil_r; reflexivity.
  - reflexivity.
  - destruct (respond W st op) as [r st1]. rewrite IH.
    destruct (exec W (k r) st1) as [[[a|e|] s1] e1]; try reflexivity;
      destruct (exec W fin s1) as [[[[]|e'|] s2] e2]; reflexivity.
Qed.

Lemma exec_call {X} (op : Prim X) (st : St) :
  exec W (call op) st =
  (match (respond W st op).1 with Ok x => Returns x | Exc e => Raises e end,
   (respond W st op).2, [Ev op (respond W st op).1]).
Proof.
  unfold call. cbn. destruct (respond W st op) as [[x|e] st1]; reflexivity.
Qed.

(** The clock never goes back and the step counter only grows. *)
Lemma respond_now {X} (op : Prim X) (st : St) : now st <= now (respond W st op).2.
Proof.
  assert (H : 0 <= lag W st) by (unfold lag; lia).
  destruct op; cbn; unfold inside, outside, io; cbn; try lia.
  - destruct (fault W (tick st) () (Sleep ms)) as [[]|]; cbn; lia.
  - destruct (io_fault W st (WriteBytes path data)); cbn; lia.
  - destruct (io_fault W st (Unlink path)); cbn; [lia|].
    destruct (files st !! path); cbn; lia.
Qed.

Lemma exec_now {A} (p : Prog A) (st : St) : now st <= now (exec W p st).1.2.
Proof.
  revert st. induction p as [a|e| |X op k IH]; intros st; cbn; try lia.
  pose proof (respond_now op st) as H1.
  destruct (respond W st op) as [r st1]. cbn in H1.
  specialize (IH r st1).
  destruct (exec W (k r) st1) as [[o s2] e2]. cbn in *. lia.
Qed.

End Exec.

(** ** Properties of all paths *)

Section Always.
Variable adm : answers.

Lemma always_exec (W : World) {A} (p : Prog A) Q (st : St) :
  answers_within W adm -> always adm p Q ->
  Q (exec W p st).2 (exec W p st).1.1.
Proof.
  intros HW. revert Q st. induction p as [a|e| |X op k IH]; intros Q st H; cbn in *.
  - exact H.
  - exact H.
  - exact H.
  - pose proof (HW st X op) as Hr.
    destruct (respond W st op) as [r st1]. cbn in Hr.
    specialize (IH r _ st1 (H r Hr)).
    destruct (exec W (k r) st1) as [[o s2] e2]. exact IH.
Qed.

Lemma always_mono {A} (p : Prog A) (Q Q' : list Event -> outcome A -> Prop) :
  (forall evs o, Q evs o -> Q' evs o) -> always adm p Q -> always adm p Q'.
Proof.
  revert Q Q'. induction p as [a|e| |X op k IH]; intros Q Q' HQ H; cbn in *;
    [auto|auto|auto|].
  intros r Hr. eapply IH; [|exact (H r Hr)]. cbn. auto.
Qed.

Lemma always_bind {A B} (m : Prog A) (f : A -> Prog B) Q :
  always adm m
    (fun e1 o1 =>
       match o1 with
       | Returns a => always adm (f a) (fun e2 o2 => Q (e1 ++ e2) o2)
       | Raises e => Q e1 (Raises e)
       | OutOfFuel => Q e1 OutOfFuel
       end) ->
  always adm (bind m f) Q.
Proof.
  revert Q. induction m as [a|e| |X op k IH]; intros Q H; cbn in *;
    [exact H|exact H|exact H|].
  intros r Hr. apply IH. eapply always_mono; [|exact (H r Hr)].
  intros evs [a|e|]; cbn; auto.
Qed.

Lemma always_try_except {A} (m : Prog A) (h : exn -> option (Prog A)) Q :
  always adm m
    (fun e1 o1 =>
       match o1 with
       | Raises e =>
           match h e with
           | Some p => always adm p (fun e2 o2 => Q (e1 ++ e2) o2)
           | None => Q e1 (Raises e)
           end
       | _ => Q e1 o1
       end) ->
  always adm (try_except m h) Q.
Proof.
  revert Q. induction m as [a|e| |X op k IH]; intros Q H; cbn in *;
    [exact H| |exact H|].
  - destruct (h e); exact H.
  - intros r Hr. apply IH. eapply always_mono; [|exact (H r Hr)].
    intros evs [a|e|]; cbn; auto.
Qed.

Lemma always_try_finally {A} (m : Prog A) (fin : Prog unit) Q :
  always adm m
    (fun e1 o1 =>
       match o1 with
       | OutOfFuel => Q e1 OutOfFuel
       | _ =>
           always adm fin
             (fun e2 o2 =>
                match o2 with
                | Returns _ => Q (e1 ++ e2) o1
                | Raises e => Q (e1 ++ e2) (Raises e)
                | OutOfFuel => Q (e1 ++ e2) OutOfFuel
                end)
       end) ->
  always adm (try_finally m fin) Q.
Proof.
  revert Q. induction m as [a|e| |X op k IH]; intros Q H; cbn in *;
    [| |exact H|].
  - apply always_bind. eapply always_mono; [|exact H]. intros evs [[]|e|]; cbn; auto.
    rewrite app_nil_r. auto.
  - apply always_bind. eapply always_mono; [|exact H]. intros evs [[]|e'|]; cbn; auto.
    rewrite app_nil_r. auto.
  - intros r Hr. apply IH. eapply always_mono; [|exact (H r Hr)].
    intros evs [a|e|]; cbn; auto.
Qed.

Lemma always_call {X} (op : Prim X) (Q : list Event -> outcome X -> Prop) :
  (forall r, adm X op r ->
             Q [Ev op r] (match r with Ok x => Returns x | Exc e => Raises e end)) ->
  always adm (call op) Q.
Proof.
  intros H. unfold call. cbn. intros [x|e] Hr; cbn; apply (H _ Hr).
Qed.

(** Any program satisfies a property that holds of all traces. *)
Lemma always_any {A} (p : Prog A) (Q : list Event -> outcome A -> Prop) :
  (forall evs o, Q evs o) -> always adm p Q.
Proof.
  revert Q. induction p as [a|e| |X op k IH]; intros Q H; cbn; [auto|auto|auto|].
  intros r _. apply IH. auto.
Qed.

End Always.

Lemma any_world_answers (W : World) : answers_within W any_world.
Proof.
  intros st X op. destruct op; cbn; unfold inside, outside, io, io_fault, only_Exception;
    cbn; auto.
  - destruct (fault W (tick st) () (Sleep ms)) as [[]|]; cbn; auto.
  - destruct (py_int W s); cbn; auto.
  - destruct (totp_now W secret (now st)); cbn; auto.
  - destruct (fault W (tick st) _ (ReadCsv path)) as [e|]; cbn.
    + destruct (is_Exception e) eqn:E; cbn; auto.
      destruct (files st !! path); cbn; auto.
    + destruct (files st !! path); cbn; auto.
  - destruct (fault W (tick st) _ (WriteBytes path data)) as [e|]; cbn; auto.
    destruct (is_Exception e) eqn:E; cbn; auto.
  - destruct (fault W (tick st) _ (ReadBytes path)) as [e|]; cbn.
    + destruct (is_Exception e) eqn:E; cbn; auto.
      destruct (files st !! path); cbn; auto.
    + destruct (files st !! path); cbn; auto.
  - destruct (fault W (tick st) _ (Chmod path mode)) as [e|]; cbn; auto.
    destruct (is_Exception e) eqn:E; cbn; auto.
  - destruct (fault W (tick st) _ (Unlink path)) as [e|]; cbn.
    + destruct (is_Exception e) eqn:E; cbn; auto.
      destruct (files st !! path); cbn; auto.
    + destruct (files st !! path); cbn; auto.
  - destruct (fernet_valid_key W key); cbn; auto.
  - destruct (fernet_decrypt W key data); cbn; auto.
  - destruct (fault W (tick st) _ (SmtpSend host port user password subject body to_addr)) as [e|]; cbn; auto.
    destruct (is_Exception e) eqn:E; cbn; auto.
Qed.

(** ** The token store (token_manager.py) *)

(** C10. With the symmetric key in the environment, [load_encrypted_token]
    after [save_encrypted_token] gives back the token that was saved; the
    save returns normally whatever [chmod] does. *)
Theorem save_then_load_roundtrip (W : World) (st : St)
    (client_id token key : string) :
  environ W !! "FERNET_KEY" = Some key ->
  key <> "" ->
  fernet_valid_key W key = true ->
  (forall t m, fernet_decrypt W key (fernet_encrypt W key t m) = Some m) ->
  (forall t d, fault W t _ (WriteBytes (TokenManager.token_path client_id) d) = None) ->
  (forall t, fault W t _ (ReadBytes (TokenManager.token_path client_id)) = None) ->
  exists st1 e1 st2 e2,
    exec W (TokenManager.save_encrypted_token client_id token) st
      = (Returns tt, st1, e1) /\
    exec W (TokenManager.load_encrypted_token client_id) st1
      = (Returns token, st2, e2).
Proof.
  intros Hkey Hne Hvalid Hfernet Hwrite Hread.
  assert (Htruthy : truthy (Some key) = true).
  { cbn. destruct (String.eqb_spec key ""); [contradiction|reflexivity]. }
  unfold TokenManager.save_encrypted_token, TokenManager.load_encrypted_token,
    TokenManager._get_fernet.
  cbn. rewrite Hkey, Htruthy. cbn. rewrite Hvalid. cbn.
  unfold io_fault. rewrite Hwrite. cbn.
  set (st3 := set_files _ _).
  set (enc := fernet_encrypt W key _ _).
  assert (Hfile : files st3 !! TokenManager.token_path client_id = Some enc)
    by (subst st3; cbn; apply lookup_insert_eq).
  assert (Hload : forall s,
    files s !! TokenManager.token_path client_id = Some enc ->
    exists st2 e2,
      exec W (TokenManager.load_encrypted_token client_id) s = (Returns token, st2, e2)).
  { intros s Hs.
    unfold TokenManager.load_encrypted_token, TokenManager._get_fernet.
    cbn. rewrite Hs. cbn. rewrite Hkey, Htruthy. cbn. rewrite Hvalid. cbn.
    unfold io, io_fault. rewrite Hread. cbn. rewrite Hs. cbn.
    subst enc. rewrite Hfernet. cbn.
    rewrite string_of_list_byte_of_string. eauto. }
  unfold io, io_fault.
  destruct (fault W (tick st3) () (Chmod (TokenManager.token_path client_id) 384))
    as [e|] eqn:Hch; cbn.
  - destruct (is_Exception e) eqn:He; cbn.
    + unfold on_Exception. rewrite He. cbn.
      destruct (Hload (elapse st3 (lag W st3))) as (st2 & e2 & H2); [exact Hfile|].
      eauto 10.
    + destruct (Hload (elapse st3 (lag W st3))) as (st2 & e2 & H2); [exact Hfile|].
      eauto 10.
  - destruct (Hload (elapse st3 (lag W st3))) as (st2 & e2 & H2); [exact Hfile|].
    eauto 10.
Qed.

Lemma toy_fernet_law (key : string) (t : nat) (m : list Byte.byte) :
  Examples.toy_decrypt key (Examples.toy_encrypt key t m) = Some m.
Proof. unfold Examples.toy_decrypt, Examples.toy_encrypt. f_equal. apply rev_involutive. Qed.

Lemma save_then_load_roundtrip_witness :
  exists st1 e1 st2 e2,
    exec Examples.store_world (TokenManager.save_encrypted_token "AB1234" "tok_xyz")
      Examples.start = (Returns tt, st1, e1) /\
    exec Examples.store_world (TokenManager.load_encrypted_token "AB1234") st1
      = (Returns "tok_xyz", st2, e2).
Proof.
  apply (save_then_load_roundtrip Examples.store_world Examples.start
           "AB1234" "tok_xyz" "a-key").
  - reflexivity.
  - discriminate.
  - reflexivity.
  - intros t m. apply toy_fernet_law.
  - reflexivity.
  - reflexivity.
Defined.

(** ** The account loaders *)

Lemma field_chain3 (r : gmap string string) (a b c : string) :
  match Spec.field [a; b; c] r with
  | Some x =>
      py_or (py_or (r !! a) (r !! b)) (r !! c) = Some x /\
      truthy (py_or (py_or (r !! a) (r !! b)) (r !! c)) = true
  | None => truthy (py_or (py_or (r !! a) (r !! b)) (r !! c)) = false
  end.
Proof.
  cbn. unfold py_or.
  destruct (r !! a) as [x|]; cbn.
  - destruct (String.eqb x "") eqn:Ex; cbn.
    + destruct (r !! b) as [y|]; cbn.
      * destruct (String.eqb y "") eqn:Ey; cbn; [|rewrite Ey; auto].
        destruct (r !! c) as [z|]; cbn; [|reflexivity].
        destruct (String.eqb z "") eqn:Ez; cbn; rewrite ?Ez; auto.
      * destruct (r !! c) as [z|]; cbn; [|reflexivity].
        destruct (String.eqb z "") eqn:Ez; cbn; rewrite ?Ez; auto.
    + rewrite Ex. cbn. rewrite Ex. auto.
  - destruct (r !! b) as [y|]; cbn.
    + destruct (String.eqb y "") eqn:Ey; cbn; [|rewrite Ey; auto].
      destruct (r !! c) as [z|]; cbn; [|reflexivity].
      destruct (String.eqb z "") eqn:Ez; cbn; rewrite ?Ez; auto.
    + destruct (r !! c) as [z|]; cbn; [|reflexivity].
      destruct (String.eqb z "") eqn:Ez; cbn; rewrite ?Ez; auto.
Qed.

Lemma field_single (r : gmap string string) (a : string) :
  match Spec.field [a] r with
  | Some x => r !! a = Some x /\ truthy (r !! a) = true
  | None => truthy (r !! a) = false
  end.
Proof.
  cbn. destruct (r !! a) as [x|]; cbn; [|reflexivity].
  destruct (String.eqb x "") eqn:Ex; cbn; auto.
Qed.

(** The row test of the OAuth loader is the specification's. *)
Lemma oauth_row_test (r : gmap string string) :
  let uid := py_or (py_or (r !! "user_id") (r !! "userid")) (r !! "user") in
  let pwd := r !! "password" in
  let totp := py_or (py_or (r !! "totp_secret") (r !! "totp")) (r !! "secret") in
  Spec.account_of_row r =
  if truthy uid && truthy pwd && truthy totp
  then Some (strip (default "" uid), strip (default "" pwd), strip (default "" totp))
  else None.
Proof.
  intros uid pwd totp. unfold Spec.account_of_row.
  pose proof (field_chain3 r "user_id" "userid" "user") as Hu.
  pose proof (field_single r "password") as Hp.
  pose proof (field_chain3 r "totp_secret" "totp" "secret") as Ht.
  fold uid in Hu. fold pwd in Hp. fold totp in Ht.
  unfold Spec.USER_ID_NAMES, Spec.PASSWORD_NAMES, Spec.TOTP_NAMES.
  destruct (Spec.field ["user_id"; "userid"; "user"] r) as [u|].
  - destruct Hu as [Hu1 Hu2]. rewrite Hu2, Hu1.
    destruct (Spec.field ["password"] r) as [p|].
    + destruct Hp as [Hp1 Hp2]. rewrite Hp2, Hp1.
      destruct (Spec.field ["totp_secret"; "totp"; "secret"] r) as [t|].
      * destruct Ht as [Ht1 Ht2]. rewrite Ht2, Ht1. reflexivity.
      * rewrite Ht. reflexivity.
    + rewrite Hp. reflexivity.
  - rewrite Hu. reflexivity.
Qed.

Lemma oauth_read_rows (W : World) (reader : list (gmap string string))
    (rows : list (string * string * string)) (st : St) :
  exists st' evs,
    exec W (OAuth.read_rows reader rows) st
      = (Returns (rows ++ Spec.accounts_of_rows reader), st', evs) /\
    logs evs = map Spec.skip_warning
                 (List.filter (fun r => negb (Spec.complete r)) reader).
Proof.
  revert rows st. induction reader as [|r rest IH]; intros rows st.
  - cbn. rewrite app_nil_r. eauto.
  - cbn [OAuth.read_rows].
    pose proof (oauth_row_test r) as Hr. cbn zeta in Hr.
    assert (Hcomp : Spec.complete r = bool_decide (is_Some (Spec.account_of_row r)))
      by reflexivity.
    unfold Spec.accounts_of_rows. cbn [omap list_omap List.filter].
    destruct (truthy (py_or (py_or (r !! "user_id") (r !! "userid")) (r !! "user")) &&
              truthy (r !! "password") &&
              truthy (py_or (py_or (r !! "totp_secret") (r !! "totp")) (r !! "secret")))
      eqn:Hc; rewrite Hr in *.
    + rewrite bool_decide_eq_true_2 in Hcomp by eauto. rewrite Hcomp. cbn [negb].
      destruct (IH (rows ++ [(strip (default "" (py_or (py_or (r !! "user_id") (r !! "userid")) (r !! "user"))),
                              strip (default "" (r !! "password")),
                              strip (default "" (py_or (py_or (r !! "totp_secret") (r !! "totp")) (r !! "secret"))))])
                   st) as (st' & evs & He & Hl).
      exists st', evs. rewrite He. split.
      * rewrite <- app_assoc. reflexivity.
      * exact Hl.
    + rewrite bool_decide_eq_false_2 in Hcomp by (intros [? ?]; discriminate).
      rewrite Hcomp. cbn [negb].
      unfold log_warning. rewrite exec_bind, exec_call. cbn.
      destruct (IH rows (elapse st 0)) as (st' & evs & He & Hl).
      rewrite He. eexists _, _. split; [reflexivity|].
      unfold logs in *. cbn. rewrite Hl. reflexivity.
Qed.

Lemma oauth_read_accounts (W : World) (st : St) (path : string)
    (content : list Byte.byte) :
  files st !! path = Some content ->
  (forall t, fault W t _ (ReadCsv path) = None) ->
  exists st' evs,
    exec W (OAuth.read_accounts path) st
      = (Returns (Spec.accounts_of_rows (csv_dict_reader W content)), st', evs) /\
    logs evs = map Spec.skip_warning
                 (List.filter (fun r => negb (Spec.complete r))
                    (csv_dict_reader W content)).
Proof.
  intros Hfile Hread. unfold OAuth.read_accounts.
  rewrite exec_bind, exec_call. cbn. rewrite Hfile.
  rewrite bool_decide_eq_true_2 by eauto. cbn [negb].
  cbn. unfold io_fault. rewrite Hread. cbn.
  rewrite Hfile. cbn.
  destruct (oauth_read_rows W (csv_dict_reader W content) [] (elapse (elapse st 0) (lag W (elapse st 0))))
    as (st' & evs & He & Hl).
  rewrite He. eexists _, _. split; [reflexivity|]. exact Hl.
Qed.

Lemma dashboard_read_rows_exact (W : World) (reader : list (gmap string string))
    (rows : list (string * string * string)) (st : St) :
  Forall Spec.has_exact_headers reader ->
  exec W (Dashboard.read_rows reader rows) st
    = (Returns (rows ++ map Spec.verbatim_account reader), st, []).
Proof.
  intros H. revert rows. induction H as [|r rest Hr _ IH]; intros rows.
  - cbn. rewrite app_nil_r. reflexivity.
  - destruct Hr as ([u Hu] & [p Hp] & [t Ht]).
    cbn [Dashboard.read_rows]. unfold Dashboard.getitem. rewrite Hu, Hp, Ht.
    cbn [bind]. rewrite IH.
    change (map Spec.verbatim_account (r :: rest))
      with (Spec.verbatim_account r :: map Spec.verbatim_account rest).
    assert (Hv : Spec.verbatim_account r = (u, p, t))
      by (unfold Spec.verbatim_account; rewrite Hu, Hp, Ht; reflexivity).
    rewrite Hv, <- app_assoc. reflexivity.
Qed.

Lemma dashboard_read_rows_missing (W : World) (reader : list (gmap string string))
    (rows : list (string * string * string)) (st : St) :
  Exists (fun r => ~ Spec.has_exact_headers r) reader ->
  exists k, exec W (Dashboard.read_rows reader rows) st = (Raises (KeyError k), st, []).
Proof.
  revert rows. induction reader as [|r rest IH]; intros rows H.
  - inversion H.
  - cbn [Dashboard.read_rows]. unfold Dashboard.getitem.
    destruct (r !! "user_id") as [u|] eqn:Hu; [|cbn; eauto].
    destruct (r !! "password") as [p|] eqn:Hp; [|cbn; eauto].
    destruct (r !! "totp_secret") as [t|] eqn:Ht; [|cbn; eauto].
    cbn [bind]. apply IH.
    inversion H as [? ? Hr|? ? Hrest]; subst; [|exact Hrest].
    exfalso. apply Hr. unfold Spec.has_exact_headers. rewrite Hu, Hp, Ht. eauto.
Qed.




(** ** The OTP injector *)

(** One call on a path: take its answer, split on it, and use what the
    constraint says of it. *)
Ltac answer :=
  let r := fresh "r" in
  let H := fresh "H" in
  intros r H; destruct r as [?|?]; hnf in H; cbn in H;
  try discriminate H;
  cbn; unfold on_Exception, on_any; cbn; try rewrite H; cbn.

Lemma oauth_enter_single (otp : string) (fld : handle) :
  always typing_succeeds (OAuth.enter_otp otp [fld])
    (fun evs o => o = Returns true /\ sent_keys evs = [(fld, otp)]).
Proof.
  unfold OAuth.enter_otp. cbn.
  repeat answer; auto.
Qed.

Lemma zip_nil_r {A B} (l : list A) : zip l ([] : list B) = [].
Proof. destruct l; reflexivity. Qed.

Lemma oauth_enter_split (otp : list string) (i : nat) (fields : list handle) :
  always typing_succeeds (OAuth.enter_split i otp fields)
    (fun evs o => o = Returns tt /\ sent_keys evs = zip (drop i fields) otp).
Proof.
  revert i. induction otp as [|ch rest IH]; intros i.
  - cbn. rewrite zip_nil_r. auto.
  - cbn [OAuth.enter_split]. destruct (fields !! i) as [fld|] eqn:Hi.
    + rewrite (drop_S _ _ _ Hi). cbn.
      repeat answer;
        (eapply always_mono; [|apply (IH (S i))]);
        intros evs o [-> Hs]; (split; [reflexivity|]);
        unfold sent_keys in *; cbn; rewrite Hs; reflexivity.
    + rewrite drop_ge by (apply lookup_ge_None; exact Hi). cbn. auto.
Qed.

Lemma dashboard_enter_split (otp : list string) (i : nat) (fields : list handle) :
  always page_steady (Dashboard.enter_split i otp fields)
    (fun evs o => o = Returns tt /\ sent_keys evs = zip (drop i fields) otp).
Proof.
  revert i. induction otp as [|ch rest IH]; intros i.
  - cbn. rewrite zip_nil_r. auto.
  - cbn [Dashboard.enter_split]. destruct (fields !! i) as [fld|] eqn:Hi.
    + rewrite (drop_S _ _ _ Hi). cbn.
      repeat answer;
        (eapply always_mono; [|apply (IH (S i))]);
        intros evs o [-> Hs]; (split; [reflexivity|]);
        unfold sent_keys in *; cbn; rewrite Hs; reflexivity.
    + rewrite drop_ge by (apply lookup_ge_None; exact Hi). cbn. auto.
Qed.

Lemma oauth_enter_otp (otp : string) (fields : list handle) :
  fields <> [] ->
  always typing_succeeds (OAuth.enter_otp otp fields)
    (fun evs o => o = Returns true /\ sent_keys evs = Spec.expected_keys otp fields).
Proof.
  intros Hne. destruct fields as [|f1 [|f2 fs]]; [contradiction| |].
  - apply oauth_enter_single.
  - unfold OAuth.enter_otp, Spec.expected_keys.
    apply always_try_except, always_bind.
    eapply always_mono; [|apply oauth_enter_split].
    intros evs o [-> Hs]. cbn. rewrite app_nil_r. auto.
Qed.

Lemma dashboard_enter_otp (otp : string) (fields : list handle) :
  fields <> [] ->
  always page_steady (Dashboard.enter_otp_into_fields otp fields)
    (fun evs o => o = Returns true /\ sent_keys evs = Spec.expected_keys otp fields).
Proof.
  intros Hne. destruct fields as [|f1 [|f2 fs]]; [contradiction| |].
  - unfold Dashboard.enter_otp_into_fields. cbn. repeat answer; auto.
  - unfold Dashboard.enter_otp_into_fields, Spec.expected_keys.
    apply always_try_except, always_bind.
    eapply always_mono; [|apply dashboard_enter_split].
    intros evs o [-> Hs]. cbn. rewrite app_nil_r. auto.
Qed.

(** In a world without interruptions a failed call fails with an
    [Exception]. *)
Lemma respond_Exception (W : World) (st : St) {X} (op : Prim X) :
  uninterrupted W -> only_Exception (respond W st op).1.
Proof.
  intros HW.
  assert (Hf : forall Y (o : Prim Y) e, fault W (tick st) Y o = Some e ->
                                        is_Exception e = true).
  { intros Y o e He. destruct e; try reflexivity. exfalso. exact (HW _ _ _ He). }
  destruct op; cbn; unfold inside, outside, io, io_fault, only_Exception; cbn; auto;
    try (match goal with
         | |- context [fault W (tick st) ?Y ?o] =>
             destruct (fault W (tick st) Y o) as [e|] eqn:He;
             [pose proof (Hf _ _ _ He) as Hx; try rewrite Hx; cbn; auto|]
         end);
    cbn; auto.
  all: repeat match goal with
       | |- context [match ?x with _ => _ end] => destruct x eqn:?; cbn; auto
       end.
  all: try discriminate.
  all: try (destruct e; cbn in *; congruence).
  all: try congruence.
  all: unfold of_option in *;
    repeat match goal with
           | H : context [match ?x with _ => _ end] |- _ =>
               destruct x eqn:?; cbn in *
           end;
    try congruence.
  all: match goal with H : Exc _ = Exc _ |- _ => inversion H; subst; reflexivity end.
Qed.

Lemma typing_world_answers (W : World) :
  uninterrupted W ->
  (forall t h s, fault W t _ (SendKeys h s) = None) ->
  answers_within W typing_succeeds.
Proof.
  intros HW Hs st X op. pose proof (respond_Exception W st op HW) as H.
  destruct op; try exact H; cbn.
  - destruct (fault W (tick st) () (Sleep ms)) as [e|] eqn:He; [|reflexivity].
    destruct e; try reflexivity. exfalso. exact (HW _ _ _ He).
  - unfold outside. rewrite Hs. reflexivity.
Qed.

Lemma steady_world_answers (W : World) :
  uninterrupted W ->
  (forall t h s, fault W t _ (SendKeys h s) = None) ->
  (forall t h, fault W t _ (Clear h) = None) ->
  (forall t js args, fault W t _ (ExecuteScript js args) = None) ->
  answers_within W page_steady.
Proof.
  intros HW Hs Hc He st X op. pose proof (respond_Exception W st op HW) as H.
  destruct op; try exact H; cbn.
  - destruct (fault W (tick st) () (Sleep ms)) as [e|] eqn:Hf; [|reflexivity].
    destruct e; try reflexivity. exfalso. exact (HW _ _ _ Hf).
  - unfold outside. rewrite Hc. reflexivity.
  - unfold outside. rewrite Hs. reflexivity.
  - unfold outside. rewrite He. reflexivity.
Qed.

Lemma chars_length (s : string) : length (chars s) = String.length s.
Proof. induction s as [|c s IH]; cbn; [reflexivity|]. rewrite IH. reflexivity. Qed.

(** C2. Given a non-empty list of fields, the injector of either script
    reports success and the fields receive: the whole passcode when there is
    one field; otherwise one character each, the i-th field the i-th
    character, for the first [min L M] fields and no other. (The browser is
    assumed to accept the keystrokes; the dashboard script also needs its
    unguarded [clear] and [execute_script] calls to go through.) *)
Theorem injector_fills_fields (W : World) (st : St) (otp : string)
    (fields : list handle) :
  fields <> [] ->
  uninterrupted W ->
  (forall t h s, fault W t _ (SendKeys h s) = None) ->
  ((exec W (OAuth.enter_otp otp fields) st).1.1 = Returns true /\
   sent_keys (exec W (OAuth.enter_otp otp fields) st).2
     = Spec.expected_keys otp fields) /\
  ((forall t h, fault W t _ (Clear h) = None) ->
   (forall t js args, fault W t _ (ExecuteScript js args) = None) ->
   (exec W (Dashboard.enter_otp_into_fields otp fields) st).1.1 = Returns true /\
   sent_keys (exec W (Dashboard.enter_otp_into_fields otp fields) st).2
     = Spec.expected_keys otp fields) /\
  (forall f, fields = [f] -> Spec.expected_keys otp fields = [(f, otp)]) /\
  ((1 < length fields)%nat ->
   length (Spec.expected_keys otp fields)
     = Nat.min (String.length otp) (length fields) /\
   forall i f c, fields !! i = Some f -> chars otp !! i = Some c ->
                 Spec.expected_keys otp fields !! i = Some (f, c)).
Proof.
  intros Hne HW Hs. split; [|split; [|split]].
  - apply (always_exec typing_succeeds W (OAuth.enter_otp otp fields)
             (fun evs o => o = Returns true /\
                           sent_keys evs = Spec.expected_keys otp fields) st).
    + apply typing_world_answers; assumption.
    + apply oauth_enter_otp; assumption.
  - intros Hc He.
    apply (always_exec page_steady W (Dashboard.enter_otp_into_fields otp fields)
             (fun evs o => o = Returns true /\
                           sent_keys evs = Spec.expected_keys otp fields) st).
    + apply steady_world_answers; assumption.
    + apply dashboard_enter_otp; assumption.
  - intros f ->. reflexivity.
  - intros Hlen. destruct fields as [|f1 [|f2 fs]]; cbn in Hlen; try lia.
    unfold Spec.expected_keys. split.
    + pose proof (length_zip_with (@pair handle string) (f1 :: f2 :: fs) (chars otp)) as HL.
      rewrite chars_length in HL. unfold handle in *. lia.
    + intros i f c Hf Hc. rewrite lookup_zip_with, Hf, Hc. reflexivity.
Qed.

Lemma injector_fills_fields_witness :
  ((exec Examples.typing_world (OAuth.enter_otp "654321" [10; 11; 12; 13]%nat)
      Examples.start).1.1 = Returns true /\
   sent_keys (exec Examples.typing_world (OAuth.enter_otp "654321" [10; 11; 12; 13]%nat)
                Examples.start).2
     = [(10, "6"); (11, "5"); (12, "4"); (13, "3")]%nat) /\
  length (Spec.expected_keys "654321" [10; 11; 12; 13]%nat) = 4%nat.
Proof.
  assert (Hne : [10; 11; 12; 13]%nat <> ([] : list handle)) by discriminate.
  assert (HW : uninterrupted Examples.typing_world).
  { intros t X op. destruct op; discriminate. }
  pose proof (injector_fills_fields Examples.typing_world Examples.start "654321"
                [10; 11; 12; 13]%nat Hne HW (fun _ _ _ => eq_refl))
    as (HA & _ & _ & HL).
  split; [exact HA|].
  apply HL. cbn. lia.
Defined.

(** ** The OTP field locator *)

Lemma every_answers (W : World) : answers_within W every.
Proof. intros st X op. exact I. Qed.

(** One call on a path under [every]: also split on whether a handler
    takes the exception. *)
Ltac any_answer :=
  let r := fresh "r" in
  intros r _; destruct r as [?|?];
  cbn; unfold on_Exception, on_any; cbn;
  try match goal with
      | |- context [is_Exception ?e] => destruct (is_Exception e); cbn
      end.

Lemma is_checked_app_l (h : handle) (e1 e2 : list Event) :
  is_checked h e1 -> is_checked h (e1 ++ e2).
Proof.
  unfold is_checked, checked. rewrite !existsb_app, !andb_true_iff, !orb_true_iff. tauto.
Qed.

Lemma is_checked_app_r (h : handle) (e1 e2 : list Event) :
  is_checked h e2 -> is_checked h (e1 ++ e2).
Proof.
  unfold is_checked, checked. rewrite !existsb_app, !andb_true_iff, !orb_true_iff. tauto.
Qed.

Lemma is_shown_app_l (h : handle) (e1 e2 : list Event) :
  is_shown h e1 -> is_shown h (e1 ++ e2).
Proof. unfold is_shown. rewrite !existsb_app, !orb_true_iff. tauto. Qed.

Lemma is_shown_app_r (h : handle) (e1 e2 : list Event) :
  is_shown h e2 -> is_shown h (e1 ++ e2).
Proof. unfold is_shown. rewrite !existsb_app, !orb_true_iff. tauto. Qed.

Lemma is_seen_app_l (h : handle) (e1 e2 : list Event) :
  is_seen h e1 -> is_seen h (e1 ++ e2).
Proof. unfold is_seen. rewrite !existsb_app, !orb_true_iff. tauto. Qed.

Lemma is_seen_app_r (h : handle) (e1 e2 : list Event) :
  is_seen h e2 -> is_seen h (e1 ++ e2).
Proof. unfold is_seen. rewrite !existsb_app, !orb_true_iff. tauto. Qed.

Lemma is_checked_shown (h : handle) (evs : list Event) :
  is_checked h evs -> is_shown h evs.
Proof. unfold is_checked, is_shown, checked. rewrite andb_true_iff. tauto. Qed.

Lemma is_shown_seen (h : handle) (evs : list Event) : is_shown h evs -> is_seen h evs.
Proof. unfold is_seen, is_shown. tauto. Qed.

(** Locators compose: what holds of the handles of each strategy holds of
    the handles of the search. *)
Section Locators.
Variable P : handle -> list Event -> Prop.
Hypothesis P_app_l : forall h e1 e2, P h e1 -> P h (e1 ++ e2).
Hypothesis P_app_r : forall h e1 e2, P h e2 -> P h (e1 ++ e2).

Lemma all_of_later {A} (p : Prog A) (Q : list Event -> outcome A -> Prop)
    (pre : list Event) :
  (forall evs o, Q evs o -> Q (pre ++ evs) o) ->
  always every p Q -> always every p (fun evs o => Q (pre ++ evs) o).
Proof. intros HQ. apply always_mono. exact HQ. Qed.

Lemma all_of_app_r (pre evs : list Event) (o : outcome (list handle)) :
  all_of P evs o -> all_of P (pre ++ evs) o.
Proof.
  intros H l Hl. eapply Forall_impl; [exact (H l Hl)|]. intros h. apply P_app_r.
Qed.

Lemma some_of_app_r (pre evs : list Event) (o : outcome (option (list handle))) :
  some_of P evs o -> some_of P (pre ++ evs) o.
Proof.
  intros H l Hl. eapply Forall_impl; [exact (H l Hl)|]. intros h. apply P_app_r.
Qed.

Lemma all_of_or_else (p : Prog (option (list handle))) (k : Prog (list handle)) :
  always every p (some_of P) -> always every k (all_of P) ->
  always every (or_else p k) (all_of P).
Proof.
  intros Hp Hk. unfold or_else. apply always_bind.
  eapply always_mono; [|exact Hp].
  intros evs [[l|]|e|] H; cbn.
  - intros res [= <-]. rewrite app_nil_r. apply H. reflexivity.
  - eapply always_mono; [|exact Hk]. intros e2 o2. apply all_of_app_r.
  - intros res [=].
  - intros res [=].
Qed.

Lemma some_of_or_else (p k : Prog (option (list handle))) :
  always every p (some_of P) -> always every k (some_of P) ->
  always every (r ← p; match r with Some el => Ret (Some el) | None => k end)
    (some_of P).
Proof.
  intros Hp Hk. apply always_bind.
  eapply always_mono; [|exact Hp].
  intros evs [[l|]|e|] H; cbn.
  - intros res [= <-]. rewrite app_nil_r. apply H. reflexivity.
  - eapply always_mono; [|exact Hk]. intros e2 o2. apply some_of_app_r.
  - intros res [=].
  - intros res [=].
Qed.

End Locators.

Lemma displayed_and_enabled_checked (cand : list handle) :
  always every (displayed_and_enabled cand) (all_of is_checked).
Proof.
  induction cand as [|e rest IH].
  - cbn. intros res [= <-]. constructor.
  - cbn [displayed_and_enabled]. apply always_bind, always_call.
    intros [d|x] _; [|intros res [=]]. destruct d.
    + apply always_bind, always_call. intros [k|x] _; [|intros res [=]].
      cbn. apply always_bind. eapply always_mono; [|exact IH].
      intros evs [tl|x|] Htl; [|intros res [=]|intros res [=]].
      cbn. intros res [= <-]. rewrite app_nil_r.
      assert (Hrest : Forall (fun h => is_checked h
                (Ev (IsDisplayed e) (Ok true) :: Ev (IsEnabled e) (Ok k) :: evs)) tl).
      { eapply Forall_impl; [exact (Htl tl eq_refl)|].
        intros h Hh. apply (is_checked_app_r h [_; _] evs). exact Hh. }
      destruct k; [|exact Hrest]. constructor; [|exact Hrest].
      unfold is_checked, checked. cbn. rewrite Nat.eqb_refl. reflexivity.
    + cbn. apply always_bind. eapply always_mono; [|exact IH].
      intros evs [tl|x|] Htl; [|intros res [=]|intros res [=]].
      cbn. intros res [= <-]. rewrite app_nil_r.
      eapply Forall_impl; [exact (Htl tl eq_refl)|].
      intros h Hh. apply (is_checked_app_r h [_] evs). exact Hh.
Qed.

Lemma displayed_only_shown (cand : list handle) :
  always every (displayed_only cand) (all_of is_shown).
Proof.
  induction cand as [|e rest IH].
  - cbn. intros res [= <-]. constructor.
  - cbn [displayed_only]. apply always_bind, always_call.
    intros [d|x] _; [|intros res [=]].
    cbn. apply always_bind. eapply always_mono; [|exact IH].
    intros evs [tl|x|] Htl; [|intros res [=]|intros res [=]].
    cbn. intros res [= <-]. rewrite app_nil_r.
    assert (Hrest : Forall (fun h => is_shown h (Ev (IsDisplayed e) (Ok d) :: evs)) tl).
    { eapply Forall_impl; [exact (Htl tl eq_refl)|].
      intros h Hh. apply (is_shown_app_r h [_] evs). exact Hh. }
    destruct d; [|exact Hrest]. constructor; [|exact Hrest].
    unfold is_shown. cbn. rewrite Nat.eqb_refl. reflexivity.
Qed.

Ltac no_result := let res := fresh "res" in intros res [=].

(** A path that ends without a list of handles. *)
Ltac fruitless :=
  cbn; unfold on_Exception, on_any; cbn;
  try match goal with
      | |- context [is_Exception ?e] => destruct (is_Exception e); cbn
      end;
  no_result.

Lemma oauth_probe_id (loc : By) :
  always every (OAuth.probe_id loc) (some_of is_checked).
Proof.
  unfold OAuth.probe_id. cbn.
  intros [[|el els]|e] _; [fruitless| |fruitless]. cbn.
  intros [[|]|e] _; [|fruitless|fruitless]. cbn.
  intros [[|]|e] _; [|fruitless|fruitless]. cbn.
  intros res [= <-]. constructor; [|constructor].
  unfold is_checked, checked. cbn. rewrite Nat.eqb_refl. reflexivity.
Qed.

(** A strategy that filters its candidates and returns the filtered list
    or nothing. *)
Lemma filtered_probe (loc : By) (pick : list handle -> option (list handle))
    (h : exn -> option (Prog (option (list handle)))) :
  (forall c l, pick c = Some l -> l = c) ->
  (forall e, h e = None \/ h e = Some (Ret None)) ->
  always every
    (try_except
       (cand ← call (FindElements loc);
        cand ← displayed_and_enabled cand;
        Ret (pick cand))
       h)
    (some_of is_checked).
Proof.
  intros Hpick Hh. apply always_try_except, always_bind, always_call.
  intros [cand|e] _.
  - apply always_bind. eapply always_mono; [|apply displayed_and_enabled_checked].
    intros evs [l|e|] H; cbn.
    + intros res Hres. injection Hres as Hres. apply Hpick in Hres. subst res.
      rewrite app_nil_r.
      eapply Forall_impl; [exact (H l eq_refl)|].
      intros x Hx. apply (is_checked_app_r x [_] evs). exact Hx.
    + destruct (Hh e) as [-> | ->]; cbn; no_result.
    + no_result.
  - destruct (Hh e) as [-> | ->]; cbn; no_result.
Qed.

Lemma handler_Exception_None {A} (e : exn) :
  on_Exception (fun _ => Ret (None : option A)) e = None \/
  on_Exception (fun _ => Ret (None : option A)) e = Some (Ret None).
Proof. unfold on_Exception. destruct (is_Exception e); auto. Qed.

Lemma handler_any_None {A} (e : exn) :
  on_any (Ret (None : option A)) e = None \/
  on_any (Ret (None : option A)) e = Some (Ret None).
Proof. unfold on_any. auto. Qed.

Lemma oauth_probe_split : always every OAuth.probe_split (some_of is_checked).
Proof.
  apply (filtered_probe OAuth.XP_SPLIT_BOXES
           (fun cand => if (2 <=? length cand)%nat then Some cand else None)).
  - intros c l. destruct (2 <=? length c)%nat; congruence.
  - apply handler_Exception_None.
Qed.

Lemma oauth_probe_fallback : always every OAuth.probe_fallback (some_of is_checked).
Proof.
  apply (filtered_probe OAuth.XP_NUMERIC_OR_PASSWORD
           (fun cand => match cand with [] => None | _ => Some cand end)).
  - intros [|c cs] l; congruence.
  - apply handler_Exception_None.
Qed.

Lemma oauth_find_otp_loop (fuel : nat) (end_ : Z) :
  always every (OAuth.find_otp_loop fuel end_) (all_of is_checked).
Proof.
  induction fuel as [|fuel IH]; [cbn; no_result|].
  cbn [OAuth.find_otp_loop]. apply always_bind, always_call.
  intros [t|e] _; [|no_result].
  destruct (t <? end_)%Z; [|cbn; intros res [= <-]; constructor].
  apply all_of_later; [intros evs o; apply all_of_app_r, is_checked_app_r|].
  repeat (apply all_of_or_else;
          [apply is_checked_app_r
          |first [apply oauth_probe_id|apply oauth_probe_split|apply oauth_probe_fallback]
          |]).
  apply always_bind, always_call. intros [[]|e] _; [|no_result].
  eapply always_mono; [|exact IH].
  intros evs o. apply (all_of_app_r is_checked is_checked_app_r [_]).
Qed.

Lemma oauth_find_otp_fields (timeout : Z) :
  always every (OAuth.find_otp_fields timeout) (all_of is_checked).
Proof.
  unfold OAuth.find_otp_fields. apply always_bind, always_call.
  intros [t|e] _; [|no_result].
  eapply always_mono; [|apply oauth_find_otp_loop].
  intros evs o. apply (all_of_app_r is_checked is_checked_app_r [_]).
Qed.

Lemma filtered_plain (loc : By) (pick : list handle -> option (list handle)) :
  (forall c l, pick c = Some l -> l = c) ->
  always every
    (cand ← call (FindElements loc);
     cand ← displayed_and_enabled cand;
     Ret (pick cand))
    (some_of is_checked).
Proof.
  intros Hpick. apply always_bind, always_call.
  intros [cand|e] _; [|no_result].
  apply always_bind. eapply always_mono; [|apply displayed_and_enabled_checked].
  intros evs [l|e|] H; cbn; [|no_result|no_result].
  intros res Hres. injection Hres as Hres. apply Hpick in Hres. subst res.
  rewrite app_nil_r.
  eapply Forall_impl; [exact (H l eq_refl)|].
  intros x Hx. apply (is_checked_app_r x [_] evs). exact Hx.
Qed.

Lemma dashboard_probe_split : always every Dashboard.probe_split (some_of is_checked).
Proof.
  apply (filtered_plain Dashboard.XP_SPLIT_BOXES
           (fun els => if (2 <=? length els)%nat then Some els else None)).
  intros c l. destruct (2 <=? length c)%nat; congruence.
Qed.

Lemma dashboard_probe_numeric : always every Dashboard.probe_numeric (some_of is_checked).
Proof.
  apply (filtered_plain Dashboard.XP_NUMERIC
           (fun els => if (2 <=? length els)%nat then Some els
                       else if (length els =? 1)%nat then Some els else None)).
  intros c l. destruct (2 <=? length c)%nat; [congruence|].
  destruct (length c =? 1)%nat; congruence.
Qed.

Lemma dashboard_probe_password : always every Dashboard.probe_password (some_of is_shown).
Proof.
  unfold Dashboard.probe_password. apply always_bind, always_call.
  intros [cand|e] _; [|no_result].
  apply always_bind. eapply always_mono; [|apply displayed_only_shown].
  intros evs [l|e|] H; [|no_result|no_result].
  destruct l as [|x0 l0]; [no_result|].
  intros res Hres. cbn in Hres. injection Hres as Hres. subst res. rewrite app_nil_r.
  eapply Forall_impl; [exact (H _ eq_refl)|].
  intros x Hx. apply (is_shown_app_r x [_] evs). exact Hx.
Qed.

Lemma dashboard_probe_by_id (v : string) :
  always every (Dashboard.probe_by_id (ById v)) (some_of is_seen).
Proof.
  unfold Dashboard.probe_by_id. apply always_bind, always_call.
  intros [[|el els]|e] _; cbn; [no_result| |no_result].
  intros res Hres. injection Hres as Hres. subst res.
  apply Forall_forall. intros h Hh.
  right. cbn. rewrite orb_false_r.
  change (existsb (Nat.eqb h) (el :: els) = true).
  apply existsb_exists. exists h.
  split; [apply list_elem_of_In; exact Hh|apply Nat.eqb_refl].
Qed.

Lemma some_of_weaken (P P' : handle -> list Event -> Prop)
    (p : Prog (option (list handle))) :
  (forall h evs, P h evs -> P' h evs) ->
  always every p (some_of P) -> always every p (some_of P').
Proof.
  intros HP. apply always_mono. intros evs o H l Hl.
  eapply Forall_impl; [exact (H l Hl)|]. intros h. apply HP.
Qed.

Lemma dashboard_probe_all : always every Dashboard.probe_all (some_of is_seen).
Proof.
  unfold Dashboard.probe_all. apply always_try_except.
  eapply always_mono.
  2:{ apply (some_of_or_else is_seen is_seen_app_r); [apply dashboard_probe_by_id|].
      apply (some_of_or_else is_seen is_seen_app_r); [apply dashboard_probe_by_id|].
      apply (some_of_or_else is_seen is_seen_app_r).
      { eapply some_of_weaken; [|apply dashboard_probe_split].
        intros h evs Hh. apply is_shown_seen, is_checked_shown, Hh. }
      apply (some_of_or_else is_seen is_seen_app_r).
      { eapply some_of_weaken; [|apply dashboard_probe_numeric].
        intros h evs Hh. apply is_shown_seen, is_checked_shown, Hh. }
      eapply some_of_weaken; [|apply dashboard_probe_password].
      intros h evs Hh. apply is_shown_seen, Hh. }
  intros evs [r|e|] H; cbn; [exact H| |exact H]. no_result.
Qed.

Lemma dashboard_find_otp_loop (fuel : nat) (end_ : Z) :
  always every (Dashboard.find_otp_loop fuel end_) (all_of is_seen).
Proof.
  induction fuel as [|fuel IH]; [cbn; no_result|].
  cbn [Dashboard.find_otp_loop]. apply always_bind, always_call.
  intros [t|e] _; [|no_result].
  destruct (t <? end_)%Z; [|cbn; intros res [= <-]; constructor].
  apply all_of_later; [intros evs o; apply all_of_app_r, is_seen_app_r|].
  apply all_of_or_else; [apply is_seen_app_r|apply dashboard_probe_all|].
  apply always_bind, always_call. intros [[]|e] _; [|no_result].
  eapply always_mono; [|exact IH].
  intros evs o. apply (all_of_app_r is_seen is_seen_app_r [_]).
Qed.

Lemma dashboard_find_otp_fields (timeout : Z) :
  always every (Dashboard.find_otp_fields timeout) (all_of is_seen).
Proof.
  unfold Dashboard.find_otp_fields. apply always_bind, always_call.
  intros [t|e] _; [|no_result].
  eapply always_mono; [|apply dashboard_find_otp_loop].
  intros evs o. apply (all_of_app_r is_seen is_seen_app_r [_]).
Qed.

(** C4, as the code has it. Every handle the locator of the OAuth script
    returns was answered displayed and enabled by the driver during the
    search. In the dashboard script that holds of the split-box and the
    numeric strategy; its password strategy returns handles answered
    displayed, and its two id strategies return what the lookup lists, so a
    handle the locator returns was answered displayed or was listed by a
    lookup by id. *)
Theorem locator_results (W : World) (st : St) (timeout : Z) :
  all_of is_checked (exec W (OAuth.find_otp_fields timeout) st).2
    (exec W (OAuth.find_otp_fields timeout) st).1.1 /\
  some_of is_checked (exec W Dashboard.probe_split st).2
    (exec W Dashboard.probe_split st).1.1 /\
  some_of is_checked (exec W Dashboard.probe_numeric st).2
    (exec W Dashboard.probe_numeric st).1.1 /\
  some_of is_shown (exec W Dashboard.probe_password st).2
    (exec W Dashboard.probe_password st).1.1 /\
  all_of is_seen (exec W (Dashboard.find_otp_fields timeout) st).2
    (exec W (Dashboard.find_otp_fields timeout) st).1.1.
Proof.
  repeat split.
  - apply (always_exec every W _ _ st (every_answers W) (oauth_find_otp_fields timeout)).
  - apply (always_exec every W _ _ st (every_answers W) dashboard_probe_split).
  - apply (always_exec every W _ _ st (every_answers W) dashboard_probe_numeric).
  - apply (always_exec every W _ _ st (every_answers W) dashboard_probe_password).
  - apply (always_exec every W _ _ st (every_answers W) (dashboard_find_otp_fields timeout)).
Qed.

(** C4 fails on the dashboard script: a hidden, disabled field with id
    [totp] is returned unchecked, and so is a displayed but disabled
    password input. *)
Lemma dashboard_locator_counterexample :
  ((exec Examples.hidden_totp_world (Dashboard.find_otp_fields 15000)
      Examples.start).1.1 = Returns [7%nat] /\
   lookup_element 7%nat (page Examples.hidden_totp_world 2%nat)
     = Some Examples.hidden_totp /\
   el_displayed Examples.hidden_totp = false) /\
  ((exec Examples.disabled_password_world (Dashboard.find_otp_fields 15000)
      Examples.start).1.1 = Returns [8%nat] /\
   lookup_element 8%nat (page Examples.disabled_password_world 2%nat)
     = Some Examples.disabled_password /\
   el_enabled Examples.disabled_password = false).
Proof. repeat split; vm_compute; reflexivity. Qed.

Example oauth_locator_split_boxes :
  (exec Examples.split_boxes_world (OAuth.find_otp_fields 12000) Examples.start).1.1
    = Returns [21; 22; 23; 24]%nat.
Proof. vm_compute. reflexivity. Qed.

(** ** The redirect token poller *)

(** C3 fails on both scripts. When every read of the current URL fails, the
    reads inside the loop are swallowed, the loop runs to its timeout, and
    the read in the final [return None, None, driver.current_url] raises. *)
Theorem poller_raises_when_url_unreadable :
  (exec Examples.url_unreadable_world (OAuth.wait_for_request_token 25000)
     Examples.start).1.1 = Raises WebDriverException /\
  (exec Examples.url_unreadable_world (Dashboard.wait_for_request_token 30000)
     Examples.start).1.1 = Raises WebDriverException /\
  length (List.filter is_sleep
            (exec Examples.url_unreadable_world (OAuth.wait_for_request_token 25000)
               Examples.start).2) = 50%nat.
Proof. repeat split; vm_compute; reflexivity. Qed.

(** ** The batch runner *)

(** C7 fails on the dashboard script. With two accounts and a browser that
    cannot be started, its [main] raises at the first account and the second
    is never attempted; the OAuth script logs the failure and goes on to the
    second account. *)
Theorem dashboard_batch_aborts :
  (exec Examples.no_browser_world (Dashboard.main Examples.config)
     Examples.start_with_csv).1.1 = Raises WebDriverException /\
  logs (exec Examples.no_browser_world (Dashboard.main Examples.config)
          Examples.start_with_csv).2
    = [(INFO, "Loaded 2 accounts"); (INFO, "Starting login for AB1234")] /\
  (exec Examples.no_browser_world (OAuth.main Examples.config)
     Examples.start_with_csv).1.1 = Returns tt /\
  logs (exec Examples.no_browser_world (OAuth.main Examples.config)
          Examples.start_with_csv).2
    = [(INFO, "Loaded 2 accounts");
       (INFO, "=== Login start: AB1234 ===");
       (INFO, "Login URL: https://kite.zerodha.com/connect/login?v=3&api_key=key");
       (ERROR, "WebDriver exception for AB1234: WebDriverException");
       (INFO, "Result for AB1234: False");
       (INFO, "=== Login start: CD5678 ===");
       (INFO, "Login URL: https://kite.zerodha.com/connect/login?v=3&api_key=key");
       (ERROR, "WebDriver exception for CD5678: WebDriverException");
       (INFO, "Result for CD5678: False")].
Proof. repeat split; vm_compute; reflexivity. Qed.

(** ** The login flow when no OTP field is found *)

Section Frames.
Variable W : World.

Lemma exec_bind_ret {A B} (m : Prog A) (f : A -> Prog B) st a s1 e1 :
  exec W m st = (Returns a, s1, e1) ->
  exec W (bind m f) st = prepend e1 (exec W (f a) s1).
Proof.
  intros H. rewrite exec_bind, H. unfold prepend.
  destruct (exec W (f a) s1) as [[o s2] e2]. reflexivity.
Qed.

Lemma exec_bind_prepend {A B} (x y : Prog A) (f : A -> Prog B) st s1 e1 :
  exec W x st = prepend e1 (exec W y s1) ->
  exec W (bind x f) st = prepend e1 (exec W (bind y f) s1).
Proof.
  intros H. rewrite !exec_bind, H. unfold prepend.
  destruct (exec W y s1) as [[[a|e|] s2] e2]; cbn; try reflexivity.
  destruct (exec W (f a) s2) as [[o s3] e3]. cbn. rewrite app_assoc. reflexivity.
Qed.

Lemma exec_try_except_prepend {A} (x y : Prog A) h st s1 e1 :
  exec W x st = prepend e1 (exec W y s1) ->
  exec W (try_except x h) st = prepend e1 (exec W (try_except y h) s1).
Proof.
  intros H. rewrite !exec_try_except, H. unfold prepend.
  destruct (exec W y s1) as [[[a|e|] s2] e2]; cbn; try reflexivity.
  destruct (h e) as [p|]; [|reflexivity].
  destruct (exec W p s2) as [[o s3] e3]. cbn. rewrite app_assoc. reflexivity.
Qed.

Lemma exec_try_finally_prepend {A} (x y : Prog A) fin st s1 e1 :
  exec W x st = prepend e1 (exec W y s1) ->
  exec W (try_finally x fin) st = prepend e1 (exec W (try_finally y fin) s1).
Proof.
  intros H. rewrite !exec_try_finally, H. unfold prepend.
  destruct (exec W y s1) as [[[a|e|] s2] e2]; cbn; try reflexivity;
    destruct (exec W fin s2) as [[[[]|e'|] s3] e3]; cbn; rewrite app_assoc; reflexivity.
Qed.

Lemma exec_try_or_return_ret {A R} (m : Prog A) h (k : A -> Prog R) st a s1 e1 :
  exec W m st = (Returns a, s1, e1) ->
  exec W (try_or_return m h k) st = prepend e1 (exec W (k a) s1).
Proof.
  intros H. unfold try_or_return.
  rewrite exec_bind, exec_try_except, exec_bind, H. cbn.
  unfold prepend. destruct (exec W (k a) s1) as [[o s2] e2]. cbn.
  rewrite app_nil_r. reflexivity.
Qed.

Lemma prepend_prepend {A} (e1 e2 : list Event) (r : outcome A * St * list Event) :
  prepend e1 (prepend e2 r) = prepend (e1 ++ e2) r.
Proof. unfold prepend. cbn. rewrite app_assoc. reflexivity. Qed.

End Frames.

Lemma calm_answers (W : World) : uninterrupted W -> answers_within W calm.
Proof.
  intros HW st X op. split.
  - apply any_world_answers.
  - apply respond_Exception. exact HW.
Qed.

Lemma logs_app (e1 e2 : list Event) : logs (e1 ++ e2) = logs e1 ++ logs e2.
Proof. apply omap_app. Qed.

Lemma shots_app (e1 e2 : list Event) : shots (e1 ++ e2) = shots e1 ++ shots e2.
Proof. apply omap_app. Qed.

(** One call on a path under [calm]. *)
Ltac calm_answer :=
  let r := fresh "r" in
  let H1 := fresh "H" in
  let H2 := fresh "H" in
  intros r [H1 H2]; destruct r as [?|?]; cbn in H1, H2;
  try discriminate H1; try (subst; discriminate H2);
  cbn; unfold on_Exception, on_any, OAuth.on_failure; cbn; try rewrite H2; cbn.

(** A branch of the program on a value the path has fixed. *)
Ltac split_on x :=
  lazymatch x with
  | context [match ?y with _ => _ end] => split_on y
  | _ => destruct x eqn:?; cbn
  end.

Ltac branch :=
  match goal with
  | |- always _ ?p _ =>
      match p with
      | context [match ?x with _ => _ end] => split_on x
      end
  end.

Ltac explore := repeat (first [calm_answer | branch]).

Ltac units := repeat match goal with x : unit |- _ => destruct x end.

(** [send_email] returns or raises an [Exception]; it neither logs nor
    takes screenshots. *)
Lemma send_email_calm (subject body : string) :
  always calm (send_email subject body)
    (fun evs o => (o = Returns tt \/ exists e, o = Raises e /\ is_Exception e = true) /\
                  logs evs = [] /\ shots evs = []).
Proof.
  unfold send_email. cbn. explore; units; cbn; eauto 6.
Qed.

Lemma oauth_screenshot_calm (name_prefix : string) :
  always calm (OAuth.screenshot name_prefix)
    (fun evs o => exists t ok,
       o = Returns (screenshot_path name_prefix t) /\
       shots evs = [(screenshot_path name_prefix t, ok)]).
Proof.
  unfold OAuth.screenshot. cbn. explore; units; cbn; eauto.
Qed.

Lemma dashboard_screenshot_calm (name_prefix : string) :
  always calm (Dashboard.screenshot name_prefix)
    (fun evs o => exists t ok,
       o = Returns (screenshot_path name_prefix t) /\
       shots evs = [(screenshot_path name_prefix t, ok)]).
Proof.
  unfold Dashboard.screenshot. cbn. explore; units; cbn; eauto.
Qed.

Lemma oauth_no_otp_tail (cfg : Config) (user_id totp_secret : string) :
  always calm
    (try_finally
       (try_except (OAuth.after_locator cfg user_id totp_secret [])
          (OAuth.on_failure user_id true))
       (attempt (call DriverQuit)))
    (fun evs o =>
       o = Returns false /\
       In (ERROR, OAuth.NO_OTP_MESSAGE user_id) (logs evs) /\
       exists t ok, In (screenshot_path ("no_otp_" +:+ user_id) t, ok) (shots evs)).
Proof.
  cbn. explore; units; cbn; (split; [reflexivity|split]); eauto 10.
Qed.

Lemma dashboard_no_otp_tail (user_id totp_secret : string) :
  always calm
    (try_except (Dashboard.after_locator user_id totp_secret [])
       (on_Exception
          (fun e =>
             log_error ("Error: " +:+ str_exn e);;
             Dashboard.screenshot ("exception_" +:+ user_id);;
             Ret false)))
    (fun evs o =>
       o = Returns false /\
       In (ERROR, Dashboard.NO_OTP_MESSAGE) (logs evs) /\
       exists t ok, In (screenshot_path ("no_otp_" +:+ user_id) t, ok) (shots evs)).
Proof.
  cbn. explore; units; cbn; (split; [reflexivity|split]); eauto 10.
Qed.

(** With a working camera every screenshot of a run is written. *)
Lemma shots_written (W : World) {A} (p : Prog A) (st : St) :
  camera_works W -> Forall (fun s => s.2 = true) (shots (exec W p st).2).
Proof.
  intros HW. revert st. induction p as [a|e| |X op k IH]; intros st; cbn;
    try constructor.
  pose proof (IH (respond W st op).1 (respond W st op).2) as Hk.
  destruct (respond W st op) as [r st1] eqn:Hr. cbn in Hk.
  destruct (exec W (k r) st1) as [[o s2] evs]. cbn in *.
  unfold shots in *. cbn.
  destruct op; cbn; try exact Hk.
  constructor; [|exact Hk]. cbn.
  cbn in Hr. unfold outside in Hr. rewrite HW in Hr. injection Hr as <- _. reflexivity.
Qed.

Lemma In_logs_prepend {A} (x : level * string) (e : list Event)
    (r : outcome A * St * list Event) :
  In x (logs r.2) -> In x (logs (prepend e r).2).
Proof. unfold prepend. cbn. rewrite logs_app. intros H. apply in_or_app. auto. Qed.

Lemma In_shots_prepend {A} (x : string * bool) (e : list Event)
    (r : outcome A * St * list Event) :
  In x (shots r.2) -> In x (shots (prepend e r).2).
Proof. unfold prepend. cbn. rewrite shots_app. intros H. apply in_or_app. auto. Qed.

Lemma oauth_run_to_locator (W : World) (cfg : Config) (st : St)
    (user_id password totp_secret login_url : string) s0 e0 s1 e1 s2 e2 fields :
  exec W (OAuth.open_browser cfg user_id) st = (Returns login_url, s0, e0) ->
  exec W (OAuth.submit_credentials user_id password login_url) s0
    = (Returns tt, s1, e1) ->
  exec W (OAuth.find_otp_fields 18000) s1 = (Returns fields, s2, e2) ->
  exec W (OAuth.perform_oauth_login cfg user_id password totp_secret) st
    = prepend e0 (prepend e1 (prepend e2
        (exec W
           (try_finally
              (try_except (OAuth.after_locator cfg user_id totp_secret fields)
                 (OAuth.on_failure user_id true))
              (attempt (call DriverQuit)))
           s2))).
Proof.
  intros H0 H1 H2. unfold OAuth.perform_oauth_login.
  rewrite (exec_try_or_return_ret W _ _ _ _ _ _ _ H0). f_equal.
  erewrite exec_try_finally_prepend;
    [|apply exec_try_except_prepend, (exec_bind_ret W _ _ _ _ _ _ H1)].
  f_equal.
  erewrite exec_try_finally_prepend;
    [|apply exec_try_except_prepend, (exec_bind_ret W _ _ _ _ _ _ H2)].
  reflexivity.
Qed.

Lemma dashboard_run_to_locator (W : World) (st : St)
    (user_id password totp_secret : string) s0 e0 s1 e1 s2 e2 fields :
  exec W (Dashboard.open_browser user_id) st = (Returns tt, s0, e0) ->
  exec W (Dashboard.submit_credentials user_id password) s0 = (Returns tt, s1, e1) ->
  exec W (Dashboard.find_otp_fields 15000) s1 = (Returns fields, s2, e2) ->
  exec W (Dashboard.perform_login_for_account user_id password totp_secret) st
    = prepend e0 (prepend e1 (prepend e2
        (exec W
           (try_except (Dashboard.after_locator user_id totp_secret fields)
              (on_Exception
                 (fun e =>
                    log_error ("Error: " +:+ str_exn e);;
                    Dashboard.screenshot ("exception_" +:+ user_id);;
                    Ret false)))
           s2))).
Proof.
  intros H0 H1 H2. unfold Dashboard.perform_login_for_account.
  rewrite (exec_bind_ret W _ _ _ _ _ _ H0). f_equal.
  erewrite exec_try_except_prepend; [|apply (exec_bind_ret W _ _ _ _ _ _ H1)].
  f_equal.
  erewrite exec_try_except_prepend; [|apply (exec_bind_ret W _ _ _ _ _ _ H2)].
  reflexivity.
Qed.



(** ** The keep-alive heartbeat *)

Lemma respond_sleep (W : World) (st : St) (ms : Z) :
  respond W st (Sleep ms) = (Ok tt, elapse st (Z.max 0 ms + lag W st)) \/
  respond W st (Sleep ms) = (Exc KeyboardInterrupt, elapse st (lag W st)).
Proof.
  cbn. destruct (fault W (tick st) () (Sleep ms)) as [[]|]; auto.
Qed.

(** A loop that, until the clock passes [d], runs [body] and sleeps
    [interval]: with fuel for the rounds that fit before [d] it ends, and
    it ends as [ends_at] says. *)
Section TimedLoop.
Variable W : World.
Variable clean : list Event -> Prop.
Variable loop : nat -> Z -> Prog unit.
Variable body : Prog unit.
Variable interval : Z.
Hypothesis interval_pos : (0 < interval)%Z.
Hypothesis loop_O : forall d, loop O d = Starve.
Hypothesis loop_S : forall f d,
  loop (S f) d =
  (t ← call TimeTime;
   if (t <? d)%Z then (body;; call (Sleep interval);; loop f d) else Ret tt).
Hypothesis clean_nil : clean [].
Hypothesis clean_app : forall e1 e2, clean e1 -> clean e2 -> clean (e1 ++ e2).
Hypothesis clean_time : forall t, clean [Ev TimeTime (Ok t)].
Hypothesis clean_sleep : forall ms, clean [Ev (Sleep ms) (Ok tt)].
Hypothesis body_ends : forall st, round_ends clean (exec W body st).

Lemma timed_loop_ends (f : nat) (d : Z) (st : St) :
  (d - now st <= interval * Z.of_nat f)%Z ->
  ends_at clean d (exec W (loop (S f) d) st).
Proof.
  revert st. induction f as [|f IH]; intros st Hfuel.
  - rewrite loop_S, exec_bind, exec_call. cbn.
    destruct (Z.ltb_spec (now st) d) as [Hlt|Hge]; [exfalso; lia|].
    left. cbn. repeat split; [apply clean_time|lia].
  - rewrite loop_S, exec_bind, exec_call. cbn.
    destruct (Z.ltb_spec (now st) d) as [Hlt|Hge].
    2:{ left. cbn. repeat split; [apply clean_time|lia]. }
    rewrite exec_bind.
    pose proof (body_ends (elapse st 0)) as Hb.
    pose proof (exec_now W body (elapse st 0)) as Hn.
    destruct (exec W body (elapse st 0)) as [[o1 s1] e1].
    unfold round_ends in Hb. cbn in Hb, Hn.
    destruct Hb as [[-> Hc]|[-> (pre & X & op & -> & Hc)]].
    + cbn [exec].
      destruct (respond_sleep W s1 interval) as [Hs|Hs]; rewrite Hs; cbn.
      * pose proof (IH (elapse s1 (Z.max 0 interval + lag W s1))) as Hr.
        assert (Hl : (0 <= lag W s1)%Z) by (unfold lag; lia).
        destruct (exec W (loop (S f) d) (elapse s1 (Z.max 0 interval + lag W s1)))
          as [[o2 s2] e2].
        unfold ends_at in *. cbn in *.
        destruct Hr as [(-> & Hc2 & Hd)|(-> & pre & X & op & -> & Hc2)]; [nia| |].
        -- left. repeat split; [|exact Hd].
           apply (clean_app [_]); [apply clean_time|].
           apply clean_app; [exact Hc|].
           apply (clean_app [_]); [apply clean_sleep|exact Hc2].
        -- right. split; [reflexivity|].
           exists (Ev TimeTime (Ok (now st)) :: e1 ++ Ev (Sleep interval) (Ok tt) :: pre),
             X, op.
           split.
           ++ cbn. rewrite <- app_assoc. reflexivity.
           ++ apply (clean_app [_]); [apply clean_time|].
              apply clean_app; [exact Hc|].
              apply (clean_app [_]); [apply clean_sleep|exact Hc2].
      * right. split; [reflexivity|].
        exists (Ev TimeTime (Ok (now st)) :: e1), _, (Sleep interval).
        split.
        -- reflexivity.
        -- apply (clean_app [_]); [apply clean_time|exact Hc].
    + right. split; [reflexivity|]. cbn.
      exists (Ev TimeTime (Ok (now st)) :: pre), X, op.
      split; [reflexivity|].
      apply (clean_app [_]); [apply clean_time|exact Hc].
Qed.

End TimedLoop.

Lemma undisturbed_app (e1 e2 : list Event) :
  undisturbed e1 -> undisturbed e2 -> undisturbed (e1 ++ e2).
Proof.
  unfold undisturbed. rewrite existsb_app. intros -> ->. reflexivity.
Qed.

Lemma exec_attempt_call (W : World) (op : Prim unit) (st : St) :
  exec W (attempt (call op)) st =
  (match (respond W st op).1 with
   | Ok x => Returns x
   | Exc e => if is_Exception e then Returns tt else Raises e
   end, (respond W st op).2, [Ev op (respond W st op).1]).
Proof.
  unfold attempt. rewrite exec_try_except, exec_call.
  destruct (respond W st op) as [[x|e] s1]; cbn; [reflexivity|].
  unfold on_Exception. destruct (is_Exception e); reflexivity.
Qed.

Lemma oauth_round_ends (W : World) (st : St) :
  round_ends undisturbed (exec W (attempt (call (ExecuteScript "void(0);" []))) st).
Proof.
  rewrite exec_attempt_call. unfold round_ends.
  destruct (respond W st (ExecuteScript "void(0);" [])) as [[[]|e] s1]; cbn.
  - left. split; reflexivity.
  - destruct e; cbn; try (left; split; reflexivity).
    right. split; [reflexivity|]. exists [], _, (ExecuteScript "void(0);" []).
    split; reflexivity.
Qed.

Lemma oauth_heartbeat_ends (W : World) (f : nat) (d : Z) (st : St) :
  (d - now st <= 30000 * Z.of_nat f)%Z ->
  ends_at undisturbed d (exec W (OAuth.heartbeat_loop (S f) d) st).
Proof.
  apply (timed_loop_ends W undisturbed OAuth.heartbeat_loop
           (attempt (call (ExecuteScript "void(0);" []))) 30000).
  - lia.
  - reflexivity.
  - apply undisturbed_app.
  - reflexivity.
  - reflexivity.
  - apply oauth_round_ends.
Qed.

Lemma dashboard_round_ends (W : World) (st : St) :
  round_ends (fun _ => True)
    (exec W
       (attempt_any
          (call (ExecuteScript "window.scrollBy(0,1);" []);;
           call (ExecuteScript "window.scrollBy(0,-1);" [])))
       st).
Proof.
  left. split; [|exact I].
  unfold attempt_any. rewrite exec_try_except, exec_bind, exec_call.
  destruct (respond W st (ExecuteScript "window.scrollBy(0,1);" [])) as [[[]|e] s1];
    cbn; [|reflexivity].
  destruct (fault W (tick s1) () (ExecuteScript "window.scrollBy(0,-1);" []));
    reflexivity.
Qed.

Lemma dashboard_heartbeat_ends (W : World) (f : nat) (d : Z) (st : St) :
  (d - now st <= 30000 * Z.of_nat f)%Z ->
  ends_at (fun _ => True) d (exec W (Dashboard.heartbeat_loop (S f) d) st).
Proof.
  apply (timed_loop_ends W (fun _ => True) Dashboard.heartbeat_loop
           (attempt_any
              (call (ExecuteScript "window.scrollBy(0,1);" []);;
               call (ExecuteScript "window.scrollBy(0,-1);" [])))
           30000); auto.
  - lia.
  - apply dashboard_round_ends.
Qed.

Lemma rounds_S (timeout interval : Z) :
  rounds timeout interval = S (S (Z.to_nat (timeout / interval))).
Proof. unfold rounds. lia. Qed.

Lemma oauth_keep_alive (W : World) (cfg : Config) (st : St) :
  (exec W (OAuth.keep_alive cfg) st).1.1 = Returns tt /\
  (undisturbed (exec W (OAuth.keep_alive cfg) st).2 ->
   (now st + Z.max 0 (KEEP_BROWSER_MINUTES cfg) * 60000
    <= now (exec W (OAuth.keep_alive cfg) st).1.2)%Z) /\
  (~ undisturbed (exec W (OAuth.keep_alive cfg) st).2 ->
   exists pre X (op : Prim X),
     (exec W (OAuth.keep_alive cfg) st).2
       = pre ++ [Ev op (Exc KeyboardInterrupt);
                 Ev (Log INFO "Interrupted while keeping browser open") (Ok tt)] /\
     undisturbed pre).
Proof.
  unfold OAuth.keep_alive.
  destruct (Z.ltb_spec 0 (KEEP_BROWSER_MINUTES cfg)) as [Hpos|Hneg].
  2:{ cbn. repeat split; try lia. intros H. exfalso. apply H. reflexivity. }
  set (K := KEEP_BROWSER_MINUTES cfg) in *. unfold log_info.
  rewrite exec_bind, exec_call. cbn [respond inside fst snd].
  rewrite exec_bind, exec_call. cbn [respond inside fst snd].
  rewrite exec_try_except, rounds_S.
  assert (Hdiv : (K * 60000 / 30000 = 2 * K)%Z).
  { replace (K * 60000)%Z with (2 * K * 30000)%Z by lia. apply Z_div_mult. lia. }
  pose proof (oauth_heartbeat_ends W (S (Z.to_nat (K * 60000 / 30000)))
                (now st + K * 60000) (elapse (elapse st 0) 0)) as Hloop.
  rewrite Hdiv in *.
  destruct (exec W (OAuth.heartbeat_loop (S (S (Z.to_nat (2 * K)))) (now st + K * 60000))
              (elapse (elapse st 0) 0)) as [[o s1] e1].
  unfold ends_at in Hloop. cbn in Hloop.
  destruct Hloop as [(-> & Hc & Hd)|(-> & pre & X & op & -> & Hc)]; [lia| |].
  - cbn. repeat split.
    + intros _. lia.
    + intros H. exfalso. apply H. exact Hc.
  - cbn. repeat split.
    + intros H. exfalso. unfold undisturbed in H. cbn in H.
      rewrite !existsb_app in H. cbn in H.
      rewrite !orb_true_r in H. discriminate.
    + intros _.
      exists (Ev TimeTime (Ok (now st)) ::
              Ev (Log INFO ("Keeping browser open for " +:+ pretty K +:+ " minutes until "
                            +:+ pretty (now st + K * 60000)%Z +:+ " UTC")) (Ok tt) :: pre),
        X, op.
      split.
      * cbn. rewrite <- app_assoc. reflexivity.
      * unfold undisturbed in *. cbn. exact Hc.
Qed.

Lemma dashboard_keep_alive (W : World) (st : St) :
  ((exec W Dashboard.keep_alive st).1.1 = Returns tt /\
   (now st + Dashboard.DAY <= now (exec W Dashboard.keep_alive st).1.2)%Z) \/
  ((exec W Dashboard.keep_alive st).1.1 = Raises KeyboardInterrupt /\
   exists pre X (op : Prim X),
     (exec W Dashboard.keep_alive st).2 = pre ++ [Ev op (Exc KeyboardInterrupt)]).
Proof.
  unfold Dashboard.keep_alive, log_info.
  rewrite exec_bind, exec_call. cbn [respond inside fst snd].
  rewrite exec_bind, exec_call. cbn [respond inside fst snd].
  rewrite exec_bind, rounds_S.
  change (Dashboard.DAY / 30000)%Z with 2880%Z.
  match goal with
  | |- context [exec W (Dashboard.heartbeat_loop (S ?f) ?d) ?s] =>
      pose proof (dashboard_heartbeat_ends W f d s) as Hloop;
      destruct (exec W (Dashboard.heartbeat_loop (S f) d) s) as [[o s1] e1]
  end.
  unfold ends_at in Hloop. cbn in Hloop.
  destruct Hloop as [(-> & _ & Hd)|(-> & pre & X & op & -> & _)].
  - unfold Dashboard.DAY. lia.
  - left. cbn. split; [reflexivity|lia].
  - right. cbn. split; [reflexivity|].
    eexists (_ :: _ :: pre), X, op.
    reflexivity.
Qed.



Example oauth_keep_alive_interrupted :
  (exec Examples.ctrl_c_world (OAuth.keep_alive Examples.keep_two_minutes;; Ret true)
     Examples.start).1.1 = Returns true /\
  length (List.filter is_sleep
            (exec Examples.ctrl_c_world (OAuth.keep_alive Examples.keep_two_minutes)
               Examples.start).2) = 1%nat.
Proof. split; vm_compute; reflexivity. Qed.

(** ** Success of an attempt *)

Lemma exchanges_app (e1 e2 : list Event) :
  exchanges (e1 ++ e2) = exchanges e1 ++ exchanges e2.
Proof. apply omap_app. Qed.

Lemma writes_app (e1 e2 : list Event) : writes (e1 ++ e2) = writes e1 ++ writes e2.
Proof. apply omap_app. Qed.

Lemma encryptions_app (e1 e2 : list Event) :
  encryptions (e1 ++ e2) = encryptions e1 ++ encryptions e2.
Proof. apply omap_app. Qed.

Lemma kept_app_l (u tok : string) (e1 e2 : list Event) :
  kept u tok e1 -> kept u tok (e1 ++ e2).
Proof.
  intros (enc & H1 & H2). exists enc.
  rewrite encryptions_app, writes_app. split; apply in_or_app; auto.
Qed.

Lemma kept_app_r (u tok : string) (e1 e2 : list Event) :
  kept u tok e2 -> kept u tok (e1 ++ e2).
Proof.
  intros (enc & H1 & H2). exists enc.
  rewrite encryptions_app, writes_app. split; apply in_or_app; auto.
Qed.

Lemma grounds_app_l (u : string) (e1 e2 : list Event) :
  success_grounds u e1 -> success_grounds u (e1 ++ e2).
Proof.
  intros [(tok & H1 & H2 & H3)|H].
  - left. exists tok. rewrite exchanges_app. repeat split; auto.
    + apply in_or_app. auto.
    + apply kept_app_l, H3.
  - right. unfold dashboard_reached in *. rewrite existsb_app, H. reflexivity.
Qed.

Lemma grounds_app_r (u : string) (e1 e2 : list Event) :
  success_grounds u e2 -> success_grounds u (e1 ++ e2).
Proof.
  intros [(tok & H1 & H2 & H3)|H].
  - left. exists tok. rewrite exchanges_app. repeat split; auto.
    + apply in_or_app. auto.
    + apply kept_app_r, H3.
  - right. unfold dashboard_reached in *. rewrite existsb_app, H. apply orb_true_r.
Qed.

(** Composition of programs under a property of their successful runs. *)
Section WhenTrue.
Variable S : list Event -> Prop.
Hypothesis S_app_l : forall e1 e2, S e1 -> S (e1 ++ e2).
Hypothesis S_app_r : forall e1 e2, S e2 -> S (e1 ++ e2).

Lemma when_true_never (p : Prog bool) :
  never_true p -> always every p (when_true S).
Proof.
  apply always_mono. intros evs o H Ho. contradiction.
Qed.

Lemma when_true_later (p : Prog bool) (pre : list Event) :
  always every p (when_true S) ->
  always every p (fun evs o => when_true S (pre ++ evs) o).
Proof.
  apply always_mono. intros evs o H Ho. apply S_app_r, H, Ho.
Qed.

Lemma when_true_bind {A} (m : Prog A) (f : A -> Prog bool) :
  (forall a, always every (f a) (when_true S)) ->
  always every (bind m f) (when_true S).
Proof.
  intros Hf. apply always_bind, always_any.
  intros evs [a|e|]; [|discriminate|discriminate].
  apply when_true_later, Hf.
Qed.

Lemma when_true_try_except (m : Prog bool) (h : exn -> option (Prog bool)) :
  always every m (when_true S) ->
  (forall e, match h e with
             | Some p => always every p (when_true S)
             | None => True
             end) ->
  always every (try_except m h) (when_true S).
Proof.
  intros Hm Hh. apply always_try_except.
  eapply always_mono; [|exact Hm].
  intros evs [b|e|] H; [exact H| |exact H].
  specialize (Hh e). destruct (h e) as [p|]; [|discriminate].
  apply when_true_later, Hh.
Qed.

Lemma when_true_try_finally (m : Prog bool) (fin : Prog unit) :
  always every m (when_true S) ->
  always every (try_finally m fin) (when_true S).
Proof.
  intros Hm. apply always_try_finally.
  eapply always_mono; [|exact Hm].
  intros evs [b|e|] H; [| |discriminate].
  - apply always_any. intros e2 [[]|e|]; [|discriminate|discriminate].
    intros Ho. apply S_app_l, H, Ho.
  - apply always_any. intros e2 [[]|e'|]; discriminate.
Qed.

Lemma when_true_try_or_return {A} (m : Prog A) (h : exn -> option (Prog bool))
    (k : A -> Prog bool) (P : list Event -> A -> Prop) :
  always every m (fun evs o => forall a, o = Returns a -> P evs a) ->
  (forall a e1, P e1 a ->
     always every (k a) (fun e2 o => when_true S (e1 ++ e2) o)) ->
  (forall e, match h e with Some p => never_true p | None => True end) ->
  always every (try_or_return m h k) (when_true S).
Proof.
  intros Hm Hk Hh. unfold try_or_return.
  apply always_bind, always_try_except, always_bind.
  eapply always_mono; [|exact Hm].
  intros e1 [a|e|] Ha; cbn; [| |discriminate].
  - rewrite !app_nil_r. apply Hk, Ha. reflexivity.
  - specialize (Hh e). destruct (h e) as [p|]; [|discriminate].
    apply always_bind. eapply always_mono; [|exact Hh].
    intros e2 [b|e'|] Hb; cbn; [|discriminate|discriminate].
    destruct b; [contradiction|discriminate].
Qed.

End WhenTrue.

(** One call on a path under [every], and the exploration of a program
    without loops. *)
Ltac any_call :=
  let r := fresh "r" in
  intros r _; destruct r as [?|?];
  cbn; unfold on_Exception, on_any, OAuth.on_failure; cbn.

Ltac any_branch :=
  match goal with
  | |- always _ ?p _ =>
      match p with
      | context [match ?x with _ => _ end] => split_on x
      end
  end.

Ltac wander := repeat (first [any_call | any_branch]).

Ltac anyhow :=
  lazymatch goal with
  | |- always ?a ?p ?Q => apply (always_any a p Q)
  end.

Lemma oauth_on_failure_never (user_id : string) (driver : bool) (e : exn) :
  match OAuth.on_failure user_id driver e with
  | Some p => never_true p
  | None => True
  end.
Proof.
  unfold OAuth.on_failure, never_true.
  destruct (is_WebDriverException e); [|destruct (is_Exception e); [|exact I]];
    destruct driver; cbn; wander; discriminate.
Qed.

Lemma oauth_no_fields_never (cfg : Config) (user_id totp_secret : string) :
  never_true (OAuth.after_locator cfg user_id totp_secret []).
Proof. unfold never_true. cbn. wander; discriminate. Qed.

(** A failure branch: log, screenshot, notify, [return False]. *)
Lemma oauth_failure_branch_never (msg name subject body : string) :
  never_true
    (log_error msg;; OAuth.screenshot name;; send_email subject body;; Ret false).
Proof. unfold never_true. cbn. wander; discriminate. Qed.

(** [WebDriverWait.until(presence_of_element_located(loc))] returns only
    after a query of [loc] has found something. *)
Lemma until_presence_found (loc : By) (fuel : nat) (end_time : Z) :
  always every (until_loop fuel end_time (presence_of_element_located loc))
    (fun evs o => forall h, o = Returns h -> existsb (found loc) evs = true).
Proof.
  induction fuel as [|fuel IH]; cbn.
  - discriminate.
  - intros [els|e] _; cbn.
    + destruct els as [|el els]; cbn.
      * intros [t|e] _; cbn; [|discriminate].
        destruct (end_time <? t)%Z; cbn; [discriminate|].
        intros [[]|e] _; cbn; [|discriminate].
        exact IH.
      * intros h _. rewrite bool_decide_eq_true_2; reflexivity.
    + destruct e; cbn; try discriminate.
      intros [t|e] _; cbn; [|discriminate].
      destruct (end_time <? t)%Z; cbn; [discriminate|].
      intros [[]|e] _; cbn; [|discriminate].
      exact IH.
Qed.

Lemma wait_presence_found (loc : By) (timeout : Z) :
  always every (wait_until timeout (presence_of_element_located loc))
    (fun evs o => forall h, o = Returns h -> existsb (found loc) evs = true).
Proof.
  unfold wait_until. cbn. intros [t0|e] _; cbn; [|discriminate].
  apply until_presence_found.
Qed.

Lemma oauth_dashboard_probe_grounds (user_id final_url : string) :
  always every (OAuth.dashboard_probe user_id final_url)
    (when_true (success_grounds user_id)).
Proof.
  unfold OAuth.dashboard_probe.
  apply when_true_try_except.
  - exact (grounds_app_r user_id).
  - apply always_bind.
    eapply always_mono; [|apply wait_presence_found].
    intros evs [h|e|] H; [|discriminate|discriminate].
    anyhow. intros e2 o _. apply grounds_app_l. right.
    exact (H h eq_refl).
  - intros e. unfold on_Exception. destruct (is_Exception e); [|exact I].
    apply when_true_never. unfold never_true. cbn. wander; discriminate.
Qed.

(** [save_encrypted_token] returns only after it has encrypted the token and
    written the cipher text to the user's token file. *)
Lemma save_encrypted_token_kept (user_id tok : string) :
  always every (TokenManager.save_encrypted_token user_id tok)
    (fun evs o => o = Returns tt -> kept user_id tok evs).
Proof.
  unfold TokenManager.save_encrypted_token, TokenManager._get_fernet. cbn.
  wander; try discriminate.
  all: intros _; eexists; split; cbn; eauto.
Qed.

Lemma oauth_store_and_finish_kept (cfg : Config) (user_id tok : string) :
  always every (OAuth.store_and_finish cfg user_id tok) (when_true (kept user_id tok)).
Proof.
  unfold OAuth.store_and_finish.
  apply (when_true_try_or_return (kept user_id tok))
    with (P := fun evs _ => kept user_id tok evs).
  - apply always_bind.
    eapply always_mono; [|apply save_encrypted_token_kept].
    intros evs [[]|e|] H; [|discriminate|discriminate].
    anyhow. intros e2 o a _. apply kept_app_l, H. reflexivity.
  - intros _ e1 H. anyhow. intros e2 o _. apply kept_app_l, H.
  - intros e. unfold on_Exception. destruct (is_Exception e); [|exact I].
    unfold never_true. cbn. wander; discriminate.
Qed.

Lemma truthy_token (v : option string) :
  truthy v = true -> exists tok, v = Some tok /\ tok <> "".
Proof.
  destruct v as [tok|]; [|discriminate].
  intros H. exists tok. split; [reflexivity|]. intros ->. discriminate.
Qed.

Lemma oauth_exchange_and_store_grounds (cfg : Config) (user_id rt : string) :
  always every (OAuth.exchange_and_store cfg user_id rt)
    (when_true (success_grounds user_id)).
Proof.
  unfold OAuth.exchange_and_store.
  apply (when_true_try_or_return (success_grounds user_id))
    with (P := fun evs data => In (data !! "access_token") (exchanges evs)).
  - apply always_call. intros [data|e] _ a; [|discriminate].
    intros [= <-]. left. reflexivity.
  - intros data e1 H. cbv zeta.
    destruct (truthy (data !! "access_token")) eqn:Ht; cbn [negb].
    + destruct (truthy_token _ Ht) as (tok & Htok & Hne).
      rewrite Htok in *. cbn [default].
      eapply always_mono; [|apply oauth_store_and_finish_kept].
      intros e2 o Hk Ho. left. exists tok. rewrite exchanges_app.
      split; [apply in_or_app; auto|]. split; [exact Hne|].
      apply kept_app_r, Hk, Ho.
    + eapply always_mono;
        [|apply (oauth_failure_branch_never
                   ("generate_session returned no access_token for " +:+ user_id
                    +:+ ": " +:+ repr_row data)
                   ("no_access_token_" +:+ user_id)
                   ("Kite token missing for " +:+ user_id)
                   ("generate_session returned: " +:+ repr_row data))].
      intros e2 o Hn Ho. contradiction.
  - intros e. unfold on_Exception. destruct (is_Exception e); [|exact I].
    unfold never_true. cbn. wander; discriminate.
Qed.

Lemma oauth_after_locator_grounds (cfg : Config) (user_id totp_secret : string)
    (fields : list handle) :
  always every (OAuth.after_locator cfg user_id totp_secret fields)
    (when_true (success_grounds user_id)).
Proof.
  destruct fields as [|f fields].
  { apply when_true_never, oauth_no_fields_never. }
  unfold OAuth.after_locator.
  apply (when_true_try_or_return (success_grounds user_id))
    with (P := fun _ _ => True).
  - anyhow. auto.
  - intros otp e1 _.
    apply when_true_later; [exact (grounds_app_r user_id)|].
    apply when_true_bind; [exact (grounds_app_r user_id)|].
    intros [|]; cbn [negb].
    + apply when_true_bind; [exact (grounds_app_r user_id)|]. intros clicked.
      apply when_true_bind; [exact (grounds_app_r user_id)|]. intros _.
      apply when_true_bind; [exact (grounds_app_r user_id)|].
      intros [[rt status] final_url].
      destruct (truthy rt); cbn [negb].
      * apply when_true_bind; [exact (grounds_app_r user_id)|]. intros _.
        apply oauth_exchange_and_store_grounds.
      * apply oauth_dashboard_probe_grounds.
    + apply when_true_never, oauth_failure_branch_never.
  - intros e. unfold on_Exception. destruct (is_Exception e); [|exact I].
    unfold never_true. cbn. wander; discriminate.
Qed.

Lemma oauth_attempt_grounds (cfg : Config) (user_id password totp_secret : string) :
  always every (OAuth.perform_oauth_login cfg user_id password totp_secret)
    (when_true (success_grounds user_id)).
Proof.
  unfold OAuth.perform_oauth_login.
  apply (when_true_try_or_return (success_grounds user_id))
    with (P := fun _ _ => True).
  - anyhow. auto.
  - intros login_url e1 _.
    apply when_true_later; [exact (grounds_app_r user_id)|].
    apply when_true_try_finally; [exact (grounds_app_l user_id)|].
    apply when_true_try_except; [exact (grounds_app_r user_id)| |].
    + apply when_true_bind; [exact (grounds_app_r user_id)|]. intros _.
      apply when_true_bind; [exact (grounds_app_r user_id)|]. intros fields.
      apply oauth_after_locator_grounds.
    + intros e. pose proof (oauth_on_failure_never user_id true e) as H.
      destruct (OAuth.on_failure user_id true e); [|exact I].
      apply when_true_never, H.
  - intros e. apply oauth_on_failure_never.
Qed.

(** ** The dashboard script neither exchanges nor stores a token *)

Lemma token_free_app (e1 e2 : list Event) :
  token_free e1 -> token_free e2 -> token_free (e1 ++ e2).
Proof.
  intros [H1 H2] [H3 H4]. unfold token_free.
  rewrite exchanges_app, writes_app, H1, H2, H3, H4. split; reflexivity.
Qed.

Lemma silent_ret {A} (a : A) : silent (Ret a).
Proof. split; reflexivity. Qed.

Lemma silent_raise {A} (e : exn) : silent (@Raise A e).
Proof. split; reflexivity. Qed.

Lemma silent_starve {A} : silent (@Starve A).
Proof. split; reflexivity. Qed.

Lemma silent_call {X} (op : Prim X) :
  (forall r, token_free [Ev op r]) -> silent (call op).
Proof. intros H. apply always_call. intros r _. apply H. Qed.

Lemma silent_bind {A B} (m : Prog A) (f : A -> Prog B) :
  silent m -> (forall a, silent (f a)) -> silent (bind m f).
Proof.
  intros Hm Hf. apply always_bind.
  eapply always_mono; [|exact Hm].
  intros e1 [a|e|] H1; [|exact H1|exact H1].
  eapply always_mono; [|exact (Hf a)].
  intros e2 o H2. apply token_free_app; assumption.
Qed.

Lemma silent_try_except {A} (m : Prog A) (h : exn -> option (Prog A)) :
  silent m ->
  (forall e, match h e with Some p => silent p | None => True end) ->
  silent (try_except m h).
Proof.
  intros Hm Hh. apply always_try_except.
  eapply always_mono; [|exact Hm].
  intros e1 [a|e|] H1; [exact H1| |exact H1].
  specialize (Hh e). destruct (h e) as [p|]; [|exact H1].
  eapply always_mono; [|exact Hh].
  intros e2 o H2. apply token_free_app; assumption.
Qed.

Create HintDb silent.

Ltac dig x :=
  lazymatch x with
  | context [match ?y with _ => _ end] => dig y
  | _ => destruct x; cbv beta iota
  end.

Ltac silence_step :=
  first
    [ assumption
    | exact I
    | apply silent_ret
    | apply silent_raise
    | apply silent_starve
    | solve [auto with silent]
    | apply silent_call; intros [?|?]; split; reflexivity
    | apply silent_bind; [|intros ?]
    | apply silent_try_except;
      [|intros ?; cbv beta delta [on_Exception on_any on_KeyboardInterrupt]]
    | match goal with
      | |- silent ?p =>
          match p with context [match ?x with _ => _ end] => dig x end
      | |- match ?x with _ => _ end => dig x
      end
    | progress cbv zeta ].

Ltac silence := repeat silence_step.

Lemma silent_find_element (loc : By) : silent (find_element loc).
Proof. unfold find_element. silence. Qed.
#[local] Hint Resolve silent_find_element : silent.

Lemma silent_presence (loc : By) : silent (presence_of_element_located loc).
Proof. unfold presence_of_element_located. silence. Qed.
#[local] Hint Resolve silent_presence : silent.

Lemma silent_clickable (loc : By) : silent (element_to_be_clickable loc).
Proof. unfold element_to_be_clickable. silence. Qed.
#[local] Hint Resolve silent_clickable : silent.

Lemma silent_until_loop {A} (fuel : nat) (end_time : Z) (method : Prog (option A)) :
  silent method -> silent (until_loop fuel end_time method).
Proof.
  intros Hm. induction fuel as [|fuel IH]; cbn [until_loop]; silence.
Qed.

Lemma silent_wait_until {A} (timeout : Z) (method : Prog (option A)) :
  silent method -> silent (wait_until timeout method).
Proof.
  intros Hm. unfold wait_until. silence. apply silent_until_loop, Hm.
Qed.
#[local] Hint Resolve silent_wait_until : silent.

Lemma silent_displayed_and_enabled (cand : list handle) :
  silent (displayed_and_enabled cand).
Proof. induction cand as [|e rest IH]; cbn [displayed_and_enabled]; silence. Qed.
#[local] Hint Resolve silent_displayed_and_enabled : silent.

Lemma silent_displayed_only (cand : list handle) : silent (displayed_only cand).
Proof. induction cand as [|e rest IH]; cbn [displayed_only]; silence. Qed.
#[local] Hint Resolve silent_displayed_only : silent.

Lemma dashboard_screenshot_silent (name : string) : silent (Dashboard.screenshot name).
Proof. unfold Dashboard.screenshot, attempt. silence. Qed.
#[local] Hint Resolve dashboard_screenshot_silent : silent.

Lemma dashboard_poll_loop_silent (fuel : nat) (end_ : Z) :
  silent (Dashboard.poll_loop fuel end_).
Proof. induction fuel as [|fuel IH]; cbn [Dashboard.poll_loop]; silence. Qed.
#[local] Hint Resolve dashboard_poll_loop_silent : silent.

Lemma dashboard_wait_for_request_token_silent (timeout : Z) :
  silent (Dashboard.wait_for_request_token timeout).
Proof. unfold Dashboard.wait_for_request_token. silence. Qed.
#[local] Hint Resolve dashboard_wait_for_request_token_silent : silent.

Lemma dashboard_probe_all_silent : silent Dashboard.probe_all.
Proof.
  unfold Dashboard.probe_all, Dashboard.probe_by_id, Dashboard.probe_split,
    Dashboard.probe_numeric, Dashboard.probe_password.
  silence.
Qed.
#[local] Hint Resolve dashboard_probe_all_silent : silent.

Lemma dashboard_find_otp_loop_silent (fuel : nat) (end_ : Z) :
  silent (Dashboard.find_otp_loop fuel end_).
Proof.
  induction fuel as [|fuel IH]; cbn [Dashboard.find_otp_loop]; unfold or_else; silence.
Qed.
#[local] Hint Resolve dashboard_find_otp_loop_silent : silent.

Lemma dashboard_find_otp_fields_silent (timeout : Z) :
  silent (Dashboard.find_otp_fields timeout).
Proof. unfold Dashboard.find_otp_fields. silence. Qed.
#[local] Hint Resolve dashboard_find_otp_fields_silent : silent.

Lemma dashboard_enter_split_silent (otp : list string) (fields : list handle) (i : nat) :
  silent (Dashboard.enter_split i otp fields).
Proof.
  revert i. induction otp as [|ch rest IH]; intros i; cbn [Dashboard.enter_split];
    unfold attempt_any; silence.
Qed.
#[local] Hint Resolve dashboard_enter_split_silent : silent.

Lemma dashboard_enter_otp_silent (otp : string) (fields : list handle) :
  silent (Dashboard.enter_otp_into_fields otp fields).
Proof. unfold Dashboard.enter_otp_into_fields, attempt_any. silence. Qed.
#[local] Hint Resolve dashboard_enter_otp_silent : silent.

Lemma dashboard_click_when_clickable_silent (timeout : Z) (loc : By) :
  silent (Dashboard.click_when_clickable timeout loc).
Proof.
  unfold Dashboard.click_when_clickable. silence.
Qed.
#[local] Hint Resolve dashboard_click_when_clickable_silent : silent.

Lemma dashboard_click_first_visible_silent (bs : list handle) :
  silent (Dashboard.click_first_visible bs).
Proof. induction bs as [|b rest IH]; cbn [Dashboard.click_first_visible]; silence. Qed.
#[local] Hint Resolve dashboard_click_first_visible_silent : silent.

Lemma dashboard_click_continue_silent (timeout : Z) :
  silent (Dashboard.click_continue_button timeout).
Proof. unfold Dashboard.click_continue_button. silence. Qed.
#[local] Hint Resolve dashboard_click_continue_silent : silent.

Lemma dashboard_heartbeat_loop_silent (fuel : nat) (end_time : Z) :
  silent (Dashboard.heartbeat_loop fuel end_time).
Proof.
  induction fuel as [|fuel IH]; cbn [Dashboard.heartbeat_loop]; unfold attempt_any;
    silence.
Qed.
#[local] Hint Resolve dashboard_heartbeat_loop_silent : silent.

Lemma dashboard_keep_alive_silent : silent Dashboard.keep_alive.
Proof. unfold Dashboard.keep_alive. silence. Qed.
#[local] Hint Resolve dashboard_keep_alive_silent : silent.

Lemma dashboard_after_locator_silent (user_id totp_secret : string)
    (fields : list handle) :
  silent (Dashboard.after_locator user_id totp_secret fields).
Proof. unfold Dashboard.after_locator. silence. Qed.
#[local] Hint Resolve dashboard_after_locator_silent : silent.

Lemma dashboard_submit_credentials_silent (user_id password : string) :
  silent (Dashboard.submit_credentials user_id password).
Proof.
  unfold Dashboard.submit_credentials. silence.
Qed.
#[local] Hint Resolve dashboard_submit_credentials_silent : silent.

Lemma dashboard_attempt_silent (user_id password totp_secret : string) :
  silent (Dashboard.perform_login_for_account user_id password totp_secret).
Proof.
  unfold Dashboard.perform_login_for_account, Dashboard.open_browser. silence.
Qed.

(** When the token store raises an exception, the part of the OAuth attempt
    from [save_encrypted_token] on returns [False]. *)
Lemma oauth_store_failure (W : World) (cfg : Config) (st : St)
    (user_id tok : string) (e : exn) :
  is_Exception e = true ->
  (exec W (TokenManager.save_encrypted_token user_id tok) st).1.1 = Raises e ->
  (exec W (OAuth.store_and_finish cfg user_id tok) st).1.1 = Returns false.
Proof.
  intros He H. unfold OAuth.store_and_finish, try_or_return.
  rewrite exec_bind, exec_try_except, !exec_bind.
  destruct (exec W (TokenManager.save_encrypted_token user_id tok) st)
    as [[o s1] e1].
  cbn in H. subst o. unfold on_Exception. rewrite He. cbn. reflexivity.
Qed.



(** The two ways the OAuth attempt ends after a redirect with a request
    token: with the key of the token store in the environment the token is
    stored and the attempt returns [True]; without it the store raises and
    the attempt returns [False]. *)
Example oauth_attempt_stores :
  (exec (Examples.redirect_world {[ "FERNET_KEY" := "a-key" ]})
     (OAuth.perform_oauth_login Examples.config "AB1234" "pw1" "SEED1")
     Examples.start).1.1 = Returns true /\
  exchanges
    (exec (Examples.redirect_world {[ "FERNET_KEY" := "a-key" ]})
       (OAuth.perform_oauth_login Examples.config "AB1234" "pw1" "SEED1")
       Examples.start).2 = [Some "tok"] /\
  writes
    (exec (Examples.redirect_world {[ "FERNET_KEY" := "a-key" ]})
       (OAuth.perform_oauth_login Examples.config "AB1234" "pw1" "SEED1")
       Examples.start).2
    = [(TokenManager.token_path "AB1234",
        Examples.toy_encrypt "a-key" 0 (list_byte_of_string "tok"))].
Proof. repeat split; vm_compute; reflexivity. Qed.

Example oauth_attempt_store_fails :
  (exec (Examples.redirect_world ∅)
     (OAuth.perform_oauth_login Examples.config "AB1234" "pw1" "SEED1")
     Examples.start).1.1 = Returns false /\
  exchanges
    (exec (Examples.redirect_world ∅)
       (OAuth.perform_oauth_login Examples.config "AB1234" "pw1" "SEED1")
       Examples.start).2 = [Some "tok"] /\
  writes
    (exec (Examples.redirect_world ∅)
       (OAuth.perform_oauth_login Examples.config "AB1234" "pw1" "SEED1")
       Examples.start).2 = [].
Proof. repeat split; vm_compute; reflexivity. Qed.

(** ** The continuation step *)

Lemma clicks_app (e1 e2 : list Event) : clicks (e1 ++ e2) = clicks e1 ++ clicks e2.
Proof. apply omap_app. Qed.

Lemma queries_app (e1 e2 : list Event) :
  queries (e1 ++ e2) = queries e1 ++ queries e2.
Proof. apply omap_app. Qed.

Lemma ends_with_click_later (P : handle -> list Event -> Prop) (e1 e2 : list Event) :
  (forall h pre, P h pre -> P h (e1 ++ pre)) ->
  clicks e1 = [] ->
  ends_with_click P e2 -> ends_with_click P (e1 ++ e2).
Proof.
  intros HP H1 (pre & h & -> & H2 & H3).
  exists (e1 ++ pre), h. rewrite app_assoc, clicks_app, H1, H2. auto.
Qed.

Lemma click_outcome_later (P : handle -> list Event -> Prop) (E : exn -> Prop)
    (e1 e2 : list Event) (o : outcome bool) :
  (forall h pre, P h pre -> P h (e1 ++ pre)) ->
  clicks e1 = [] ->
  click_outcome P E e2 o -> click_outcome P E (e1 ++ e2) o.
Proof.
  intros HP H1. unfold click_outcome.
  destruct o as [[|]|e|]; rewrite ?clicks_app, ?H1; cbn [app]; auto.
  - apply ends_with_click_later; assumption.
Qed.

(** One poll of [element_to_be_clickable] inside [until]: one query, no
    click, and the handle it yields was answered displayed and enabled. *)
Lemma clickable_probe (loc : By) :
  always any_world
    (try_except (element_to_be_clickable loc)
       (fun e => match e with
                 | NoSuchElementException => Some (Ret None)
                 | _ => None
                 end))
    (fun evs o =>
       clicks evs = [] /\ queries evs = [loc] /\
       forall h, o = Returns (Some h) -> is_checked h evs).
Proof.
  unfold element_to_be_clickable, find_element. cbn.
  wander.
  all: split; [reflexivity|split; [reflexivity|]]; intros h0 Hh; try discriminate Hh.
  all: match goal with x : bool |- _ => destruct x end; try discriminate Hh.
  all: injection Hh as <-; unfold is_checked, checked; cbn;
    rewrite Nat.eqb_refl; reflexivity.
Qed.

(** The wait for a clickable element: it queries the page with its own
    locator only, at least once; it clicks nothing; and the handle it returns
    was answered displayed and enabled. *)
Lemma until_clickable (loc : By) (fuel : nat) (end_time : Z) :
  always any_world (until_loop fuel end_time (element_to_be_clickable loc))
    (fun evs o =>
       clicks evs = [] /\ polled loc evs o /\
       forall h, o = Returns h -> is_checked h evs).
Proof.
  induction fuel as [|fuel IH]; cbn [until_loop].
  - cbn. split; [reflexivity|]. split; [|discriminate].
    exists 0%nat. split; [reflexivity|]. intros H. contradiction.
  - apply always_bind.
    eapply always_mono; [|apply clickable_probe].
    intros e1 o1 (Hc & Hq & Hh).
    assert (Hp : forall A (o : outcome A), polled loc e1 o).
    { intros A o. exists 1%nat. split; [exact Hq|]. auto. }
    destruct o1 as [[h|]|e|];
      [| |split; [exact Hc|split; [apply Hp|discriminate]]
       |split; [exact Hc|split; [apply Hp|discriminate]]].
    + cbn. rewrite app_nil_r. split; [exact Hc|]. split; [apply Hp|].
      intros h' [= <-]. apply Hh. reflexivity.
    + cbn. intros [t|e] Ht; [|discriminate Ht]. cbn.
      destruct (end_time <? t)%Z; cbn.
      * rewrite clicks_app, Hc. split; [reflexivity|]. split; [|discriminate].
        exists 1%nat. rewrite queries_app, Hq. split; [reflexivity|]. auto.
      * intros [[]|e] _; cbn.
        -- eapply always_mono; [|exact IH].
           intros e2 o2 (Hc2 & (n & Hq2 & Hn) & Hh2).
           rewrite clicks_app, Hc. cbn. split; [exact Hc2|]. split.
           ++ exists (S n). rewrite queries_app, Hq. cbn. fold (queries e2).
              rewrite Hq2. split; [reflexivity|]. intros _. lia.
           ++ intros h Ho. apply is_checked_app_r.
              apply (is_checked_app_r h [_; _]). apply Hh2, Ho.
        -- rewrite clicks_app, Hc. split; [reflexivity|]. split; [|discriminate].
           exists 1%nat. rewrite queries_app, Hq. split; [reflexivity|]. auto.
Qed.

Lemma wait_clickable (loc : By) (timeout : Z) :
  always any_world (wait_until timeout (element_to_be_clickable loc))
    (fun evs o =>
       clicks evs = [] /\ polled loc evs o /\
       forall h, o = Returns h -> is_checked h evs).
Proof.
  unfold wait_until. cbn. intros [t0|e] Ht; [|discriminate Ht]. cbn.
  eapply always_mono; [|apply until_clickable].
  intros evs o (Hc & Hp & Hh). split; [exact Hc|]. split; [exact Hp|].
  intros h Ho. apply (is_checked_app_r h [_]), Hh, Ho.
Qed.

Lemma polled_quiet (loc : By) {A B} (e1 e2 : list Event) (o1 : outcome A)
    (o2 : outcome B) :
  polled loc e1 o1 -> o1 <> OutOfFuel -> queries e2 = [] ->
  polled loc (e1 ++ e2) o2.
Proof.
  intros (n & Hq & Hn) Ho H2. exists n.
  rewrite queries_app, Hq, H2, app_nil_r. auto.
Qed.

(** One of the two [wait.until(...); btn.click(); return True] blocks of the
    dashboard script. *)
Lemma dashboard_click_when_clickable (timeout : Z) (loc : By) :
  always any_world (Dashboard.click_when_clickable timeout loc)
    (fun evs o =>
       polled loc evs o /\ click_outcome is_checked (fun _ => False) evs o).
Proof.
  unfold Dashboard.click_when_clickable.
  apply always_try_except, always_bind.
  eapply always_mono; [|apply wait_clickable].
  intros e1 o1 (Hc & Hp & Hh). destruct o1 as [h|e|].
  - cbn. intros [[]|e] _; cbn.
    + split.
      * eapply polled_quiet; [exact Hp|discriminate|reflexivity].
      * exists e1, h. split; [reflexivity|]. split; [exact Hc|]. apply Hh. reflexivity.
    + rewrite app_nil_r. split.
      * eapply polled_quiet; [exact Hp|discriminate|reflexivity].
      * rewrite clicks_app, Hc. reflexivity.
  - cbn. rewrite app_nil_r. split; [|exact Hc].
    destruct Hp as (n & Hq & Hn). exists n. split; [exact Hq|].
    intros _. apply Hn. discriminate.
  - split; [|exact Hc].
    destruct Hp as (n & Hq & Hn). exists n. split; [exact Hq|].
    intros H. contradiction.
Qed.

(** The fallback loop of the dashboard script. *)
Lemma dashboard_click_first_visible (bs : list handle) :
  always any_world (Dashboard.click_first_visible bs)
    (fun evs o =>
       queries evs = [] /\ click_outcome is_checked (fun _ => True) evs o).
Proof.
  induction bs as [|b rest IH]; cbn [Dashboard.click_first_visible].
  - cbn. auto.
  - cbn. intros [d|e] _; cbn; [|auto].
    destruct d; cbn.
    + intros [en|e] _; cbn; [|auto].
      destruct en; cbn.
      * intros [[]|e] _; cbn; [|auto].
        split; [reflexivity|].
        exists [Ev (IsDisplayed b) (Ok true); Ev (IsEnabled b) (Ok true)], b.
        split; [reflexivity|]. split; [reflexivity|].
        unfold is_checked, checked. cbn. rewrite Nat.eqb_refl. reflexivity.
      * eapply always_mono; [|exact IH].
        intros evs o (Hq & Hc). split; [exact Hq|].
        apply (click_outcome_later _ _ [_; _]); [|reflexivity|exact Hc].
        intros h pre. apply is_checked_app_r.
    + eapply always_mono; [|exact IH].
      intros evs o (Hq & Hc). split; [exact Hq|].
      apply (click_outcome_later _ _ [_]); [|reflexivity|exact Hc].
      intros h pre. apply is_checked_app_r.
Qed.

Lemma stages_intro (a b c : By) {A B} (e1 e2 e3 : list Event)
    (o1 : outcome A) (o2 : outcome B) (n3 : nat) :
  polled a e1 o1 -> o1 <> OutOfFuel ->
  (e2 = [] \/ polled b e2 o2) ->
  queries e3 = replicate n3 c -> (n3 <= 1)%nat ->
  in_stages a b c (e1 ++ e2 ++ e3).
Proof.
  intros (n1 & H1 & Hn1) Ho [->|(n2 & H2 & _)] H3 Hn3.
  - exists n1, 0%nat, n3. rewrite !queries_app, H1, H3. auto.
  - exists n1, n2, n3. rewrite !queries_app, H1, H2, H3. auto.
Qed.

(** The continuation step of the dashboard script: the three locators in
    order, and a click that went through ends the step. *)
Lemma dashboard_click_continue_stages (timeout : Z) :
  always any_world (Dashboard.click_continue_button timeout)
    (fun evs o =>
       (o <> OutOfFuel ->
        in_stages Dashboard.XP_CONTINUE XP_SUBMIT Dashboard.TAG_BUTTON evs) /\
       click_outcome is_checked (fun _ => False) evs o).
Proof.
  unfold Dashboard.click_continue_button.
  apply always_try_except, always_bind.
  eapply always_mono; [|apply dashboard_click_when_clickable].
  intros e1 o1 (Hp1 & Hc1).
  assert (Hmono : forall (e : list Event) h pre, is_checked h pre -> is_checked h (e ++ pre)).
  { intros e h pre. apply is_checked_app_r. }
  destruct o1 as [[|]|e|].
  - cbn. split; [|rewrite app_nil_r; exact Hc1]. intros _.
    eapply (stages_intro _ _ _ e1 [] [] _ (Returns true) 0 Hp1);
      [discriminate|left; reflexivity|reflexivity|lia].
  - apply always_bind.
    eapply always_mono; [|apply dashboard_click_when_clickable].
    intros e2 o2 (Hp2 & Hc2). destruct o2 as [[|]|e|].
    + cbn. split.
      * intros _.
        eapply (stages_intro _ _ _ e1 e2 [] _ _ 0 Hp1);
          [discriminate|right; exact Hp2|reflexivity|lia].
      * rewrite app_nil_r.
        apply (click_outcome_later is_checked (fun _ => False) e1 e2 (Returns true));
          [apply Hmono|exact Hc1|exact Hc2].
    + cbn. intros [bs|e] _; cbn.
      * eapply always_mono; [|apply dashboard_click_first_visible].
        intros e3 o3 (Hq3 & Hc3).
        assert (Hs : in_stages Dashboard.XP_CONTINUE XP_SUBMIT Dashboard.TAG_BUTTON
                       (e1 ++ e2 ++ Ev (FindElements Dashboard.TAG_BUTTON) (Ok bs) :: e3)).
        { eapply (stages_intro _ _ _ e1 e2 _ _ _ 1 Hp1);
            [discriminate|right; exact Hp2| |lia].
          cbn. fold (queries e3). rewrite Hq3. reflexivity. }
        assert (Hc : forall b : bool,
                   click_outcome is_checked (fun _ => True) e3 (Returns b) ->
                   click_outcome is_checked (fun _ => False)
                     (e1 ++ e2 ++ Ev (FindElements Dashboard.TAG_BUTTON) (Ok bs) :: e3)
                     (Returns b)).
        { intros b Hb.
          apply click_outcome_later; [apply Hmono|exact Hc1|].
          apply click_outcome_later; [apply Hmono|exact Hc2|].
          apply (click_outcome_later _ _ [_]); [apply Hmono|reflexivity|].
          destruct b; exact Hb. }
        destruct o3 as [b|e|].
        -- split; [intros _; exact Hs|apply Hc, Hc3].
        -- cbn. rewrite app_nil_r. split; [intros _; exact Hs|].
           apply (Hc false). apply Hc3.
        -- split; [intros H; contradiction|].
           cbn. rewrite !clicks_app. cbn in Hc1, Hc2, Hc3.
           rewrite Hc1, Hc2. cbn. exact Hc3.
      * rewrite app_nil_r. split.
        -- intros _.
           eapply (stages_intro _ _ _ e1 e2 _ _ _ 1 Hp1);
             [discriminate|right; exact Hp2|reflexivity|lia].
        -- cbn. rewrite !clicks_app. cbn in Hc1, Hc2. rewrite Hc1, Hc2. reflexivity.
    + destruct Hc2 as [[] _].
    + split; [intros H; contradiction|].
      cbn. rewrite clicks_app. cbn in Hc1, Hc2. rewrite Hc1, Hc2. reflexivity.
  - destruct Hc1 as [[] _].
  - split; [intros H; contradiction|exact Hc1].
Qed.

(** The continuation step has fuel enough. *)
Section Terminates.
Variable W : World.

Lemma terminates_ret {A} (a : A) : terminates W (Ret a).
Proof. intros st. discriminate. Qed.

Lemma terminates_raise {A} (e : exn) : terminates W (@Raise A e).
Proof. intros st. discriminate. Qed.

Lemma terminates_call {X} (op : Prim X) : terminates W (call op).
Proof.
  intros st. rewrite exec_call. cbn.
  destruct (respond W st op).1; discriminate.
Qed.

Lemma terminates_bind {A B} (m : Prog A) (f : A -> Prog B) :
  terminates W m -> (forall a, terminates W (f a)) -> terminates W (bind m f).
Proof.
  intros Hm Hf st. rewrite exec_bind.
  pose proof (Hm st) as H1.
  destruct (exec W m st) as [[[a|e|] s1] e1]; cbn in *; [|discriminate|contradiction].
  pose proof (Hf a s1) as H2.
  destruct (exec W (f a) s1) as [[o s2] e2]. exact H2.
Qed.

Lemma terminates_try_except {A} (m : Prog A) (h : exn -> option (Prog A)) :
  terminates W m ->
  (forall e, match h e with Some p => terminates W p | None => True end) ->
  terminates W (try_except m h).
Proof.
  intros Hm Hh st. rewrite exec_try_except.
  pose proof (Hm st) as H1.
  destruct (exec W m st) as [[[a|e|] s1] e1]; cbn in *; [discriminate| |exact H1].
  specialize (Hh e). destruct (h e) as [p|]; [|discriminate].
  pose proof (Hh s1) as H2.
  destruct (exec W p s1) as [[o s2] e2]. exact H2.
Qed.

Lemma until_loop_S {A} (fuel : nat) (end_time : Z) (method : Prog (option A)) :
  until_loop (S fuel) end_time method =
  (v ← try_except method
         (fun e => match e with
                   | NoSuchElementException => Some (Ret None)
                   | _ => None
                   end);
   match v with
   | Some a => Ret a
   | None =>
       t ← call TimeTime;
       if (end_time <? t)%Z then Raise TimeoutException
       else (call (Sleep 500);; until_loop fuel end_time method)
   end)%prog.
Proof. reflexivity. Qed.

(** [until] polls every half second, so the rounds that fit before the
    deadline are enough. *)
Lemma until_loop_terminates {A} (method : Prog (option A)) (end_time : Z) :
  terminates W method ->
  forall fuel st,
    (end_time - now st < 500 * Z.of_nat fuel)%Z ->
    (exec W (until_loop (S fuel) end_time method) st).1.1 <> OutOfFuel.
Proof.
  intros Hm fuel. induction fuel as [|fuel IH]; intros st Hf.
  all: rewrite until_loop_S, exec_bind.
  all: match goal with
       | |- context [exec W (try_except ?m ?h) ?s] =>
           assert (Hp : terminates W (try_except m h))
             by (apply terminates_try_except;
                 [exact Hm|intros []; try exact I; apply terminates_ret]);
           pose proof (Hp s) as H1;
           pose proof (exec_now W (try_except m h) s) as Hn;
           destruct (exec W (try_except m h) s) as [[[[a|]|e|] s1] e1]
       end; cbn in H1, Hn; [cbn; discriminate| |cbn; discriminate|contradiction].
  - cbn. destruct (Z.ltb_spec end_time (now s1)) as [Hlt|Hge]; [discriminate|].
    exfalso. lia.
  - rewrite exec_bind, exec_call. cbn [respond inside fst snd].
    destruct (Z.ltb_spec end_time (now s1)) as [Hlt|Hge]; [cbn; discriminate|].
    rewrite exec_bind, exec_call.
    destruct (respond_sleep W (elapse s1 0) 500) as [Hs|Hs]; rewrite Hs;
      cbn [fst snd]; [|cbn; discriminate].
    match goal with
    | |- context [exec W (until_loop (S fuel) end_time method) ?s] =>
        pose proof (IH s) as H2;
        destruct (exec W (until_loop (S fuel) end_time method) s) as [[o2 s2] e2]
    end.
    cbn in H2 |- *. apply H2.
    assert (0 <= lag W (elapse s1 0))%Z by (unfold lag; lia).
    lia.
Qed.

Lemma wait_until_terminates {A} (timeout : Z) (method : Prog (option A)) :
  terminates W method -> terminates W (wait_until timeout method).
Proof.
  intros Hm st. unfold wait_until. rewrite exec_bind, exec_call.
  cbn [respond inside fst snd]. rewrite rounds_S.
  match goal with
  | |- context [exec W ?p ?s] =>
      assert (H : (exec W p s).1.1 <> OutOfFuel);
      [|destruct (exec W p s) as [[o2 s2] e2]; exact H]
  end.
  apply until_loop_terminates; [exact Hm|]. cbn.
  pose proof (Z.div_mod timeout 500) as H1.
  pose proof (Z.mod_pos_bound timeout 500) as H2. lia.
Qed.

Ltac settle_step :=
  first
    [ assumption
    | exact I
    | apply terminates_ret
    | apply terminates_raise
    | apply terminates_call
    | apply wait_until_terminates
    | apply terminates_bind; [|intros ?]
    | apply terminates_try_except;
      [|intros ?; cbv beta delta [on_Exception on_any on_KeyboardInterrupt]]
    | match goal with
      | |- terminates _ ?p =>
          match p with context [match ?x with _ => _ end] => dig x end
      | |- match ?x with _ => _ end => dig x
      end
    | progress cbv zeta ].

Ltac settle := repeat settle_step.

Lemma dashboard_click_when_clickable_terminates (timeout : Z) (loc : By) :
  terminates W (Dashboard.click_when_clickable timeout loc).
Proof.
  unfold Dashboard.click_when_clickable, element_to_be_clickable, find_element.
  settle.
Qed.

Lemma dashboard_click_first_visible_terminates (bs : list handle) :
  terminates W (Dashboard.click_first_visible bs).
Proof.
  induction bs as [|b rest IH]; cbn [Dashboard.click_first_visible]; settle.
Qed.

Lemma dashboard_click_continue_terminates (timeout : Z) :
  terminates W (Dashboard.click_continue_button timeout).
Proof.
  unfold Dashboard.click_continue_button.
  pose proof dashboard_click_when_clickable_terminates.
  pose proof dashboard_click_first_visible_terminates.
  settle; auto.
Qed.

Lemma oauth_click_first_usable_terminates (btn : list handle) :
  terminates W (OAuth.click_first_usable btn).
Proof.
  induction btn as [|b rest IH]; cbn [OAuth.click_first_usable]; settle.
Qed.

Lemma oauth_click_continue_terminates : terminates W OAuth.click_continue.
Proof.
  unfold OAuth.click_continue, find_element.
  pose proof oauth_click_first_usable_terminates.
  settle; auto.
Qed.

End Terminates.

Lemma click_outcome_weaken (P P' : handle -> list Event -> Prop) (E : exn -> Prop)
    (evs : list Event) (o : outcome bool) :
  (forall h pre, P h pre -> P' h pre) ->
  click_outcome P E evs o -> click_outcome P' E evs o.
Proof.
  intros HP. destruct o as [[|]|e|]; cbn; auto.
  intros (pre & h & H1 & H2 & H3). exists pre, h. auto.
Qed.

(** One round of the [for b in btn] loop of the OAuth script. *)
Lemma oauth_click_if_usable (b : handle) :
  always any_world
    (try_except
       (d ← call (IsDisplayed b);
        if d : bool
        then (e ← call (IsEnabled b);
              if e : bool then (call (Click b);; Ret true) else Ret false)
        else Ret false)
       (on_Exception (fun _ => Ret false)))
    (fun evs o =>
       queries evs = [] /\ click_outcome is_checked beyond_Exception evs o).
Proof.
  cbn. wander.
  all: split; [reflexivity|]; try (split; [assumption|]); try reflexivity.
  destruct x1.
  exists [Ev (IsDisplayed b) (Ok true); Ev (IsEnabled b) (Ok true)], b.
  split; [reflexivity|]. split; [reflexivity|].
  unfold is_checked, checked. cbn. rewrite Nat.eqb_refl. reflexivity.
Qed.

(** The [for b in btn] loop of the OAuth script. *)
Lemma oauth_click_first_usable (btn : list handle) :
  always any_world (OAuth.click_first_usable btn)
    (fun evs o =>
       queries evs = [] /\ click_outcome is_checked beyond_Exception evs o).
Proof.
  induction btn as [|b rest IH]; cbn [OAuth.click_first_usable].
  - cbn. auto.
  - apply always_bind.
    eapply always_mono; [|apply oauth_click_if_usable].
    intros e1 o1 (Hq1 & Hc1). destruct o1 as [[|]|e|]; [| |auto|auto].
    + cbn. rewrite app_nil_r. auto.
    + eapply always_mono; [|exact IH].
      intros e2 o2 (Hq2 & Hc2). rewrite queries_app, Hq1, Hq2.
      split; [reflexivity|].
      apply click_outcome_later; [|exact Hc1|exact Hc2].
      intros h pre. apply is_checked_app_r.
Qed.

(** The first block of the continuation step of the OAuth script. *)
Lemma oauth_click_continue_labelled :
  always any_world
    (try_except
       (btn ← call (FindElements OAuth.XP_CONTINUE); OAuth.click_first_usable btn)
       (on_Exception (fun _ => Ret false)))
    (fun evs o =>
       queries evs = [OAuth.XP_CONTINUE] /\
       click_outcome is_checked beyond_Exception evs o).
Proof.
  apply always_try_except. cbn. intros [btn|e] _; cbn.
  - eapply always_mono; [|apply oauth_click_first_usable].
    intros e2 o2 (Hq2 & Hc2).
    assert (Hq : queries (Ev (FindElements OAuth.XP_CONTINUE) (Ok btn) :: e2)
                 = [OAuth.XP_CONTINUE]).
    { cbn. fold (queries e2). rewrite Hq2. reflexivity. }
    assert (Hc : forall o, click_outcome is_checked beyond_Exception e2 o ->
                 click_outcome is_checked beyond_Exception
                   (Ev (FindElements OAuth.XP_CONTINUE) (Ok btn) :: e2) o).
    { intros o. apply (click_outcome_later _ _ [_]); [|reflexivity].
      intros h pre. apply is_checked_app_r. }
    destruct o2 as [b|e|]; [auto| |auto].
    unfold on_Exception. destruct (is_Exception e) eqn:He.
    + cbn. rewrite app_nil_r. split; [exact Hq|].
      apply (Hc (Returns false)). apply Hc2.
    + auto.
  - unfold on_Exception. destruct (is_Exception e) eqn:He; cbn; auto.
Qed.

(** Its second block: the first submit button, clicked unchecked. *)
Lemma oauth_click_continue_submit :
  always any_world
    (try_except
       (btn ← find_element XP_SUBMIT; call (Click btn);; Ret true)
       (on_Exception (fun _ => Ret false)))
    (fun evs o =>
       queries evs = [XP_SUBMIT] /\
       click_outcome is_first_submit beyond_Exception evs o).
Proof.
  unfold find_element. cbn. wander.
  all: split; [reflexivity|]; try (split; [assumption|]); try reflexivity.
  match goal with x : unit |- _ => destruct x end.
  match goal with
  | |- ends_with_click _ [?a; Ev (Click ?h) _] => exists [a], h
  end.
  split; [reflexivity|]. split; [reflexivity|].
  unfold is_first_submit. cbn [existsb first_of].
  rewrite bool_decide_eq_true_2 by reflexivity.
  rewrite Nat.eqb_refl. reflexivity.
Qed.

(** The continuation step of the OAuth script: two locators in order, and a
    click that went through ends the step. *)
Lemma oauth_click_continue_stages :
  always any_world OAuth.click_continue
    (fun evs o =>
       (queries evs = [OAuth.XP_CONTINUE] \/
        queries evs = [OAuth.XP_CONTINUE; XP_SUBMIT]) /\
       click_outcome (fun h pre => is_checked h pre \/ is_first_submit h pre)
         beyond_Exception evs o).
Proof.
  unfold OAuth.click_continue. apply always_bind.
  eapply always_mono; [|apply oauth_click_continue_labelled].
  intros e1 o1 (Hq1 & Hc1). destruct o1 as [[|]|e|].
  - cbn. rewrite app_nil_r. split; [left; exact Hq1|].
    eapply (click_outcome_weaken _ _ _ _ (Returns true)); [|exact Hc1]. auto.
  - eapply always_mono; [|apply oauth_click_continue_submit].
    intros e2 o2 (Hq2 & Hc2). split.
    + right. rewrite queries_app, Hq1, Hq2. reflexivity.
    + apply click_outcome_later; [|exact Hc1|].
      * intros h pre [H|H]; [left; apply is_checked_app_r, H|right].
        unfold is_first_submit in *. rewrite existsb_app, H. apply orb_true_r.
      * eapply click_outcome_weaken; [|exact Hc2]. auto.
  - split; [left; exact Hq1|exact Hc1].
  - split; [left; exact Hq1|exact Hc1].
Qed.



(** * Further properties of the code *)

(** ** token_manager.py *)

Lemma io_fault_Exception (W : World) (st : St) {X} (op : Prim X) (e : exn) :
  io_fault W st op = Some e -> is_Exception e = true.
Proof.
  unfold io_fault. destruct (fault W (tick st) X op) as [e'|]; [|discriminate].
  destruct (is_Exception e') eqn:He; [|discriminate]. intros [= <-]. exact He.
Qed.

Ltac io_cases :=
  repeat match goal with
         | |- context [io_fault ?W ?s ?op] =>
             let H := fresh "Hio" in
             destruct (io_fault W s op) as [?|] eqn:H; cbn;
             [apply io_fault_Exception in H; try rewrite H; cbn|]
         end.

Lemma save_encrypted_token_files (W : World) (st : St) (client_id token : string) :
  match (exec W (TokenManager.save_encrypted_token client_id token) st).1.1 with
  | Returns _ =>
      exists key n,
        environ W !! "FERNET_KEY" = Some key /\ key <> "" /\
        files (exec W (TokenManager.save_encrypted_token client_id token) st).1.2
        = <[TokenManager.token_path client_id :=
              fernet_encrypt W key n (list_byte_of_string token)]> (files st)
  | Raises e =>
      is_Exception e = true /\
      files (exec W (TokenManager.save_encrypted_token client_id token) st).1.2
      = files st
  | OutOfFuel => False
  end.
Proof.
  unfold TokenManager.save_encrypted_token, TokenManager._get_fernet.
  destruct (environ W !! "FERNET_KEY") as [[|c k]|] eqn:Hk; cbn; rewrite Hk; cbn;
    [auto|idtac|auto].
  destruct (fernet_valid_key W (String c k)); cbn; [|auto].
  unfold io. io_cases; auto.
  all: unfold on_Exception; try rewrite Hio0; cbn.
  all: exists (String c k), (S (S (tick st))); auto.
Qed.


(** X2. [load_encrypted_token] only reads. What it returns is the plain
    text that the content of the user's token file decrypts to under the key
    of the environment; otherwise it raises an [Exception]; in every case
    the files are as before. *)
Theorem load_returns_what_decrypts (W : World) (st : St) (client_id : string) :
  match (exec W (TokenManager.load_encrypted_token client_id) st).1.1 with
  | Returns tok =>
      exists key c dec,
        environ W !! "FERNET_KEY" = Some key /\ key <> "" /\
        files st !! TokenManager.token_path client_id = Some c /\
        fernet_decrypt W key c = Some dec /\
        tok = string_of_list_byte dec
  | Raises e => is_Exception e = true
  | OutOfFuel => False
  end /\
  files (exec W (TokenManager.load_encrypted_token client_id) st).1.2 = files st.
Proof.
  unfold TokenManager.load_encrypted_token, TokenManager._get_fernet. cbn.
  destruct (files st !! TokenManager.token_path client_id) as [c|] eqn:Hf; cbn.
  2:{ auto. }
  destruct (environ W !! "FERNET_KEY") as [[|a k]|] eqn:Hk; cbn; [auto|idtac|auto].
  destruct (fernet_valid_key W (String a k)); cbn; [|auto].
  unfold io. io_cases; [auto|]. rewrite Hf. cbn.
  destruct (fernet_decrypt W (String a k) c) as [dec|] eqn:Hd; cbn; [|auto].
  split; [|reflexivity]. exists (String a k), c, dec. auto.
Qed.

(** X3. Without a token file for the user, [load_encrypted_token] raises
    [FileNotFoundError] with a message that names the user, before it looks
    for the key. *)
Theorem load_without_file (W : World) (st : St) (client_id : string) :
  files st !! TokenManager.token_path client_id = None ->
  (exec W (TokenManager.load_encrypted_token client_id) st).1.1
  = Raises (FileNotFoundError ("Encrypted token not found for client: " +:+ client_id)) /\
  (exec W (TokenManager.load_encrypted_token client_id) st).2
  = [Ev (PathExists (TokenManager.token_path client_id)) (Ok false)].
Proof.
  intros Hf. unfold TokenManager.load_encrypted_token. cbn. rewrite Hf. cbn. auto.
Qed.

Lemma load_without_file_witness :
  (exec Examples.store_world (TokenManager.load_encrypted_token "AB1234")
     Examples.start).1.1
  = Raises (FileNotFoundError "Encrypted token not found for client: AB1234") /\
  (exec Examples.store_world (TokenManager.load_encrypted_token "AB1234")
     Examples.start).2
  = [Ev (PathExists (TokenManager.token_path "AB1234")) (Ok false)].
Proof.
  apply (load_without_file Examples.store_world Examples.start "AB1234").
  reflexivity.
Defined.

(** X4. With [FERNET_KEY] unset or empty, [save_encrypted_token] raises
    [RuntimeError] after reading the environment only: nothing is encrypted
    and nothing written. [load_encrypted_token] on an existing token file
    raises the same error without reading the file. *)
Theorem no_key_no_store (W : World) (st : St) (client_id token : string) :
  truthy (environ W !! "FERNET_KEY") = false ->
  ((exec W (TokenManager.save_encrypted_token client_id token) st).1.1
   = Raises (RuntimeError "FERNET_KEY not set in environment") /\
   (exec W (TokenManager.save_encrypted_token client_id token) st).2
   = [Ev (Getenv "FERNET_KEY") (Ok (environ W !! "FERNET_KEY"))] /\
   files (exec W (TokenManager.save_encrypted_token client_id token) st).1.2
   = files st) /\
  (is_Some (files st !! TokenManager.token_path client_id) ->
   (exec W (TokenManager.load_encrypted_token client_id) st).1.1
   = Raises (RuntimeError "FERNET_KEY not set in environment") /\
   (exec W (TokenManager.load_encrypted_token client_id) st).2
   = [Ev (PathExists (TokenManager.token_path client_id)) (Ok true);
      Ev (Getenv "FERNET_KEY") (Ok (environ W !! "FERNET_KEY"))]).
Proof.
  intros Hk. split.
  - unfold TokenManager.save_encrypted_token, TokenManager._get_fernet. cbn.
    destruct (environ W !! "FERNET_KEY") as [[|a k]|]; try discriminate Hk; cbn; auto.
  - intros [c Hc].
    unfold TokenManager.load_encrypted_token, TokenManager._get_fernet. cbn.
    rewrite Hc. cbn.
    destruct (environ W !! "FERNET_KEY") as [[|a k]|]; try discriminate Hk; cbn; auto.
Qed.

Lemma no_key_no_store_witness :
  ((exec Examples.no_redirect_world (TokenManager.save_encrypted_token "AB1234" "tok")
      Examples.start).1.1
   = Raises (RuntimeError "FERNET_KEY not set in environment") /\
   (exec Examples.no_redirect_world (TokenManager.save_encrypted_token "AB1234" "tok")
      Examples.start).2
   = [Ev (Getenv "FERNET_KEY") (Ok (environ Examples.no_redirect_world !! "FERNET_KEY"))] /\
   files (exec Examples.no_redirect_world
            (TokenManager.save_encrypted_token "AB1234" "tok") Examples.start).1.2
   = files Examples.start) /\
  (is_Some (files Examples.start !! TokenManager.token_path "AB1234") ->
   (exec Examples.no_redirect_world (TokenManager.load_encrypted_token "AB1234")
      Examples.start).1.1
   = Raises (RuntimeError "FERNET_KEY not set in environment") /\
   (exec Examples.no_redirect_world (TokenManager.load_encrypted_token "AB1234")
      Examples.start).2
   = [Ev (PathExists (TokenManager.token_path "AB1234")) (Ok true);
      Ev (Getenv "FERNET_KEY") (Ok (environ Examples.no_redirect_world !! "FERNET_KEY"))]).
Proof.
  apply (no_key_no_store Examples.no_redirect_world Examples.start "AB1234" "tok").
  reflexivity.
Defined.

Lemma delete_encrypted_token_files (W : World) (st : St) (client_id : string) :
  match (exec W (TokenManager.delete_encrypted_token client_id) st).1.1 with
  | Returns _ =>
      files (exec W (TokenManager.delete_encrypted_token client_id) st).1.2
      = delete (TokenManager.token_path client_id) (files st) /\
      (exec W (TokenManager.load_encrypted_token client_id)
         (exec W (TokenManager.delete_encrypted_token client_id) st).1.2).1.1
      = Raises (FileNotFoundError
                  ("Encrypted token not found for client: " +:+ client_id))
  | Raises e =>
      is_Exception e = true /\
      is_Some (files st !! TokenManager.token_path client_id) /\
      files (exec W (TokenManager.delete_encrypted_token client_id) st).1.2 = files st
  | OutOfFuel => False
  end.
Proof.
  unfold TokenManager.delete_encrypted_token. cbn.
  destruct (files st !! TokenManager.token_path client_id) as [c|] eqn:Hf; cbn.
  - io_cases.
    + split; [reflexivity|]. split; [eauto|reflexivity].
    + rewrite Hf. cbn. split; [reflexivity|].
      unfold TokenManager.load_encrypted_token. cbn.
      rewrite lookup_delete_eq. cbn. reflexivity.
  - split.
    + symmetry. apply delete_id, Hf.
    + unfold TokenManager.load_encrypted_token. cbn. rewrite Hf. reflexivity.
Qed.

(** X5. [delete_encrypted_token] removes the user's token file and nothing
    else. It returns normally when the file is absent; when it raises, it
    raises an [Exception] and the files are as before. After it has
    returned, [load_encrypted_token] raises [FileNotFoundError]. *)
Theorem delete_removes_token (W : World) (st : St) (client_id : string) :
  match (exec W (TokenManager.delete_encrypted_token client_id) st).1.1 with
  | Returns _ =>
      files (exec W (TokenManager.delete_encrypted_token client_id) st).1.2
      = delete (TokenManager.token_path client_id) (files st) /\
      (exec W (TokenManager.load_encrypted_token client_id)
         (exec W (TokenManager.delete_encrypted_token client_id) st).1.2).1.1
      = Raises (FileNotFoundError
                  ("Encrypted token not found for client: " +:+ client_id))
  | Raises e =>
      is_Exception e = true /\
      is_Some (files st !! TokenManager.token_path client_id) /\
      files (exec W (TokenManager.delete_encrypted_token client_id) st).1.2 = files st
  | OutOfFuel => False
  end.
Proof. apply delete_encrypted_token_files. Qed.

Lemma length_append (a b : string) :
  String.length (a +:+ b) = (String.length a + String.length b)%nat.
Proof.
  induction a as [|c a IH]; [reflexivity|].
  change (S (String.length (a +:+ b)) = S (String.length a + String.length b)).
  f_equal. exact IH.
Qed.

Lemma append_inj_r (s a b : string) : a +:+ s = b +:+ s -> a = b.
Proof.
  revert b. induction a as [|c a IH]; intros [|d b] H.
  - reflexivity.
  - apply (f_equal String.length) in H. rewrite !length_append in H. cbn in H. lia.
  - apply (f_equal String.length) in H. rewrite !length_append in H. cbn in H. lia.
  - change (String c (a +:+ s) = String d (b +:+ s)) in H.
    injection H as -> H. f_equal. apply IH, H.
Qed.

Lemma token_path_inj (a b : string) :
  TokenManager.token_path a = TokenManager.token_path b -> a = b.
Proof.
  unfold TokenManager.token_path. intros H.
  apply String.app_inj, String.app_inj in H.
  apply append_inj_r in H. exact H.
Qed.

(** X6. The token files of two users are separate: for user names that are
    single path components, saving or deleting the token of one leaves the
    token file of the other as it is. *)
Theorem stores_are_separate (W : World) (st : St) (a b token : string) :
  contains "/" a = false ->
  contains "/" b = false ->
  a <> b ->
  files (exec W (TokenManager.save_encrypted_token a token) st).1.2
    !! TokenManager.token_path b
  = files st !! TokenManager.token_path b /\
  files (exec W (TokenManager.delete_encrypted_token a) st).1.2
    !! TokenManager.token_path b
  = files st !! TokenManager.token_path b.
Proof.
  intros _ _ Hab.
  assert (Hp : TokenManager.token_path a <> TokenManager.token_path b).
  { intros H. apply Hab, token_path_inj, H. }
  split.
  - pose proof (save_encrypted_token_files W st a token) as H.
    destruct (exec W (TokenManager.save_encrypted_token a token) st) as [[[[]|e|] s1] e1];
      cbn in *.
    + destruct H as (key & n & _ & _ & ->). apply lookup_insert_ne, Hp.
    + destruct H as [_ ->]. reflexivity.
    + contradiction.
  - pose proof (delete_encrypted_token_files W st a) as H.
    destruct (exec W (TokenManager.delete_encrypted_token a) st) as [[[[]|e|] s1] e1];
      cbn in *.
    + destruct H as [-> _]. apply lookup_delete_ne, Hp.
    + destruct H as (_ & _ & ->). reflexivity.
    + contradiction.
Qed.

Lemma stores_are_separate_witness :
  files (exec Examples.store_world (TokenManager.save_encrypted_token "AB1234" "tok")
           Examples.start).1.2
    !! TokenManager.token_path "CD5678"
  = files Examples.start !! TokenManager.token_path "CD5678" /\
  files (exec Examples.store_world (TokenManager.delete_encrypted_token "AB1234")
           Examples.start).1.2
    !! TokenManager.token_path "CD5678"
  = files Examples.start !! TokenManager.token_path "CD5678".
Proof.
  apply (stores_are_separate Examples.store_world Examples.start "AB1234" "CD5678" "tok");
    [reflexivity|reflexivity|discriminate].
Defined.

(** ** notify.py *)

Ltac env_cases k :=
  match goal with
  | W : World |- _ =>
      let H := fresh "Henv" in
      destruct (environ W !! k) as [[|? ?]|] eqn:H; cbn
  end.



(** ** The helpers of the two scripts *)



(** X10. A batch whose accounts file does not exist: the OAuth script logs
    that the file was not found, loads no account and ends normally without
    starting a browser; the dashboard script opens the file unguarded and
    ends with [FileNotFoundError]. *)
Theorem batch_without_accounts_file (W : World) (st : St) (cfg : Config) :
  truthy (API_KEY cfg) = true ->
  truthy (API_SECRET cfg) = true ->
  files st !! ACCOUNTS_CSV cfg = None ->
  (forall t, fault W t _ (ReadCsv (ACCOUNTS_CSV cfg)) = None) ->
  (outcome_of W (OAuth.main cfg) st = Returns tt /\
   events_of W (OAuth.main cfg) st
   = [Ev (PathExists (ACCOUNTS_CSV cfg)) (Ok false);
      Ev (Log ERROR ("Accounts CSV not found: " +:+ ACCOUNTS_CSV cfg)) (Ok tt);
      Ev (Log INFO "Loaded 0 accounts") (Ok tt)]) /\
  (outcome_of W (Dashboard.main cfg) st
   = Raises (FileNotFoundError (ACCOUNTS_CSV cfg)) /\
   events_of W (Dashboard.main cfg) st
   = [Ev (ReadCsv (ACCOUNTS_CSV cfg)) (Exc (FileNotFoundError (ACCOUNTS_CSV cfg)))]).
Proof.
  intros Hk Hs Hf Hr.
  unfold outcome_of, events_of, OAuth.main, Dashboard.main.
  rewrite Hk, Hs. cbn [negb orb].
  unfold OAuth.read_accounts, Dashboard.read_accounts. cbn.
  rewrite Hf. cbn. unfold io, io_fault. rewrite Hr, ?Hf. cbn. auto.
Qed.

Lemma batch_without_accounts_file_witness :
  (outcome_of Examples.no_redirect_world (OAuth.main Examples.config) Examples.start
   = Returns tt /\
   events_of Examples.no_redirect_world (OAuth.main Examples.config) Examples.start
   = [Ev (PathExists (ACCOUNTS_CSV Examples.config)) (Ok false);
      Ev (Log ERROR ("Accounts CSV not found: " +:+ ACCOUNTS_CSV Examples.config))
        (Ok tt);
      Ev (Log INFO "Loaded 0 accounts") (Ok tt)]) /\
  (outcome_of Examples.no_redirect_world (Dashboard.main Examples.config) Examples.start
   = Raises (FileNotFoundError (ACCOUNTS_CSV Examples.config)) /\
   events_of Examples.no_redirect_world (Dashboard.main Examples.config) Examples.start
   = [Ev (ReadCsv (ACCOUNTS_CSV Examples.config))
        (Exc (FileNotFoundError (ACCOUNTS_CSV Examples.config)))]).
Proof.
  apply (batch_without_accounts_file Examples.no_redirect_world Examples.start
           Examples.config); reflexivity.
Defined.

(** ** The attempt of the dashboard script *)

Section Takes.
Variable W : World.
Variable d : Z.

Lemma takes_ret_false : takes W (Ret false) d.
Proof. intros st H. discriminate H. Qed.

Lemma takes_bind {A} (m : Prog A) (f : A -> Prog bool) :
  (forall a, takes W (f a) d) -> takes W (bind m f) d.
Proof.
  intros Hf st. rewrite exec_bind.
  pose proof (exec_now W m st) as Hn.
  destruct (exec W m st) as [[[a|e|] s1] e1]; cbn in *; [|discriminate|discriminate].
  pose proof (Hf a s1) as H.
  destruct (exec W (f a) s1) as [[o s2] e2]. cbn in *.
  intros Ho. specialize (H Ho). lia.
Qed.

Lemma takes_try_except (m : Prog bool) (h : exn -> option (Prog bool)) :
  takes W m d ->
  (forall e, match h e with Some p => takes W p d | None => True end) ->
  takes W (try_except m h) d.
Proof.
  intros Hm Hh st. rewrite exec_try_except.
  pose proof (exec_now W m st) as Hn. pose proof (Hm st) as H1.
  destruct (exec W m st) as [[[a|e|] s1] e1]; cbn in *; [exact H1| |discriminate].
  specialize (Hh e). destruct (h e) as [p|]; [|discriminate].
  pose proof (Hh s1) as H2.
  destruct (exec W p s1) as [[o s2] e2]. cbn in *.
  intros Ho. specialize (H2 Ho). lia.
Qed.

End Takes.

Lemma dashboard_keep_alive_takes (W : World) :
  takes W (Dashboard.keep_alive;; Ret true) Dashboard.DAY.
Proof.
  intros st. rewrite exec_bind.
  destruct (dashboard_keep_alive W st) as [[H1 H2]|[H1 _]];
    destruct (exec W Dashboard.keep_alive st) as [[o s1] e1]; cbn in *; subst o; cbn.
  - intros _. exact H2.
  - discriminate.
Qed.

Lemma dashboard_after_locator_takes (W : World) (user_id totp_secret : string)
    (fields : list handle) :
  takes W (Dashboard.after_locator user_id totp_secret fields) Dashboard.DAY.
Proof.
  unfold Dashboard.after_locator.
  destruct fields as [|f fields].
  - repeat (apply takes_bind; intros ?). apply takes_ret_false.
  - apply takes_bind. intros otp. apply takes_bind. intros _.
    apply takes_bind. intros [|]; cbn [negb].
    + do 3 (apply takes_bind; intros ?). apply dashboard_keep_alive_takes.
    + repeat (apply takes_bind; intros ?). apply takes_ret_false.
Qed.

(** X11. An attempt of the dashboard script returns [True] only after its
    keep-alive ran the full 24 hours: the call blocks for at least a day, so
    in a batch the next account is not started before that. *)
Theorem dashboard_success_takes_a_day (W : World) (st : St)
    (user_id password totp_secret : string) :
  outcome_of W (Dashboard.perform_login_for_account user_id password totp_secret) st
  = Returns true ->
  (now st + 24 * 60 * 60 * 1000
   <= now (state_of W (Dashboard.perform_login_for_account user_id password totp_secret)
             st))%Z.
Proof.
  revert st.
  change (takes W (Dashboard.perform_login_for_account user_id password totp_secret)
            Dashboard.DAY).
  unfold Dashboard.perform_login_for_account.
  apply takes_bind. intros _. apply takes_try_except.
  - apply takes_bind. intros _. apply takes_bind. intros fields.
    apply dashboard_after_locator_takes.
  - intros e. unfold on_Exception. destruct (is_Exception e); [|exact I].
    repeat (apply takes_bind; intros ?). apply takes_ret_false.
Qed.

Lemma dashboard_success_takes_a_day_witness :
  (now Examples.start + 24 * 60 * 60 * 1000
   <= now (state_of Examples.no_redirect_world
             (Dashboard.perform_login_for_account "AB1234" "pw1" "SEED1")
             Examples.start))%Z.
Proof.
  apply (dashboard_success_takes_a_day Examples.no_redirect_world Examples.start
           "AB1234" "pw1" "SEED1").
  vm_compute. reflexivity.
Defined.

(** ** Fuel: every loop of the scripts ends within its rounds *)

Section Lasts.
Variable W : World.

Lemma terminates_lasts {A} (p : Prog A) (t : Z) : terminates W p -> lasts W p t.
Proof. intros H st _. apply H. Qed.

Lemma lasts_terminates {A} (p : Prog A) : (forall t, lasts W p t) -> terminates W p.
Proof. intros H st. apply (H (now st)). lia. Qed.

Lemma lasts_bind {A B} (m : Prog A) (f : A -> Prog B) (t : Z) :
  terminates W m -> (forall a, lasts W (f a) t) -> lasts W (bind m f) t.
Proof.
  intros Hm Hf st Ht. rewrite exec_bind.
  pose proof (Hm st) as H1. pose proof (exec_now W m st) as Hn.
  destruct (exec W m st) as [[[a|e|] s1] e1]; cbn in *; [|discriminate|contradiction].
  assert (H2 : (exec W (f a) s1).1.1 <> OutOfFuel) by (apply Hf; lia).
  destruct (exec W (f a) s1) as [[o s2] e2]. exact H2.
Qed.

Lemma lasts_time {A} (f : Z -> Prog A) (t : Z) :
  (forall t', (t <= t')%Z -> lasts W (f t') t') ->
  lasts W (bind (call TimeTime) f) t.
Proof.
  intros Hf st Ht. rewrite exec_bind, exec_call. cbn [respond inside fst snd].
  assert (H2 : (exec W (f (now st)) (elapse st 0)).1.1 <> OutOfFuel).
  { apply (Hf (now st) Ht). cbn. lia. }
  destruct (exec W (f (now st)) (elapse st 0)) as [[o s2] e2]. exact H2.
Qed.

Lemma lasts_sleep {A} (ms : Z) (k : Prog A) (t : Z) :
  (0 <= ms)%Z -> lasts W k (t + ms) -> lasts W (call (Sleep ms);; k) t.
Proof.
  intros Hd Hk st Ht. rewrite exec_bind, exec_call.
  destruct (respond_sleep W st ms) as [Hs|Hs]; rewrite Hs; cbn [fst snd];
    [|discriminate].
  assert (Hl : (0 <= lag W st)%Z) by (unfold lag; lia).
  assert (H2 : (exec W k (elapse st (Z.max 0 ms + lag W st))).1.1 <> OutOfFuel).
  { apply Hk. cbn. lia. }
  destruct (exec W k (elapse st (Z.max 0 ms + lag W st))) as [[o s2] e2]. exact H2.
Qed.

Lemma terminates_try_finally {A} (m : Prog A) (fin : Prog unit) :
  terminates W m -> terminates W fin -> terminates W (try_finally m fin).
Proof.
  intros Hm Hf st. rewrite exec_try_finally.
  pose proof (Hm st) as H1.
  destruct (exec W m st) as [[[a|e|] s1] e1]; cbn in *; [| |contradiction].
  all: pose proof (Hf s1) as H2;
    destruct (exec W fin s1) as [[[[]|e'|] s2] e2]; cbn in *;
    [discriminate|discriminate|contradiction].
Qed.

Lemma rounds_enough (timeout interval : Z) :
  (0 < interval)%Z ->
  (timeout < interval * Z.of_nat (S (Z.to_nat (timeout / interval))))%Z.
Proof.
  intros Hi.
  pose proof (Z.div_mod timeout interval) as H1.
  pose proof (Z.mod_pos_bound timeout interval Hi) as H2.
  assert (H3 : (timeout / interval <= Z.of_nat (Z.to_nat (timeout / interval)))%Z) by lia.
  nia.
Qed.

End Lasts.

Ltac halt_step :=
  first
    [ assumption
    | exact I
    | apply terminates_ret
    | apply terminates_raise
    | apply terminates_call
    | apply wait_until_terminates
    | solve [auto with halt]
    | apply terminates_bind; [|intros ?]
    | apply terminates_try_except;
      [|intros ?; cbv beta delta [on_Exception on_any on_KeyboardInterrupt]]
    | apply terminates_try_finally
    | match goal with
      | |- terminates _ ?p =>
          match p with context [match ?x with _ => _ end] => dig x end
      | |- match ?x with _ => _ end => dig x
      end
    | progress cbv zeta ].

Ltac halt := repeat halt_step.

Create HintDb halt.

Lemma displayed_and_enabled_terminates (W : World) (cand : list handle) :
  terminates W (displayed_and_enabled cand).
Proof. induction cand as [|e rest IH]; cbn [displayed_and_enabled]; halt. Qed.
#[export] Hint Resolve displayed_and_enabled_terminates : halt.

Lemma displayed_only_terminates (W : World) (cand : list handle) :
  terminates W (displayed_only cand).
Proof. induction cand as [|e rest IH]; cbn [displayed_only]; halt. Qed.
#[export] Hint Resolve displayed_only_terminates : halt.

Lemma oauth_find_otp_loop_S (fuel : nat) (end_ : Z) :
  OAuth.find_otp_loop (S fuel) end_ =
  (t ← call TimeTime;
   if (t <? end_)%Z then
     or_else (OAuth.probe_id ID_TOTP)
       (or_else (OAuth.probe_id ID_PIN)
          (or_else OAuth.probe_split
             (or_else OAuth.probe_fallback
                (call (Sleep 400);; OAuth.find_otp_loop fuel end_))))
   else Ret [])%prog.
Proof. reflexivity. Qed.

Lemma oauth_find_otp_loop_lasts (W : World) (end_ : Z) (fuel : nat) (t : Z) :
  (end_ - t < 400 * Z.of_nat fuel)%Z ->
  lasts W (OAuth.find_otp_loop (S fuel) end_) t.
Proof.
  revert t. induction fuel as [|fuel IH]; intros t Hf.
  all: rewrite oauth_find_otp_loop_S; apply lasts_time; intros t' Ht'.
  all: destruct (Z.ltb_spec t' end_) as [Hlt|Hge];
    [|apply terminates_lasts, terminates_ret].
  - exfalso. lia.
  - unfold or_else.
    apply lasts_bind; [unfold OAuth.probe_id; halt|].
    intros [l|]; [apply terminates_lasts, terminates_ret|].
    apply lasts_bind; [unfold OAuth.probe_id; halt|].
    intros [l|]; [apply terminates_lasts, terminates_ret|].
    apply lasts_bind; [unfold OAuth.probe_split; halt|].
    intros [l|]; [apply terminates_lasts, terminates_ret|].
    apply lasts_bind; [unfold OAuth.probe_fallback; halt|].
    intros [l|]; [apply terminates_lasts, terminates_ret|].
    apply lasts_sleep; [lia|]. apply IH. lia.
Qed.

Lemma oauth_find_otp_fields_terminates (W : World) (timeout : Z) :
  terminates W (OAuth.find_otp_fields timeout).
Proof.
  apply lasts_terminates. intros t. unfold OAuth.find_otp_fields.
  apply lasts_time. intros t' _. rewrite rounds_S.
  apply oauth_find_otp_loop_lasts.
  pose proof (rounds_enough timeout 400). lia.
Qed.
#[export] Hint Resolve oauth_find_otp_fields_terminates : halt.

Lemma oauth_poll_loop_S (fuel : nat) (end_ : Z) :
  OAuth.poll_loop (S fuel) end_ =
  (t ← call TimeTime;
   if (t <? end_)%Z then
     cur ← try_except (call CurrentUrl) (on_Exception (fun _ => Ret ""));
     if contains MARKER cur then
       rt ← call (QueryParam cur "request_token");
       status ← call (QueryParam cur "status");
       Ret (rt, status, cur)
     else (call (Sleep 500);; OAuth.poll_loop fuel end_)
   else (cur ← call CurrentUrl; Ret (None, None, cur)))%prog.
Proof. reflexivity. Qed.

Lemma oauth_poll_loop_lasts (W : World) (end_ : Z) (fuel : nat) (t : Z) :
  (end_ - t < 500 * Z.of_nat fuel)%Z ->
  lasts W (OAuth.poll_loop (S fuel) end_) t.
Proof.
  revert t. induction fuel as [|fuel IH]; intros t Hf.
  all: rewrite oauth_poll_loop_S; apply lasts_time; intros t' Ht'.
  all: destruct (Z.ltb_spec t' end_) as [Hlt|Hge];
    [|apply terminates_lasts; halt].
  - exfalso. lia.
  - apply lasts_bind; [halt|]. intros cur.
    destruct (contains MARKER cur); [apply terminates_lasts; halt|].
    apply lasts_sleep; [lia|]. apply IH. lia.
Qed.

Lemma oauth_wait_for_request_token_terminates (W : World) (timeout : Z) :
  terminates W (OAuth.wait_for_request_token timeout).
Proof.
  apply lasts_terminates. intros t. unfold OAuth.wait_for_request_token.
  apply lasts_time. intros t' _. rewrite rounds_S.
  apply oauth_poll_loop_lasts.
  pose proof (rounds_enough timeout 500). lia.
Qed.
#[export] Hint Resolve oauth_wait_for_request_token_terminates : halt.

Lemma dashboard_poll_loop_S (fuel : nat) (end_ : Z) :
  Dashboard.poll_loop (S fuel) end_ =
  (t ← call TimeTime;
   if (t <? end_)%Z then
     u ← try_except (call CurrentUrl) (on_any (Ret ""));
     if contains MARKER u then
       rt ← call (QueryParam u "request_token");
       status ← call (QueryParam u "status");
       Ret (rt, status, u)
     else (call (Sleep 500);; Dashboard.poll_loop fuel end_)
   else (u ← call CurrentUrl; Ret (None, None, u)))%prog.
Proof. reflexivity. Qed.

Lemma dashboard_poll_loop_lasts (W : World) (end_ : Z) (fuel : nat) (t : Z) :
  (end_ - t < 500 * Z.of_nat fuel)%Z ->
  lasts W (Dashboard.poll_loop (S fuel) end_) t.
Proof.
  revert t. induction fuel as [|fuel IH]; intros t Hf.
  all: rewrite dashboard_poll_loop_S; apply lasts_time; intros t' Ht'.
  all: destruct (Z.ltb_spec t' end_) as [Hlt|Hge];
    [|apply terminates_lasts; halt].
  - exfalso. lia.
  - apply lasts_bind; [halt|]. intros cur.
    destruct (contains MARKER cur); [apply terminates_lasts; halt|].
    apply lasts_sleep; [lia|]. apply IH. lia.
Qed.

Lemma dashboard_wait_for_request_token_terminates (W : World) (timeout : Z) :
  terminates W (Dashboard.wait_for_request_token timeout).
Proof.
  apply lasts_terminates. intros t. unfold Dashboard.wait_for_request_token.
  apply lasts_time. intros t' _. rewrite rounds_S.
  apply dashboard_poll_loop_lasts.
  pose proof (rounds_enough timeout 500). lia.
Qed.
#[export] Hint Resolve dashboard_wait_for_request_token_terminates : halt.

Lemma dashboard_probe_all_terminates (W : World) : terminates W Dashboard.probe_all.
Proof.
  unfold Dashboard.probe_all, Dashboard.probe_by_id, Dashboard.probe_split,
    Dashboard.probe_numeric, Dashboard.probe_password.
  halt.
Qed.

Lemma dashboard_find_otp_loop_S (fuel : nat) (end_ : Z) :
  Dashboard.find_otp_loop (S fuel) end_ =
  (t ← call TimeTime;
   if (t <? end_)%Z then
     or_else Dashboard.probe_all (call (Sleep 300);; Dashboard.find_otp_loop fuel end_)
   else Ret [])%prog.
Proof. reflexivity. Qed.

Lemma dashboard_find_otp_loop_lasts (W : World) (end_ : Z) (fuel : nat) (t : Z) :
  (end_ - t < 300 * Z.of_nat fuel)%Z ->
  lasts W (Dashboard.find_otp_loop (S fuel) end_) t.
Proof.
  revert t. induction fuel as [|fuel IH]; intros t Hf.
  all: rewrite dashboard_find_otp_loop_S; apply lasts_time; intros t' Ht'.
  all: destruct (Z.ltb_spec t' end_) as [Hlt|Hge];
    [|apply terminates_lasts, terminates_ret].
  - exfalso. lia.
  - unfold or_else.
    apply lasts_bind; [apply dashboard_probe_all_terminates|].
    intros [l|]; [apply terminates_lasts, terminates_ret|].
    apply lasts_sleep; [lia|]. apply IH. lia.
Qed.

Lemma dashboard_find_otp_fields_terminates (W : World) (timeout : Z) :
  terminates W (Dashboard.find_otp_fields timeout).
Proof.
  apply lasts_terminates. intros t. unfold Dashboard.find_otp_fields.
  apply lasts_time. intros t' _. rewrite rounds_S.
  apply dashboard_find_otp_loop_lasts.
  pose proof (rounds_enough timeout 300). lia.
Qed.
#[export] Hint Resolve dashboard_find_otp_fields_terminates : halt.

Lemma oauth_enter_split_terminates (W : World) (otp : list string)
    (fields : list handle) (i : nat) :
  terminates W (OAuth.enter_split i otp fields).
Proof.
  revert i. induction otp as [|ch rest IH]; intros i; cbn [OAuth.enter_split];
    unfold attempt; halt.
Qed.
#[export] Hint Resolve oauth_enter_split_terminates : halt.

Lemma oauth_enter_otp_terminates (W : World) (otp : string) (fields : list handle) :
  terminates W (OAuth.enter_otp otp fields).
Proof. unfold OAuth.enter_otp, attempt. halt. Qed.
#[export] Hint Resolve oauth_enter_otp_terminates : halt.

Lemma dashboard_enter_split_terminates (W : World) (otp : list string)
    (fields : list handle) (i : nat) :
  terminates W (Dashboard.enter_split i otp fields).
Proof.
  revert i. induction otp as [|ch rest IH]; intros i; cbn [Dashboard.enter_split];
    unfold attempt_any; halt.
Qed.
#[export] Hint Resolve dashboard_enter_split_terminates : halt.

Lemma dashboard_enter_otp_terminates (W : World) (otp : string)
    (fields : list handle) :
  terminates W (Dashboard.enter_otp_into_fields otp fields).
Proof. unfold Dashboard.enter_otp_into_fields, attempt_any. halt. Qed.
#[export] Hint Resolve dashboard_enter_otp_terminates : halt.

#[export] Hint Resolve dashboard_click_continue_terminates : halt.
#[export] Hint Resolve oauth_click_continue_terminates : halt.

Lemma oauth_keep_alive_terminates (W : World) (cfg : Config) :
  terminates W (OAuth.keep_alive cfg).
Proof.
  intros st. destruct (oauth_keep_alive W cfg st) as [H _]. rewrite H. discriminate.
Qed.
#[export] Hint Resolve oauth_keep_alive_terminates : halt.

Lemma dashboard_keep_alive_terminates (W : World) : terminates W Dashboard.keep_alive.
Proof.
  intros st. destruct (dashboard_keep_alive W st) as [[H _]|[H _]]; rewrite H;
    discriminate.
Qed.
#[export] Hint Resolve dashboard_keep_alive_terminates : halt.

Lemma send_email_terminates (W : World) (subject body : string) :
  terminates W (send_email subject body).
Proof. unfold send_email. halt. Qed.
#[export] Hint Resolve send_email_terminates : halt.

Lemma oauth_screenshot_terminates (W : World) (name_prefix : string) :
  terminates W (OAuth.screenshot name_prefix).
Proof. unfold OAuth.screenshot. halt. Qed.
#[export] Hint Resolve oauth_screenshot_terminates : halt.

Lemma dashboard_screenshot_terminates (W : World) (name_prefix : string) :
  terminates W (Dashboard.screenshot name_prefix).
Proof. unfold Dashboard.screenshot, attempt. halt. Qed.
#[export] Hint Resolve dashboard_screenshot_terminates : halt.

Lemma find_element_terminates (W : World) (loc : By) : terminates W (find_element loc).
Proof. unfold find_element. halt. Qed.
#[export] Hint Resolve find_element_terminates : halt.

Lemma presence_terminates (W : World) (loc : By) :
  terminates W (presence_of_element_located loc).
Proof. unfold presence_of_element_located. halt. Qed.
#[export] Hint Resolve presence_terminates : halt.

Lemma save_encrypted_token_terminates (W : World) (client_id token : string) :
  terminates W (TokenManager.save_encrypted_token client_id token).
Proof.
  unfold TokenManager.save_encrypted_token, TokenManager._get_fernet, attempt. halt.
Qed.
#[export] Hint Resolve save_encrypted_token_terminates : halt.

Lemma oauth_attempt_terminates (W : World) (cfg : Config)
    (user_id password totp_secret : string) :
  terminates W (OAuth.perform_oauth_login cfg user_id password totp_secret).
Proof.
  unfold OAuth.perform_oauth_login, try_or_return, OAuth.open_browser,
    OAuth.on_failure, OAuth.submit_credentials, OAuth.after_locator,
    OAuth.dashboard_probe, OAuth.exchange_and_store, OAuth.store_and_finish,
    try_or_return, attempt.
  halt.
Qed.

Lemma dashboard_attempt_terminates (W : World)
    (user_id password totp_secret : string) :
  terminates W (Dashboard.perform_login_for_account user_id password totp_secret).
Proof.
  unfold Dashboard.perform_login_for_account, Dashboard.open_browser,
    Dashboard.submit_credentials, Dashboard.after_locator.
  halt.
Qed.

(** ** What the code between starting and closing the browser does *)

Lemma lifecycle_app (e1 e2 : list Event) :
  lifecycle (e1 ++ e2) = lifecycle e1 ++ lifecycle e2.
Proof. apply omap_app. Qed.

Create HintDb steady.

Section Steady.
Variable adm : answers.
Variable E : exn -> Prop.
Hypothesis HE : lets_through adm E.

Lemma steady_ret {A} (a : A) : steady adm E (Ret a).
Proof. split; [reflexivity|discriminate]. Qed.

Lemma steady_raise {A} (e : exn) : is_Exception e = true -> steady adm E (@Raise A e).
Proof.
  intros He. split; [reflexivity|]. intros e' [= <-]. apply HE, He.
Qed.

Lemma steady_starve {A} : steady adm E (@Starve A).
Proof. split; [reflexivity|discriminate]. Qed.

Lemma steady_call {X} (op : Prim X) :
  (forall r, lifecycle [Ev op r] = []) -> steady adm E (call op).
Proof.
  intros H. apply always_call. intros [x|e] Hr; (split; [apply H|]).
  - discriminate.
  - intros e' [= <-]. destruct HE as [H1 _]. exact (H1 _ _ _ Hr).
Qed.

Lemma steady_bind {A B} (m : Prog A) (f : A -> Prog B) :
  steady adm E m -> (forall a, steady adm E (f a)) -> steady adm E (bind m f).
Proof.
  intros Hm Hf. apply always_bind.
  eapply always_mono; [|exact Hm].
  intros e1 [a|e|] [H1 H1']; [| |split; [exact H1|discriminate]].
  - eapply always_mono; [|exact (Hf a)].
    intros e2 o [H2 H2']. rewrite lifecycle_app, H1, H2. auto.
  - split; [exact H1|]. intros e' [= <-]. apply H1'. reflexivity.
Qed.

Lemma steady_try_except {A} (m : Prog A) (h : exn -> option (Prog A)) :
  steady adm E m ->
  (forall e, match h e with Some p => steady adm E p | None => True end) ->
  steady adm E (try_except m h).
Proof.
  intros Hm Hh. apply always_try_except.
  eapply always_mono; [|exact Hm].
  intros e1 [a|e|] [H1 H1']; [split; [exact H1|discriminate]|
                              |split; [exact H1|discriminate]].
  specialize (Hh e). destruct (h e) as [p|]; [|split; [exact H1|exact H1']].
  eapply always_mono; [|exact Hh].
  intros e2 o [H2 H2']. rewrite lifecycle_app, H1, H2. auto.
Qed.

Ltac calm_step :=
  first
    [ assumption
    | exact I
    | apply steady_ret
    | apply steady_starve
    | apply steady_raise; reflexivity
    | solve [auto with steady]
    | apply steady_call; intros [?|?]; reflexivity
    | apply steady_bind; [|intros ?]
    | apply steady_try_except;
      [|intros ?; cbv beta delta [on_Exception on_any on_KeyboardInterrupt]]
    | match goal with
      | |- steady _ _ ?p =>
          match p with context [match ?x with _ => _ end] => dig x end
      | |- match ?x with _ => _ end => dig x
      end
    | progress cbv zeta ].

Ltac calmly := repeat calm_step.

Lemma steady_find_element (loc : By) : steady adm E (find_element loc).
Proof. unfold find_element. calmly. Qed.
#[local] Hint Resolve steady_find_element : steady.

Lemma steady_presence (loc : By) : steady adm E (presence_of_element_located loc).
Proof. unfold presence_of_element_located. calmly. Qed.
#[local] Hint Resolve steady_presence : steady.

Lemma steady_clickable (loc : By) : steady adm E (element_to_be_clickable loc).
Proof. unfold element_to_be_clickable. calmly. Qed.
#[local] Hint Resolve steady_clickable : steady.

Lemma steady_until_loop {A} (fuel : nat) (end_time : Z) (method : Prog (option A)) :
  steady adm E method -> steady adm E (until_loop fuel end_time method).
Proof.
  intros Hm. induction fuel as [|fuel IH]; cbn [until_loop]; calmly.
Qed.

Lemma steady_wait_until {A} (timeout : Z) (method : Prog (option A)) :
  steady adm E method -> steady adm E (wait_until timeout method).
Proof.
  intros Hm. unfold wait_until. calmly. apply steady_until_loop, Hm.
Qed.
#[local] Hint Resolve steady_wait_until : steady.

Lemma steady_displayed_and_enabled (cand : list handle) :
  steady adm E (displayed_and_enabled cand).
Proof. induction cand as [|e rest IH]; cbn [displayed_and_enabled]; calmly. Qed.
#[local] Hint Resolve steady_displayed_and_enabled : steady.

Lemma steady_displayed_only (cand : list handle) : steady adm E (displayed_only cand).
Proof. induction cand as [|e rest IH]; cbn [displayed_only]; calmly. Qed.
#[local] Hint Resolve steady_displayed_only : steady.

Lemma steady_send_email (subject body : string) : steady adm E (send_email subject body).
Proof. unfold send_email. calmly. Qed.
#[local] Hint Resolve steady_send_email : steady.

Lemma steady_save (client_id token : string) :
  steady adm E (TokenManager.save_encrypted_token client_id token).
Proof.
  unfold TokenManager.save_encrypted_token, TokenManager._get_fernet, attempt. calmly.
Qed.
#[local] Hint Resolve steady_save : steady.

Lemma oauth_screenshot_steady (name_prefix : string) :
  steady adm E (OAuth.screenshot name_prefix).
Proof. unfold OAuth.screenshot. calmly. Qed.
#[local] Hint Resolve oauth_screenshot_steady : steady.

Lemma oauth_probe_id_steady (loc : By) : steady adm E (OAuth.probe_id loc).
Proof. unfold OAuth.probe_id. calmly. Qed.
#[local] Hint Resolve oauth_probe_id_steady : steady.

Lemma oauth_probe_split_steady : steady adm E OAuth.probe_split.
Proof. unfold OAuth.probe_split. calmly. Qed.
#[local] Hint Resolve oauth_probe_split_steady : steady.

Lemma oauth_probe_fallback_steady : steady adm E OAuth.probe_fallback.
Proof. unfold OAuth.probe_fallback. calmly. Qed.
#[local] Hint Resolve oauth_probe_fallback_steady : steady.

Lemma oauth_find_otp_loop_steady (fuel : nat) (end_ : Z) :
  steady adm E (OAuth.find_otp_loop fuel end_).
Proof.
  induction fuel as [|fuel IH]; cbn [OAuth.find_otp_loop]; unfold or_else; calmly.
Qed.
#[local] Hint Resolve oauth_find_otp_loop_steady : steady.

Lemma oauth_find_otp_fields_steady (timeout : Z) :
  steady adm E (OAuth.find_otp_fields timeout).
Proof. unfold OAuth.find_otp_fields. calmly. Qed.
#[local] Hint Resolve oauth_find_otp_fields_steady : steady.

Lemma oauth_enter_split_steady (otp : list string) (fields : list handle) (i : nat) :
  steady adm E (OAuth.enter_split i otp fields).
Proof.
  revert i. induction otp as [|ch rest IH]; intros i; cbn [OAuth.enter_split];
    unfold attempt; calmly.
Qed.
#[local] Hint Resolve oauth_enter_split_steady : steady.

Lemma oauth_enter_otp_steady (otp : string) (fields : list handle) :
  steady adm E (OAuth.enter_otp otp fields).
Proof. unfold OAuth.enter_otp, attempt. calmly. Qed.
#[local] Hint Resolve oauth_enter_otp_steady : steady.

Lemma oauth_poll_loop_steady (fuel : nat) (end_ : Z) :
  steady adm E (OAuth.poll_loop fuel end_).
Proof. induction fuel as [|fuel IH]; cbn [OAuth.poll_loop]; calmly. Qed.
#[local] Hint Resolve oauth_poll_loop_steady : steady.

Lemma oauth_wait_for_request_token_steady (timeout : Z) :
  steady adm E (OAuth.wait_for_request_token timeout).
Proof. unfold OAuth.wait_for_request_token. calmly. Qed.
#[local] Hint Resolve oauth_wait_for_request_token_steady : steady.

Lemma oauth_click_first_usable_steady (btn : list handle) :
  steady adm E (OAuth.click_first_usable btn).
Proof. induction btn as [|b rest IH]; cbn [OAuth.click_first_usable]; calmly. Qed.
#[local] Hint Resolve oauth_click_first_usable_steady : steady.

Lemma oauth_click_continue_steady : steady adm E OAuth.click_continue.
Proof. unfold OAuth.click_continue. calmly. Qed.
#[local] Hint Resolve oauth_click_continue_steady : steady.

Lemma oauth_heartbeat_loop_steady (fuel : nat) (expiry : Z) :
  steady adm E (OAuth.heartbeat_loop fuel expiry).
Proof.
  induction fuel as [|fuel IH]; cbn [OAuth.heartbeat_loop]; unfold attempt; calmly.
Qed.
#[local] Hint Resolve oauth_heartbeat_loop_steady : steady.

Lemma oauth_keep_alive_steady (cfg : Config) : steady adm E (OAuth.keep_alive cfg).
Proof. unfold OAuth.keep_alive. calmly. Qed.
#[local] Hint Resolve oauth_keep_alive_steady : steady.

Lemma oauth_submit_credentials_steady (user_id password login_url : string) :
  steady adm E (OAuth.submit_credentials user_id password login_url).
Proof. unfold OAuth.submit_credentials. calmly. Qed.
#[local] Hint Resolve oauth_submit_credentials_steady : steady.

Lemma oauth_after_locator_steady (cfg : Config) (user_id totp_secret : string)
    (fields : list handle) :
  steady adm E (OAuth.after_locator cfg user_id totp_secret fields).
Proof.
  unfold OAuth.after_locator, OAuth.dashboard_probe, OAuth.exchange_and_store,
    OAuth.store_and_finish, try_or_return.
  calmly.
Qed.
#[local] Hint Resolve oauth_after_locator_steady : steady.

Lemma oauth_on_failure_steady (user_id : string) (driver : bool) (e : exn) :
  match OAuth.on_failure user_id driver e with
  | Some p => steady adm E p
  | None => True
  end.
Proof. unfold OAuth.on_failure, attempt. calmly. Qed.

Lemma dashboard_screenshot_steady (name_prefix : string) :
  steady adm E (Dashboard.screenshot name_prefix).
Proof. unfold Dashboard.screenshot, attempt. calmly. Qed.
#[local] Hint Resolve dashboard_screenshot_steady : steady.

Lemma dashboard_probe_all_steady : steady adm E Dashboard.probe_all.
Proof.
  unfold Dashboard.probe_all, Dashboard.probe_by_id, Dashboard.probe_split,
    Dashboard.probe_numeric, Dashboard.probe_password.
  calmly.
Qed.
#[local] Hint Resolve dashboard_probe_all_steady : steady.

Lemma dashboard_find_otp_loop_steady (fuel : nat) (end_ : Z) :
  steady adm E (Dashboard.find_otp_loop fuel end_).
Proof.
  induction fuel as [|fuel IH]; cbn [Dashboard.find_otp_loop]; unfold or_else; calmly.
Qed.
#[local] Hint Resolve dashboard_find_otp_loop_steady : steady.

Lemma dashboard_find_otp_fields_steady (timeout : Z) :
  steady adm E (Dashboard.find_otp_fields timeout).
Proof. unfold Dashboard.find_otp_fields. calmly. Qed.
#[local] Hint Resolve dashboard_find_otp_fields_steady : steady.

Lemma dashboard_enter_split_steady (otp : list string) (fields : list handle)
    (i : nat) :
  steady adm E (Dashboard.enter_split i otp fields).
Proof.
  revert i. induction otp as [|ch rest IH]; intros i; cbn [Dashboard.enter_split];
    unfold attempt_any; calmly.
Qed.
#[local] Hint Resolve dashboard_enter_split_steady : steady.

Lemma dashboard_enter_otp_steady (otp : string) (fields : list handle) :
  steady adm E (Dashboard.enter_otp_into_fields otp fields).
Proof. unfold Dashboard.enter_otp_into_fields, attempt_any. calmly. Qed.
#[local] Hint Resolve dashboard_enter_otp_steady : steady.

Lemma dashboard_poll_loop_steady (fuel : nat) (end_ : Z) :
  steady adm E (Dashboard.poll_loop fuel end_).
Proof. induction fuel as [|fuel IH]; cbn [Dashboard.poll_loop]; calmly. Qed.
#[local] Hint Resolve dashboard_poll_loop_steady : steady.

Lemma dashboard_wait_for_request_token_steady (timeout : Z) :
  steady adm E (Dashboard.wait_for_request_token timeout).
Proof. unfold Dashboard.wait_for_request_token. calmly. Qed.
#[local] Hint Resolve dashboard_wait_for_request_token_steady : steady.

Lemma dashboard_click_first_visible_steady (bs : list handle) :
  steady adm E (Dashboard.click_first_visible bs).
Proof. induction bs as [|b rest IH]; cbn [Dashboard.click_first_visible]; calmly. Qed.
#[local] Hint Resolve dashboard_click_first_visible_steady : steady.

Lemma dashboard_click_continue_steady (timeout : Z) :
  steady adm E (Dashboard.click_continue_button timeout).
Proof.
  unfold Dashboard.click_continue_button, Dashboard.click_when_clickable. calmly.
Qed.
#[local] Hint Resolve dashboard_click_continue_steady : steady.

Lemma dashboard_heartbeat_loop_steady (fuel : nat) (end_time : Z) :
  steady adm E (Dashboard.heartbeat_loop fuel end_time).
Proof.
  induction fuel as [|fuel IH]; cbn [Dashboard.heartbeat_loop]; unfold attempt_any;
    calmly.
Qed.
#[local] Hint Resolve dashboard_heartbeat_loop_steady : steady.

Lemma dashboard_keep_alive_steady : steady adm E Dashboard.keep_alive.
Proof. unfold Dashboard.keep_alive. calmly. Qed.
#[local] Hint Resolve dashboard_keep_alive_steady : steady.

Lemma dashboard_body_steady (user_id password totp_secret : string) :
  steady adm E
    (try_except
       (Dashboard.submit_credentials user_id password;;
        fields ← Dashboard.find_otp_fields 15000;
        Dashboard.after_locator user_id totp_secret fields)
       (on_Exception
          (fun e =>
             log_error ("Error: " +:+ str_exn e);;
             Dashboard.screenshot ("exception_" +:+ user_id);;
             Ret false))).
Proof.
  unfold Dashboard.submit_credentials, Dashboard.after_locator. calmly.
Qed.

Lemma oauth_read_rows_steady (reader : list (gmap string string))
    (rows : list (string * string * string)) :
  steady adm E (OAuth.read_rows reader rows).
Proof.
  revert rows. induction reader as [|r rest IH]; intros rows; cbn [OAuth.read_rows];
    calmly.
Qed.
#[local] Hint Resolve oauth_read_rows_steady : steady.

Lemma oauth_read_accounts_steady (file_path : string) :
  steady adm E (OAuth.read_accounts file_path).
Proof. unfold OAuth.read_accounts. calmly. Qed.

Lemma dashboard_read_rows_steady (reader : list (gmap string string))
    (rows : list (string * string * string)) :
  steady adm E (Dashboard.read_rows reader rows).
Proof.
  revert rows. induction reader as [|r rest IH]; intros rows;
    cbn [Dashboard.read_rows]; unfold Dashboard.getitem; calmly.
Qed.
#[local] Hint Resolve dashboard_read_rows_steady : steady.

Lemma dashboard_read_accounts_steady (fp : string) :
  steady adm E (Dashboard.read_accounts fp).
Proof. unfold Dashboard.read_accounts. calmly. Qed.

Lemma oauth_steps_steady (cfg : Config) (user_id password totp_secret login_url : string) :
  steady adm E
    (OAuth.submit_credentials user_id password login_url;;
     fields ← OAuth.find_otp_fields 18000;
     OAuth.after_locator cfg user_id totp_secret fields).
Proof. calmly. Qed.

Lemma dashboard_steps_steady (user_id password totp_secret : string) :
  steady adm E
    (Dashboard.submit_credentials user_id password;;
     fields ← Dashboard.find_otp_fields 15000;
     Dashboard.after_locator user_id totp_secret fields).
Proof. unfold Dashboard.submit_credentials, Dashboard.after_locator. calmly. Qed.

Lemma oauth_body_steady (cfg : Config) (user_id password totp_secret login_url : string) :
  steady adm E
    (try_except
       (OAuth.submit_credentials user_id password login_url;;
        fields ← OAuth.find_otp_fields 18000;
        OAuth.after_locator cfg user_id totp_secret fields)
       (OAuth.on_failure user_id true)).
Proof.
  apply steady_try_except; [calmly|]. apply oauth_on_failure_steady.
Qed.

End Steady.

Lemma through_every : lets_through every (fun _ => True).
Proof. split; auto. Qed.

Lemma through_any_world : lets_through any_world (fun _ => True).
Proof. split; auto. Qed.

Lemma through_calm : lets_through calm (fun e => is_Exception e = true).
Proof.
  split; [|auto]. intros X op e [_ H]. exact H.
Qed.

(** ** The attempt of the OAuth script *)

Lemma always_ret (adm : answers) {A} (a : A) (Q : list Event -> outcome A -> Prop) :
  Q [] (Returns a) -> always adm (Ret a) Q.
Proof. intros H. exact H. Qed.

Lemma oauth_open_browser_lifecycle (cfg : Config) (user_id : string) :
  always any_world (OAuth.open_browser cfg user_id)
    (fun evs o =>
       match o with
       | Returns _ => lifecycle evs = [Built true]
       | Raises _ => lifecycle evs = [Built false]
       | OutOfFuel => False
       end).
Proof.
  unfold OAuth.open_browser. cbn.
  intros [[]|e] Hr; [|discriminate Hr]. cbn.
  intros [url|e] Hr1; [|discriminate Hr1]. cbn.
  intros [[]|e] Hr2; [|discriminate Hr2]. cbn.
  intros [[]|e] _; cbn; reflexivity.
Qed.

Lemma oauth_attempt_lifecycle (cfg : Config) (user_id password totp_secret : string) :
  always any_world (OAuth.perform_oauth_login cfg user_id password totp_secret)
    (fun evs o => o <> OutOfFuel -> closed_session evs).
Proof.
  unfold OAuth.perform_oauth_login, try_or_return.
  apply always_bind, always_try_except, always_bind.
  eapply always_mono; [|apply oauth_open_browser_lifecycle].
  intros e1 o1 H1. destruct o1 as [url|e|]; [| |contradiction].
  - apply always_ret. cbv beta iota. rewrite app_nil_r.
    apply always_try_finally.
    eapply always_mono; [|apply (oauth_body_steady any_world (fun _ => True)
                                   through_any_world cfg)].
    intros e2 o [H2 _].
    assert (Hfin : forall A (Q : outcome unit -> outcome A),
              always any_world (attempt (call DriverQuit))
                (fun e3 o3 =>
                   match o3 with
                   | OutOfFuel => Q o3 <> OutOfFuel -> closed_session (e1 ++ e2 ++ e3)
                   | _ => closed_session (e1 ++ e2 ++ e3)
                   end)).
    { intros A Q.
      assert (Hq : forall r, closed_session (e1 ++ e2 ++ [Ev DriverQuit r])).
      { intros r. right. rewrite !lifecycle_app, H1, H2. split; [reflexivity|].
        exists (e1 ++ e2), r. rewrite app_assoc. reflexivity. }
      unfold attempt. cbn. intros [[]|e] _; cbn; [apply Hq|].
      unfold on_Exception. destruct (is_Exception e); cbn; apply Hq. }
    destruct o as [b|e|]; [| |intros H; contradiction].
    + eapply always_mono; [|apply (Hfin bool (fun _ => OutOfFuel))].
      intros e3 [[]|e'|] H; try (intros _; exact H). intros Hc. contradiction.
    + eapply always_mono; [|apply (Hfin bool (fun _ => OutOfFuel))].
      intros e3 [[]|e'|] H; try (intros _; exact H). intros Hc. contradiction.
  - unfold OAuth.on_failure.
    destruct (is_WebDriverException e); [|destruct (is_Exception e)]; cbn.
    + intros [[]|e'] Hr3; [|discriminate Hr3]. cbn. intros _. left.
      rewrite !lifecycle_app, H1. reflexivity.
    + intros [[]|e'] Hr3; [|discriminate Hr3]. cbn. intros _. left.
      rewrite !lifecycle_app, H1. reflexivity.
    + intros _. left. exact H1.
Qed.

Section Escapes.
Variable adm : answers.

Lemma escapes_any {A} (p : Prog A) : escapes adm (fun _ => True) p.
Proof. apply always_any. auto. Qed.

Lemma escapes_ret {A} (P : exn -> Prop) (a : A) : escapes adm P (Ret a).
Proof. intros e H. discriminate H. Qed.

Lemma escapes_mono {A} (P P' : exn -> Prop) (p : Prog A) :
  (forall e, P e -> P' e) -> escapes adm P p -> escapes adm P' p.
Proof.
  intros H. apply always_mono. intros evs o Ho e He. apply H, Ho, He.
Qed.

Lemma escapes_steady {A} (E : exn -> Prop) (p : Prog A) :
  steady adm E p -> escapes adm E p.
Proof. apply always_mono. intros evs o [_ H]. exact H. Qed.

Lemma escapes_bind {A B} (P : exn -> Prop) (m : Prog A) (f : A -> Prog B) :
  escapes adm P m -> (forall a, escapes adm P (f a)) -> escapes adm P (bind m f).
Proof.
  intros Hm Hf. apply always_bind.
  eapply always_mono; [|exact Hm].
  intros e1 [a|e|] H1; [| |discriminate].
  - eapply always_mono; [|exact (Hf a)]. auto.
  - intros e' [= <-]. apply H1. reflexivity.
Qed.

Lemma escapes_try_except {A} (E P : exn -> Prop) (m : Prog A)
    (h : exn -> option (Prog A)) :
  escapes adm E m ->
  (forall e, E e -> match h e with Some p => escapes adm P p | None => P e end) ->
  escapes adm P (try_except m h).
Proof.
  intros Hm Hh. apply always_try_except.
  eapply always_mono; [|exact Hm].
  intros e1 [a|e|] H1; [discriminate| |discriminate].
  specialize (Hh e (H1 e eq_refl)). destruct (h e) as [p|].
  - eapply always_mono; [|exact Hh]. auto.
  - intros e' [= <-]. exact Hh.
Qed.

Lemma escapes_try_finally {A} (P : exn -> Prop) (m : Prog A) (fin : Prog unit) :
  escapes adm P m -> escapes adm P fin -> escapes adm P (try_finally m fin).
Proof.
  intros Hm Hf. apply always_try_finally.
  eapply always_mono; [|exact Hm].
  intros e1 o1 H1.
  assert (H : always adm fin
                (fun e2 o2 =>
                   match o2 with
                   | Returns _ => forall e, o1 = Raises e -> P e
                   | Raises e' => forall e, @Raises A e' = Raises e -> P e
                   | OutOfFuel => forall e, @OutOfFuel A = Raises e -> P e
                   end)).
  { eapply always_mono; [|exact Hf].
    intros e2 [[]|e'|] H2; [exact H1| |discriminate].
    intros e [= <-]. apply H2. reflexivity. }
  destruct o1 as [a|e|]; [exact H|exact H|discriminate].
Qed.

End Escapes.

Lemma through_calm_caught : lets_through calm caught.
Proof. exact through_calm. Qed.

Lemma call_caught {X} (op : Prim X) : escapes calm caught (call op).
Proof.
  apply always_call. intros [x|e] [_ Hr] e' [= <-]. exact Hr.
Qed.

Lemma log_unfailing (lvl : level) (msg : string) : unfailing (call (Log lvl msg)).
Proof.
  apply always_call. intros [x|e] [Hr _] e' H; [discriminate H|discriminate Hr].
Qed.

Lemma log_contained (lvl : level) (msg : string) : contained (call (Log lvl msg)).
Proof.
  apply always_call. intros [x|e] Hr e' H; [discriminate H|discriminate Hr].
Qed.

(** [try: m except Exception: pass] *)
Lemma attempt_unfailing (m : Prog unit) : escapes calm caught m -> unfailing (attempt m).
Proof.
  intros Hm. unfold attempt. eapply escapes_try_except; [exact Hm|].
  intros e He. unfold on_Exception. rewrite He. apply escapes_ret.
Qed.

Lemma attempt_contained (m : Prog unit) : contained (attempt m).
Proof.
  unfold attempt. eapply escapes_try_except; [apply escapes_any|].
  intros e _. unfold on_Exception. destruct (is_Exception e) eqn:He.
  - apply escapes_ret.
  - exact He.
Qed.

Lemma oauth_on_failure_contained (user_id : string) (driver : bool) (e : exn) :
  match OAuth.on_failure user_id driver e with
  | Some p => contained p
  | None => uncaught e
  end.
Proof.
  unfold OAuth.on_failure.
  destruct (is_WebDriverException e); [|destruct (is_Exception e) eqn:He; [|exact He]].
  all: apply escapes_bind; [apply log_contained|]; intros _.
  all: apply escapes_bind; [|intros _; apply escapes_ret].
  all: destruct driver; [apply attempt_contained|apply escapes_ret].
Qed.

Lemma oauth_on_failure_unfailing (user_id : string) (driver : bool) (e : exn) :
  caught e ->
  match OAuth.on_failure user_id driver e with
  | Some p => unfailing p
  | None => False
  end.
Proof.
  intros He. unfold OAuth.on_failure. rewrite He.
  destruct (is_WebDriverException e).
  all: apply escapes_bind; [apply log_unfailing|]; intros _.
  all: apply escapes_bind; [|intros _; apply escapes_ret].
  all: destruct driver; [|apply escapes_ret].
  all: apply attempt_unfailing, escapes_steady.
  all: apply steady_bind;
    [apply oauth_screenshot_steady, through_calm_caught|intros _; apply steady_ret].
Qed.

Lemma oauth_attempt_contained (cfg : Config) (user_id password totp_secret : string) :
  contained (OAuth.perform_oauth_login cfg user_id password totp_secret).
Proof.
  unfold OAuth.perform_oauth_login, try_or_return.
  apply escapes_bind.
  - eapply escapes_try_except; [apply escapes_any|].
    intros e _. pose proof (oauth_on_failure_contained user_id false e) as H.
    destruct (OAuth.on_failure user_id false e) as [p|]; [|exact H].
    apply escapes_bind; [exact H|]. intros b. apply escapes_ret.
  - intros [url|b]; [|apply escapes_ret].
    apply escapes_try_finally; [|apply attempt_contained].
    eapply escapes_try_except; [apply escapes_any|].
    intros e _. apply oauth_on_failure_contained.
Qed.

Lemma oauth_open_browser_caught (cfg : Config) (user_id : string) :
  escapes calm caught (OAuth.open_browser cfg user_id).
Proof.
  unfold OAuth.open_browser.
  repeat (apply escapes_bind; [apply call_caught|intros ?]). apply escapes_ret.
Qed.

Lemma oauth_attempt_unfailing (cfg : Config) (user_id password totp_secret : string) :
  unfailing (OAuth.perform_oauth_login cfg user_id password totp_secret).
Proof.
  unfold OAuth.perform_oauth_login, try_or_return.
  apply escapes_bind.
  - eapply escapes_try_except.
    + apply escapes_bind; [apply oauth_open_browser_caught|].
      intros a. apply escapes_ret.
    + intros e He. pose proof (oauth_on_failure_unfailing user_id false e He) as H.
      destruct (OAuth.on_failure user_id false e) as [p|]; [|exact H].
      apply escapes_bind; [exact H|]. intros b. apply escapes_ret.
  - intros [url|b]; [|apply escapes_ret].
    apply escapes_try_finally; [|apply attempt_unfailing, call_caught].
    eapply escapes_try_except.
    + apply escapes_steady, oauth_steps_steady, through_calm_caught.
    + intros e He. apply oauth_on_failure_unfailing, He.
Qed.

(** X12. An attempt of the OAuth script never leaves a browser behind: in
    every run either the browser could not be started, or it was started
    once and [driver.quit()] is the last call of the attempt, whatever
    happened in between (a failure, an exception, a keyboard interrupt). *)
Theorem oauth_attempt_closes_browser (W : World) (cfg : Config) (st : St)
    (user_id password totp_secret : string) :
  closed_session
    (events_of W (OAuth.perform_oauth_login cfg user_id password totp_secret) st).
Proof.
  apply (always_exec any_world W _ _ st (any_world_answers W)
           (oauth_attempt_lifecycle cfg user_id password totp_secret)).
  apply oauth_attempt_terminates.
Qed.

(** X13. No exception that [except Exception] would catch leaves an attempt
    of the OAuth script: whatever the browser, the network, the token store
    or the mail settings do, the attempt ends, and an exception that leaves
    it is a keyboard interrupt. *)
Theorem oauth_attempt_contains_exceptions (W : World) (cfg : Config) (st : St)
    (user_id password totp_secret : string) :
  outcome_of W (OAuth.perform_oauth_login cfg user_id password totp_secret) st
  <> OutOfFuel /\
  forall e,
    outcome_of W (OAuth.perform_oauth_login cfg user_id password totp_secret) st
    = Raises e ->
    e = KeyboardInterrupt.
Proof.
  split; [apply oauth_attempt_terminates|].
  intros e He.
  pose proof (always_exec any_world W _ _ st (any_world_answers W)
                (oauth_attempt_contained cfg user_id password totp_secret) e He) as H.
  destruct e; try discriminate H. reflexivity.
Qed.

(** X14. In a run without keyboard interrupt an attempt of the OAuth script
    always returns [True] or [False]. *)
Theorem oauth_attempt_returns (W : World) (cfg : Config) (st : St)
    (user_id password totp_secret : string) :
  uninterrupted W ->
  exists b,
    outcome_of W (OAuth.perform_oauth_login cfg user_id password totp_secret) st
    = Returns b.
Proof.
  intros HW.
  pose proof (always_exec calm W _ _ st (calm_answers W HW)
                (oauth_attempt_unfailing cfg user_id password totp_secret)) as H.
  pose proof (oauth_attempt_terminates W cfg user_id password totp_secret st) as Ht.
  unfold outcome_of.
  destruct (exec W (OAuth.perform_oauth_login cfg user_id password totp_secret) st)
    as [[[b|e|] s1] e1]; cbn in *.
  - exists b. reflexivity.
  - exfalso. exact (H e eq_refl).
  - contradiction.
Qed.

Lemma oauth_attempt_returns_witness :
  exists b,
    outcome_of Examples.no_redirect_world
      (OAuth.perform_oauth_login Examples.config "AB1234" "pw1" "SEED1") Examples.start
    = Returns b.
Proof.
  apply (oauth_attempt_returns Examples.no_redirect_world Examples.config
           Examples.start "AB1234" "pw1" "SEED1").
  intros t X op. discriminate.
Defined.

(** ** The attempt and the batch of the dashboard script *)

Lemma always_and (adm : answers) {A} (p : Prog A)
    (Q1 Q2 : list Event -> outcome A -> Prop) :
  always adm p Q1 -> always adm p Q2 -> always adm p (fun evs o => Q1 evs o /\ Q2 evs o).
Proof.
  revert Q1 Q2. induction p as [a|e| |X op k IH]; intros Q1 Q2 H1 H2; cbn in *;
    [auto|auto|auto|].
  intros r Hr. apply (IH r (fun evs o => Q1 (Ev op r :: evs) o)
                        (fun evs o => Q2 (Ev op r :: evs) o)); auto.
Qed.

Lemma always_weaken (adm adm' : answers) {A} (p : Prog A)
    (Q : list Event -> outcome A -> Prop) :
  (forall X (op : Prim X) r, adm X op r -> adm' X op r) ->
  always adm' p Q -> always adm p Q.
Proof.
  intros Ha. revert Q. induction p as [a|e| |X op k IH]; intros Q H; cbn in *;
    [auto|auto|auto|].
  intros r Hr. apply IH, H, Ha, Hr.
Qed.

Lemma dashboard_open_browser_lifecycle (user_id : string) :
  always any_world (Dashboard.open_browser user_id)
    (fun evs o =>
       match o with
       | Returns _ => lifecycle evs = [Built true]
       | Raises e =>
           evs = [Ev (Log INFO ("Starting login for " +:+ user_id)) (Ok tt);
                  Ev BuildDriver (Exc e)]
       | OutOfFuel => False
       end).
Proof.
  unfold Dashboard.open_browser. cbn.
  intros [[]|e] Hr; [|discriminate Hr]. cbn.
  intros [[]|e] _; cbn; reflexivity.
Qed.

Lemma dashboard_screenshot_contained (name_prefix : string) :
  contained (Dashboard.screenshot name_prefix).
Proof.
  unfold Dashboard.screenshot. apply escapes_bind.
  - apply always_call. intros [x|e] Hr e' H; [discriminate H|discriminate Hr].
  - intros t. cbv zeta. apply escapes_bind; [apply attempt_contained|].
    intros _. apply escapes_ret.
Qed.

Lemma dashboard_body_contained (user_id password totp_secret : string) :
  contained
    (try_except
       (Dashboard.submit_credentials user_id password;;
        fields ← Dashboard.find_otp_fields 15000;
        Dashboard.after_locator user_id totp_secret fields)
       (on_Exception
          (fun e =>
             log_error ("Error: " +:+ str_exn e);;
             Dashboard.screenshot ("exception_" +:+ user_id);;
             Ret false))).
Proof.
  eapply escapes_try_except; [apply escapes_any|].
  intros e _. unfold on_Exception. destruct (is_Exception e) eqn:He; [|exact He].
  apply escapes_bind; [apply log_contained|]. intros _.
  apply escapes_bind; [apply dashboard_screenshot_contained|]. intros _.
  apply escapes_ret.
Qed.

Lemma dashboard_attempt_lifecycle (user_id password totp_secret : string) :
  always any_world (Dashboard.perform_login_for_account user_id password totp_secret)
    (fun evs o =>
       (exists b, lifecycle evs = [Built b]) /\
       forall e, o = Raises e -> caught e ->
         evs = [Ev (Log INFO ("Starting login for " +:+ user_id)) (Ok tt);
                Ev BuildDriver (Exc e)]).
Proof.
  unfold Dashboard.perform_login_for_account. apply always_bind.
  eapply always_mono; [|apply dashboard_open_browser_lifecycle].
  intros e1 [[]|e|] H1; [| |contradiction].
  - eapply always_mono;
      [|apply (always_and any_world _ _ _
                 (dashboard_body_steady any_world (fun _ => True) through_any_world
                    user_id password totp_secret)
                 (dashboard_body_contained user_id password totp_secret))].
    intros e2 o [[H2 _] H3]. rewrite lifecycle_app, H1, H2. split; [eauto|].
    intros e He Hc. specialize (H3 e He). unfold uncaught, caught in *. congruence.
  - split; [subst e1; eexists; reflexivity|]. intros e' [= <-] _. exact H1.
Qed.

Lemma never_quits_app (e1 e2 : list Event) :
  never_quits e1 -> never_quits e2 -> never_quits (e1 ++ e2).
Proof.
  unfold never_quits. rewrite lifecycle_app. intros H1 H2 H.
  apply in_app_or in H. tauto.
Qed.

Lemma dashboard_main_loop_never_quits (accounts : list (string * string * string)) :
  always any_world (Dashboard.main_loop accounts) (fun evs _ => never_quits evs).
Proof.
  induction accounts as [|[[uid pwd] totp] rest IH]; cbn [Dashboard.main_loop].
  - intros H. exact H.
  - apply always_bind.
    eapply always_mono; [|apply dashboard_attempt_lifecycle].
    intros e1 o1 [[b Hb] _].
    assert (H1 : never_quits e1).
    { unfold never_quits. rewrite Hb. intros [H|[]]. discriminate H. }
    destruct o1 as [ok|e|]; [|exact H1|exact H1].
    apply always_bind, always_call. intros [[]|e] _.
    + eapply always_mono; [|exact IH].
      intros e3 o3 H3. apply never_quits_app; [exact H1|].
      apply (never_quits_app [_]); [|exact H3]. intros [].
    + apply never_quits_app; [exact H1|]. intros [].
Qed.

Lemma steady_never_quits (adm : answers) (E : exn -> Prop) {A} (p : Prog A) :
  steady adm E p -> always adm p (fun evs _ => never_quits evs).
Proof.
  apply always_mono. intros evs o [H _]. unfold never_quits. rewrite H. intros [].
Qed.

Lemma dashboard_main_never_quits (cfg : Config) :
  always any_world (Dashboard.main cfg) (fun evs _ => never_quits evs).
Proof.
  unfold Dashboard.main.
  destruct (negb (truthy (API_KEY cfg)) || negb (truthy (API_SECRET cfg))).
  - apply always_call. intros r _ [].
  - apply always_bind.
    eapply always_mono;
      [|apply (dashboard_read_accounts_steady any_world (fun _ => True) through_any_world)].
    intros e1 o1 [H1 _].
    assert (Hq : never_quits e1) by (unfold never_quits; rewrite H1; intros []).
    destruct o1 as [accounts|e|]; [|exact Hq|exact Hq].
    apply always_bind, always_call. intros [[]|e] _.
    + eapply always_mono; [|apply dashboard_main_loop_never_quits].
      intros e3 o3 H3. apply never_quits_app; [exact Hq|].
      apply (never_quits_app [_]); [|exact H3]. intros [].
    + apply never_quits_app; [exact Hq|]. intros [].
Qed.

(** X15. The dashboard script never closes a browser. An attempt makes one
    call to start the browser and no call to [driver.quit()], however it
    ends; and no run of the batch contains a call to [driver.quit()], so
    every browser that was started stays open. *)
Theorem dashboard_never_closes_browser (W : World) (cfg : Config) (st : St)
    (user_id password totp_secret : string) :
  (exists b,
     lifecycle
       (events_of W (Dashboard.perform_login_for_account user_id password totp_secret) st)
     = [Built b]) /\
  never_quits (events_of W (Dashboard.main cfg) st).
Proof.
  split.
  - apply (always_exec any_world W _ _ st (any_world_answers W)
             (dashboard_attempt_lifecycle user_id password totp_secret)).
  - apply (always_exec any_world W _ _ st (any_world_answers W)
             (dashboard_main_never_quits cfg)).
Qed.

(** X16. Once its browser is started, no exception that [except Exception]
    would catch leaves an attempt of the dashboard script: an attempt ends,
    and when it raises, either starting the browser failed (nothing else was
    done) or the exception is a keyboard interrupt. *)
Theorem dashboard_attempt_raises_only_at_start (W : World) (st : St)
    (user_id password totp_secret : string) :
  outcome_of W (Dashboard.perform_login_for_account user_id password totp_secret) st
  <> OutOfFuel /\
  forall e,
    outcome_of W (Dashboard.perform_login_for_account user_id password totp_secret) st
    = Raises e ->
    e = KeyboardInterrupt \/
    events_of W (Dashboard.perform_login_for_account user_id password totp_secret) st
    = [Ev (Log INFO ("Starting login for " +:+ user_id)) (Ok tt);
       Ev BuildDriver (Exc e)].
Proof.
  split; [apply dashboard_attempt_terminates|].
  intros e He.
  pose proof (always_exec any_world W _ _ st (any_world_answers W)
                (dashboard_attempt_lifecycle user_id password totp_secret)) as [_ H].
  destruct (is_Exception e) eqn:Hx.
  - right. apply (H e He Hx).
  - left. destruct e; try discriminate Hx. reflexivity.
Qed.

(** ** The batch of the OAuth script *)

Lemma closed_session_session (evs : list Event) :
  closed_session evs -> exists b, lifecycle evs = session b.
Proof.
  intros [H|[H _]]; [exists false|exists true]; exact H.
Qed.

Lemma calm_any_world : forall X (op : Prim X) r, calm X op r -> any_world X op r.
Proof. intros X op r [H _]. exact H. Qed.

Lemma oauth_main_loop_batch (cfg : Config) (accounts : list (string * string * string)) :
  always calm (OAuth.main_loop cfg accounts)
    (fun evs o =>
       (forall e, o <> Raises e) /\
       (o <> OutOfFuel ->
        exists bs, length bs = length accounts /\
                   lifecycle evs = concat (map session bs))).
Proof.
  induction accounts as [|[[uid pwd] totp] rest IH]; cbn [OAuth.main_loop].
  - apply always_ret. split; [discriminate|]. intros _. exists []. auto.
  - apply always_bind, always_try_except, always_bind.
    eapply always_mono;
      [|apply (always_and calm _ _ _
                 (always_weaken calm any_world _ _ calm_any_world
                    (oauth_attempt_lifecycle cfg uid pwd totp))
                 (oauth_attempt_unfailing cfg uid pwd totp))].
    intros e1 o1 [Hlife Hun]. destruct o1 as [ok|e|].
    + destruct (closed_session_session e1) as [b Hb]; [apply Hlife; discriminate|].
      apply always_bind, always_call. intros [[]|e] [Hr _]; [|discriminate Hr].
      apply always_ret. cbv beta iota.
      apply always_bind, always_call. intros [[]|e] [Hs Hs2].
      * eapply always_mono; [|exact IH].
        intros e3 o3 [H3 H4]. split; [exact H3|]. intros Ho.
        destruct (H4 Ho) as (bs & Hl & Hbs). exists (b :: bs).
        split; [cbn; lia|].
        rewrite !lifecycle_app, Hb. cbn [map concat].
        rewrite app_nil_r. cbn. fold (lifecycle e3). rewrite Hbs. reflexivity.
      * exfalso. cbn in Hs, Hs2. subst e. discriminate Hs2.
    + exfalso. exact (Hun e eq_refl).
    + split; [discriminate|]. intros H. contradiction.
Qed.

Lemma oauth_main_loop_terminates (W : World) (cfg : Config)
    (accounts : list (string * string * string)) :
  terminates W (OAuth.main_loop cfg accounts).
Proof.
  induction accounts as [|[[uid pwd] totp] rest IH]; cbn [OAuth.main_loop].
  - apply terminates_ret.
  - apply terminates_bind.
    + apply terminates_try_except.
      * apply terminates_bind; [apply oauth_attempt_terminates|].
        intros ok. halt.
      * intros e. halt.
    + intros [|]; halt.
Qed.



Lemma log_never_raises (lvl : level) (msg : string) :
  escapes any_world (fun _ => False) (call (Log lvl msg)).
Proof.
  apply always_call. intros [x|e] Hr e' H; [discriminate H|discriminate Hr].
Qed.

Lemma oauth_main_loop_round (cfg : Config) (uid pwd totp : string) :
  escapes any_world (fun _ => False)
    (try_except
       (ok ← OAuth.perform_oauth_login cfg uid pwd totp;
        log_info ("Result for " +:+ uid +:+ ": " +:+ str_bool ok);;
        Ret false)
       (fun e =>
          match e with
          | KeyboardInterrupt => Some (log_info "Interrupted by user";; Ret true)
          | _ =>
              if is_Exception e
              then Some (log_error ("Unhandled error in main loop for " +:+ uid);;
                         Ret false)
              else None
          end)).
Proof.
  eapply escapes_try_except; [apply escapes_any|].
  intros e _.
  destruct e; cbv beta iota delta [is_Exception];
    (apply escapes_bind; [apply log_never_raises|]);
    intros _; apply escapes_ret.
Qed.

Lemma oauth_main_loop_interrupt (cfg : Config)
    (accounts : list (string * string * string)) :
  always any_world (OAuth.main_loop cfg accounts)
    (fun evs o =>
       forall e, o = Raises e ->
         e = KeyboardInterrupt /\
         exists pre, evs = pre ++ [Ev (Sleep 4000) (Exc KeyboardInterrupt)]).
Proof.
  induction accounts as [|[[uid pwd] totp] rest IH]; cbn [OAuth.main_loop].
  - apply always_ret. discriminate.
  - apply always_bind.
    eapply always_mono; [|apply oauth_main_loop_round].
    intros e1 o1 H1. destruct o1 as [[|]|e|];
      [|idtac|exfalso; exact (H1 e eq_refl)|discriminate].
    + apply always_ret. discriminate.
    + apply always_bind, always_call. intros [[]|e] Hr.
      * eapply always_mono; [|exact IH].
        intros e3 o3 H3 e He. destruct (H3 e He) as [-> [pre ->]].
        split; [reflexivity|].
        exists (e1 ++ Ev (Sleep 4000) (Ok tt) :: pre).
        rewrite <- !app_assoc. reflexivity.
      * intros e' [= <-]. cbn in Hr. subst e. split; [reflexivity|].
        exists e1. reflexivity.
Qed.

(** X18. The batch loop of the OAuth script lets no error of an attempt
    through. A keyboard interrupt during an attempt ends the batch without
    an exception; the only exception that leaves the loop is a keyboard
    interrupt during the four-second pause between two accounts, which is
    outside the [try]. *)
Theorem oauth_batch_raises_only_in_pause (W : World) (cfg : Config) (st : St)
    (accounts : list (string * string * string)) (e : exn) :
  outcome_of W (OAuth.main_loop cfg accounts) st = Raises e ->
  e = KeyboardInterrupt /\
  exists pre,
    events_of W (OAuth.main_loop cfg accounts) st
    = pre ++ [Ev (Sleep 4000) (Exc KeyboardInterrupt)].
Proof.
  apply (always_exec any_world W _ _ st (any_world_answers W)
           (oauth_main_loop_interrupt cfg accounts)).
Qed.

Lemma oauth_batch_raises_only_in_pause_witness :
  KeyboardInterrupt = KeyboardInterrupt /\
  exists pre,
    events_of Examples.ctrl_c_in_pause_world
      (OAuth.main_loop Examples.config Examples.two_accounts) Examples.start
    = pre ++ [Ev (Sleep 4000) (Exc KeyboardInterrupt)].
Proof.
  apply (oauth_batch_raises_only_in_pause Examples.ctrl_c_in_pause_world
           Examples.config Examples.start Examples.two_accounts KeyboardInterrupt).
  vm_compute. reflexivity.
Defined.

(** ** The locator and the poller against the clock *)

Section Results.
Variable adm : answers.

Lemma result_bind {A B} (m : Prog A) (f : A -> Prog B) (R : outcome B -> Prop) :
  (forall a, always adm (f a) (fun _ o => R o)) ->
  (forall e, R (Raises e)) -> R OutOfFuel ->
  always adm (bind m f) (fun _ o => R o).
Proof.
  intros Hf He Ho. apply always_bind, always_any.
  intros evs [a|e|]; [|apply He|exact Ho].
  eapply always_mono; [|exact (Hf a)]. auto.
Qed.

Lemma result_try_except {A} (m : Prog A) (h : exn -> option (Prog A))
    (R : outcome A -> Prop) :
  always adm m (fun _ o => match o with Raises _ => True | _ => R o end) ->
  (forall e, match h e with
             | Some p => always adm p (fun _ o => R o)
             | None => R (Raises e)
             end) ->
  always adm (try_except m h) (fun _ o => R o).
Proof.
  intros Hm Hh. apply always_try_except.
  eapply always_mono; [|exact Hm].
  intros evs [a|e|] H; [exact H| |exact H].
  specialize (Hh e). destruct (h e) as [p|]; [|exact Hh].
  eapply always_mono; [|exact Hh]. auto.
Qed.

End Results.

Lemma finds_some_raises (e : exn) : finds_some (Raises e).
Proof. discriminate. Qed.

Lemma finds_some_starved : finds_some OutOfFuel.
Proof. discriminate. Qed.

Lemma oauth_probe_id_finds_some (loc : By) :
  always every (OAuth.probe_id loc) (fun _ o => finds_some o).
Proof.
  unfold OAuth.probe_id, finds_some. cbn. wander; try discriminate.
  all: match goal with x : bool |- _ => destruct x end; discriminate.
Qed.

Lemma filtered_finds_some (loc : By) (keep : list handle -> Prog (list handle))
    (pick : list handle -> option (list handle)) :
  (forall l, pick l <> Some []) ->
  always every (cand ← call (FindElements loc); cand ← keep cand; Ret (pick cand))
    (fun _ o => finds_some o).
Proof.
  intros Hp.
  apply result_bind; [|apply finds_some_raises|apply finds_some_starved].
  intros cand.
  apply result_bind; [|apply finds_some_raises|apply finds_some_starved].
  intros l. apply always_ret. intros [= H]. exact (Hp l H).
Qed.

Lemma guarded_finds_some (m : Prog (option (list handle)))
    (h : exn -> option (Prog (option (list handle)))) :
  always every m (fun _ o => finds_some o) ->
  (forall e, match h e with Some p => p = Ret None | None => True end) ->
  always every (try_except m h) (fun _ o => finds_some o).
Proof.
  intros Hm Hh. apply result_try_except.
  - eapply always_mono; [|exact Hm]. intros evs [a|e|] H; auto.
  - intros e. specialize (Hh e). destruct (h e) as [p|]; [|apply finds_some_raises].
    subst p. apply always_ret. discriminate.
Qed.

Lemma two_at_least (l : list handle) :
  (if (2 <=? length l)%nat then Some l else None) <> Some [].
Proof. destruct l as [|a [|b l]]; discriminate. Qed.

Lemma oauth_probe_split_finds_some :
  always every OAuth.probe_split (fun _ o => finds_some o).
Proof.
  unfold OAuth.probe_split. apply guarded_finds_some.
  - apply filtered_finds_some, two_at_least.
  - intros e. unfold on_Exception. destruct (is_Exception e); auto.
Qed.

Lemma oauth_probe_fallback_finds_some :
  always every OAuth.probe_fallback (fun _ o => finds_some o).
Proof.
  unfold OAuth.probe_fallback. apply guarded_finds_some.
  - apply filtered_finds_some. intros [|a l]; discriminate.
  - intros e. unfold on_Exception. destruct (is_Exception e); auto.
Qed.

Lemma dashboard_probe_all_finds_some :
  always every Dashboard.probe_all (fun _ o => finds_some o).
Proof.
  unfold Dashboard.probe_all. apply guarded_finds_some; [|intros e; reflexivity].
  assert (Hid : forall loc, always every (Dashboard.probe_by_id loc)
                              (fun _ o => finds_some o)).
  { intros loc. unfold Dashboard.probe_by_id.
    apply result_bind; [|apply finds_some_raises|apply finds_some_starved].
    intros [|a l]; apply always_ret; discriminate. }
  assert (Hret : forall l : list handle,
             finds_some (Returns (Some l)) ->
             always every (Ret (Some l)) (fun _ o => finds_some o)).
  { intros l H. apply always_ret. exact H. }
  apply always_bind. eapply always_mono; [|apply Hid].
  intros e1 [[l|]|e|] H1; [apply always_ret; exact H1| |discriminate|discriminate].
  apply always_bind. eapply always_mono; [|apply Hid].
  intros e2 [[l|]|e|] H2; [apply always_ret; exact H2| |discriminate|discriminate].
  apply always_bind.
  eapply always_mono; [|apply (filtered_finds_some _ displayed_and_enabled), two_at_least].
  intros e3 [[l|]|e|] H3; [apply always_ret; exact H3| |discriminate|discriminate].
  apply always_bind.
  eapply always_mono;
    [|apply (filtered_finds_some _ displayed_and_enabled
               (fun els => if (2 <=? length els)%nat then Some els
                           else if (length els =? 1)%nat then Some els else None))].
  - intros e4 [[l|]|e|] H4; [apply always_ret; exact H4| |discriminate|discriminate].
    eapply always_mono;
      [|apply (filtered_finds_some _ displayed_only
                 (fun els => if (1 <=? length els)%nat then Some els else None))].
    + intros e5 o H5. exact H5.
    + intros [|a l]; discriminate.
  - intros [|a [|b l]]; discriminate.
Qed.

Section GivesUp.
Variable W : World.
Variable d : Z.

Lemma gives_up_nil (t : Z) : (d <= t)%Z -> gives_up_from W (Ret []) t d.
Proof. intros Hd st Ht _. cbn. lia. Qed.

Lemma gives_up_starve (t : Z) : gives_up_from W Starve t d.
Proof. intros st _ H. discriminate H. Qed.

Lemma gives_up_time (f : Z -> Prog (list handle)) (t : Z) :
  (forall t', (t <= t')%Z -> gives_up_from W (f t') t' d) ->
  gives_up_from W (bind (call TimeTime) f) t d.
Proof.
  intros Hf st Ht. rewrite exec_bind, exec_call. cbn [respond inside fst snd].
  pose proof (Hf (now st) Ht (elapse st 0)) as H.
  destruct (exec W (f (now st)) (elapse st 0)) as [[o s2] e2]. cbn in *.
  apply H. lia.
Qed.

Lemma gives_up_bind {A} (m : Prog A) (f : A -> Prog (list handle)) (t : Z) :
  (forall a, gives_up_from W (f a) t d) -> gives_up_from W (bind m f) t d.
Proof.
  intros Hf st Ht. rewrite exec_bind.
  pose proof (exec_now W m st) as Hn.
  destruct (exec W m st) as [[[a|e|] s1] e1]; cbn in *; [|discriminate|discriminate].
  pose proof (Hf a s1) as H.
  destruct (exec W (f a) s1) as [[o s2] e2]. cbn in *.
  apply H. lia.
Qed.

Lemma gives_up_or_else (p : Prog (option (list handle))) (k : Prog (list handle))
    (t : Z) :
  always every p (fun _ o => finds_some o) ->
  gives_up_from W k t d -> gives_up_from W (or_else p k) t d.
Proof.
  intros Hp Hk st Ht. unfold or_else. rewrite exec_bind.
  pose proof (always_exec every W _ _ st (every_answers W) Hp) as H1.
  pose proof (exec_now W p st) as Hn.
  destruct (exec W p st) as [[[[l|]|e|] s1] e1]; cbn in *;
    [|idtac|discriminate|discriminate].
  - intros [= ->]. exfalso. apply H1. reflexivity.
  - pose proof (Hk s1) as H.
    destruct (exec W k s1) as [[o s2] e2]. cbn in *. apply H. lia.
Qed.

End GivesUp.

Lemma gives_up_sooner (W : World) (p : Prog (list handle)) (t d d' : Z) :
  (d' <= d)%Z -> gives_up_from W p t d -> gives_up_from W p t d'.
Proof. intros Hd H st Ht Ho. specialize (H st Ht Ho). lia. Qed.

Lemma oauth_find_otp_loop_gives_up (W : World) (end_ : Z) (fuel : nat) (t : Z) :
  gives_up_from W (OAuth.find_otp_loop fuel end_) t end_.
Proof.
  revert t. induction fuel as [|fuel IH]; intros t; [apply gives_up_starve|].
  rewrite oauth_find_otp_loop_S. apply gives_up_time. intros t' Ht'.
  destruct (Z.ltb_spec t' end_) as [Hlt|Hge]; [|apply gives_up_nil, Hge].
  apply gives_up_or_else; [apply oauth_probe_id_finds_some|].
  apply gives_up_or_else; [apply oauth_probe_id_finds_some|].
  apply gives_up_or_else; [apply oauth_probe_split_finds_some|].
  apply gives_up_or_else; [apply oauth_probe_fallback_finds_some|].
  apply gives_up_bind. intros _. apply IH.
Qed.

Lemma dashboard_find_otp_loop_gives_up (W : World) (end_ : Z) (fuel : nat) (t : Z) :
  gives_up_from W (Dashboard.find_otp_loop fuel end_) t end_.
Proof.
  revert t. induction fuel as [|fuel IH]; intros t; [apply gives_up_starve|].
  rewrite dashboard_find_otp_loop_S. apply gives_up_time. intros t' Ht'.
  destruct (Z.ltb_spec t' end_) as [Hlt|Hge]; [|apply gives_up_nil, Hge].
  apply gives_up_or_else; [apply dashboard_probe_all_finds_some|].
  apply gives_up_bind. intros _. apply IH.
Qed.

(** X19. The locator of either script never gives up early, and never
    mistakes an empty result for a find: it returns the empty list only when
    its clock has reached the deadline, [timeout] after the start; every list
    it returns before that holds at least one field. *)
Theorem locator_gives_up_at_deadline (W : World) (st : St) (timeout : Z) :
  (outcome_of W (OAuth.find_otp_fields timeout) st = Returns [] ->
   (now st + timeout <= now (state_of W (OAuth.find_otp_fields timeout) st))%Z) /\
  (outcome_of W (Dashboard.find_otp_fields timeout) st = Returns [] ->
   (now st + timeout <= now (state_of W (Dashboard.find_otp_fields timeout) st))%Z).
Proof.
  split.
  - assert (H : gives_up_from W (OAuth.find_otp_fields timeout) (now st)
                  (now st + timeout)).
    { unfold OAuth.find_otp_fields. apply gives_up_time. intros t' Ht'.
      apply (gives_up_sooner _ _ _ (t' + timeout)); [lia|].
      apply oauth_find_otp_loop_gives_up. }
    apply H. lia.
  - assert (H : gives_up_from W (Dashboard.find_otp_fields timeout) (now st)
                  (now st + timeout)).
    { unfold Dashboard.find_otp_fields. apply gives_up_time. intros t' Ht'.
      apply (gives_up_sooner _ _ _ (t' + timeout)); [lia|].
      apply dashboard_find_otp_loop_gives_up. }
    apply H. lia.
Qed.

Ltac tame_step :=
  first
    [ apply escapes_ret
    | apply call_caught
    | apply escapes_steady, steady_displayed_and_enabled, through_calm_caught
    | apply escapes_steady, steady_displayed_only, through_calm_caught
    | apply escapes_bind; [|intros ?]
    | match goal with
      | |- escapes _ _ ?p =>
          match p with context [match ?x with _ => _ end] => dig x end
      end ].

Ltac tame := repeat tame_step.

Lemma guard_unfailing {A} (m : Prog A) (v : A) :
  escapes calm caught m -> unfailing (try_except m (on_Exception (fun _ => Ret v))).
Proof.
  intros Hm. eapply escapes_try_except; [exact Hm|].
  intros e He. unfold on_Exception. rewrite He. apply escapes_ret.
Qed.

Lemma time_unfailing : unfailing (call TimeTime).
Proof.
  apply always_call. intros [x|e] [Hr _] e' H; [discriminate H|discriminate Hr].
Qed.

Lemma sleep_unfailing (ms : Z) : unfailing (call (Sleep ms)).
Proof.
  apply always_call. intros [x|e] [Hr Hr2] e' H; [discriminate H|].
  cbn in Hr, Hr2. subst e. discriminate Hr2.
Qed.

Lemma oauth_find_otp_loop_unfailing (fuel : nat) (end_ : Z) :
  unfailing (OAuth.find_otp_loop fuel end_).
Proof.
  induction fuel as [|fuel IH]; [discriminate|].
  rewrite oauth_find_otp_loop_S.
  apply escapes_bind; [apply time_unfailing|]. intros t.
  destruct (t <? end_)%Z; [|apply escapes_ret].
  unfold or_else.
  apply escapes_bind; [unfold OAuth.probe_id; apply guard_unfailing; tame|].
  intros [l|]; [apply escapes_ret|].
  apply escapes_bind; [unfold OAuth.probe_id; apply guard_unfailing; tame|].
  intros [l|]; [apply escapes_ret|].
  apply escapes_bind; [unfold OAuth.probe_split; apply guard_unfailing; tame|].
  intros [l|]; [apply escapes_ret|].
  apply escapes_bind; [unfold OAuth.probe_fallback; apply guard_unfailing; tame|].
  intros [l|]; [apply escapes_ret|].
  apply escapes_bind; [apply sleep_unfailing|]. intros _. exact IH.
Qed.

Lemma dashboard_find_otp_loop_unfailing (fuel : nat) (end_ : Z) :
  unfailing (Dashboard.find_otp_loop fuel end_).
Proof.
  induction fuel as [|fuel IH]; [discriminate|].
  rewrite dashboard_find_otp_loop_S.
  apply escapes_bind; [apply time_unfailing|]. intros t.
  destruct (t <? end_)%Z; [|apply escapes_ret].
  unfold or_else. apply escapes_bind.
  - unfold Dashboard.probe_all. eapply escapes_try_except; [apply escapes_any|].
    intros e _. apply escapes_ret.
  - intros [l|]; [apply escapes_ret|].
    apply escapes_bind; [apply sleep_unfailing|]. intros _. exact IH.
Qed.

(** X20. In a run without keyboard interrupt the locator of either script
    always returns a list: every failure of the page while it searches is
    swallowed, and its loop ends within the rounds its timeout allows. *)
Theorem locator_always_answers (W : World) (st : St) (timeout : Z) :
  uninterrupted W ->
  (exists l, outcome_of W (OAuth.find_otp_fields timeout) st = Returns l) /\
  (exists l, outcome_of W (Dashboard.find_otp_fields timeout) st = Returns l).
Proof.
  intros HW. unfold outcome_of. split.
  - assert (Hu : unfailing (OAuth.find_otp_fields timeout)).
    { unfold OAuth.find_otp_fields. apply escapes_bind; [apply time_unfailing|].
      intros t. apply oauth_find_otp_loop_unfailing. }
    pose proof (always_exec calm W _ _ st (calm_answers W HW) Hu) as H.
    pose proof (oauth_find_otp_fields_terminates W timeout st) as Ht.
    destruct (exec W (OAuth.find_otp_fields timeout) st) as [[[l|e|] s1] e1]; cbn in *.
    + eauto.
    + exfalso. exact (H e eq_refl).
    + contradiction.
  - assert (Hu : unfailing (Dashboard.find_otp_fields timeout)).
    { unfold Dashboard.find_otp_fields. apply escapes_bind; [apply time_unfailing|].
      intros t. apply dashboard_find_otp_loop_unfailing. }
    pose proof (always_exec calm W _ _ st (calm_answers W HW) Hu) as H.
    pose proof (dashboard_find_otp_fields_terminates W timeout st) as Ht.
    destruct (exec W (Dashboard.find_otp_fields timeout) st) as [[[l|e|] s1] e1];
      cbn in *.
    + eauto.
    + exfalso. exact (H e eq_refl).
    + contradiction.
Qed.

Lemma locator_always_answers_witness :
  (exists l, outcome_of Examples.stuck_login_world (OAuth.find_otp_fields 15000)
               Examples.start = Returns l) /\
  (exists l, outcome_of Examples.stuck_login_world (Dashboard.find_otp_fields 15000)
               Examples.start = Returns l).
Proof.
  apply (locator_always_answers Examples.stuck_login_world Examples.start 15000).
  intros t X op. discriminate.
Defined.

Section Polls.
Variable W : World.
Variable d : Z.

Lemma polls_starve (t : Z) : polls_until W Starve t d.
Proof. intros st _ rt status u H. discriminate H. Qed.

Lemma polls_time (f : Z -> Prog (option string * option string * string)) (t : Z) :
  (forall t', (t <= t')%Z -> polls_until W (f t') t' d) ->
  polls_until W (bind (call TimeTime) f) t d.
Proof.
  intros Hf st Ht. rewrite exec_bind, exec_call. cbn [respond inside fst snd].
  pose proof (Hf (now st) Ht (elapse st 0)) as H.
  destruct (exec W (f (now st)) (elapse st 0)) as [[o s2] e2]. cbn in *.
  apply H. lia.
Qed.

Lemma polls_bind {A} (m : Prog A)
    (f : A -> Prog (option string * option string * string)) (t : Z) :
  (forall a, polls_until W (f a) t d) -> polls_until W (bind m f) t d.
Proof.
  intros Hf st Ht. rewrite exec_bind.
  pose proof (exec_now W m st) as Hn.
  destruct (exec W m st) as [[[a|e|] s1] e1]; cbn in *;
    [|intros ? ? ? H; discriminate H|intros ? ? ? H; discriminate H].
  pose proof (Hf a s1) as H.
  destruct (exec W (f a) s1) as [[o s2] e2]. cbn in *.
  apply H. lia.
Qed.

Lemma polls_found (u : string) (t : Z) :
  contains MARKER u = true ->
  polls_until W
    (rt ← call (QueryParam u "request_token");
     status ← call (QueryParam u "status");
     Ret (rt, status, u)) t d.
Proof.
  intros Hu st _ rt status u' H. cbn in H. injection H as <- <- <-.
  left. split; [exact Hu|reflexivity].
Qed.

Lemma polls_timeout (t : Z) :
  (d <= t)%Z ->
  polls_until W (cur ← call CurrentUrl; Ret (None, None, cur)) t d.
Proof.
  intros Hd st Ht rt status u. cbn. unfold outside.
  destruct (fault W (tick st) string CurrentUrl) as [e|]; cbn; [discriminate|].
  intros [= <- <- <-]. right. split; [reflexivity|]. split; [reflexivity|].
  assert (0 <= lag W st)%Z by (unfold lag; lia). lia.
Qed.

End Polls.

Lemma polls_sooner (W : World) (p : Prog (option string * option string * string))
    (t d d' : Z) :
  (d' <= d)%Z -> polls_until W p t d -> polls_until W p t d'.
Proof.
  intros Hd H st Ht rt status u Ho.
  destruct (H st Ht rt status u Ho) as [H1|(H1 & H2 & H3)]; [left; exact H1|].
  right. split; [exact H1|]. split; [exact H2|lia].
Qed.

Lemma oauth_poll_loop_polls (W : World) (end_ : Z) (fuel : nat) (t : Z) :
  polls_until W (OAuth.poll_loop fuel end_) t end_.
Proof.
  revert t. induction fuel as [|fuel IH]; intros t; [apply polls_starve|].
  rewrite oauth_poll_loop_S. apply polls_time. intros t' Ht'.
  destruct (Z.ltb_spec t' end_) as [Hlt|Hge]; [|apply polls_timeout, Hge].
  apply polls_bind. intros cur.
  destruct (contains MARKER cur) eqn:Hc; [apply polls_found, Hc|].
  apply polls_bind. intros _. apply IH.
Qed.

Lemma dashboard_poll_loop_polls (W : World) (end_ : Z) (fuel : nat) (t : Z) :
  polls_until W (Dashboard.poll_loop fuel end_) t end_.
Proof.
  revert t. induction fuel as [|fuel IH]; intros t; [apply polls_starve|].
  rewrite dashboard_poll_loop_S. apply polls_time. intros t' Ht'.
  destruct (Z.ltb_spec t' end_) as [Hlt|Hge]; [|apply polls_timeout, Hge].
  apply polls_bind. intros cur.
  destruct (contains MARKER cur) eqn:Hc; [apply polls_found, Hc|].
  apply polls_bind. intros _. apply IH.
Qed.

(** X21. What the redirect poller of either script returns is one of two
    things: the [request_token] and [status] parameters of an address that
    contains [request_token=], together with that address; or no token and
    no status, and then only once its clock has reached the deadline,
    [timeout] after the start. *)
Theorem poller_reports (W : World) (st : St) (timeout : Z)
    (rt status : option string) (u : string) :
  (outcome_of W (OAuth.wait_for_request_token timeout) st = Returns (rt, status, u) ->
   (contains MARKER u = true /\ (rt, status, u) = redirect_of W u) \/
   (rt = None /\ status = None /\
    (now st + timeout
     <= now (state_of W (OAuth.wait_for_request_token timeout) st))%Z)) /\
  (outcome_of W (Dashboard.wait_for_request_token timeout) st = Returns (rt, status, u) ->
   (contains MARKER u = true /\ (rt, status, u) = redirect_of W u) \/
   (rt = None /\ status = None /\
    (now st + timeout
     <= now (state_of W (Dashboard.wait_for_request_token timeout) st))%Z)).
Proof.
  split.
  - assert (H : polls_until W (OAuth.wait_for_request_token timeout) (now st)
                  (now st + timeout)).
    { unfold OAuth.wait_for_request_token. apply polls_time. intros t' Ht'.
      apply (polls_sooner _ _ _ (t' + timeout)); [lia|].
      apply oauth_poll_loop_polls. }
    apply H. lia.
  - assert (H : polls_until W (Dashboard.wait_for_request_token timeout) (now st)
                  (now st + timeout)).
    { unfold Dashboard.wait_for_request_token. apply polls_time. intros t' Ht'.
      apply (polls_sooner _ _ _ (t' + timeout)); [lia|].
      apply dashboard_poll_loop_polls. }
    apply H. lia.
Qed.

Section FailsLate.
Variable W : World.
Variable d : Z.

Lemma fails_late_ret {A} (a : A) (t : Z) : fails_late W (Ret a) t d.
Proof. intros st _ e H. discriminate H. Qed.

Lemma fails_late_starve {A} (t : Z) : fails_late W (@Starve A) t d.
Proof. intros st _ e H. discriminate H. Qed.

Lemma fails_late_bind {A B} (m : Prog A) (f : A -> Prog B) (t : Z) :
  contained m -> (forall a, fails_late W (f a) t d) -> fails_late W (bind m f) t d.
Proof.
  intros Hm Hf st Ht. rewrite exec_bind.
  pose proof (exec_now W m st) as Hn.
  pose proof (always_exec any_world W _ _ st (any_world_answers W) Hm) as Hc.
  destruct (exec W m st) as [[[a|e|] s1] e1]; cbn in *.
  - pose proof (Hf a s1) as H.
    destruct (exec W (f a) s1) as [[o s2] e2]. cbn in *.
    intros e Ho He. destruct (H ltac:(lia) e Ho He) as [H1 [pre ->]].
    split; [exact H1|]. exists (e1 ++ pre). rewrite app_assoc. reflexivity.
  - intros e' [= <-] He. specialize (Hc e eq_refl).
    unfold caught, uncaught in *. congruence.
  - intros e H. discriminate H.
Qed.

Lemma fails_late_time {A} (f : Z -> Prog A) (t : Z) :
  (forall t', (t <= t')%Z -> fails_late W (f t') t' d) ->
  fails_late W (bind (call TimeTime) f) t d.
Proof.
  intros Hf st Ht. rewrite exec_bind, exec_call. cbn [respond inside fst snd].
  pose proof (Hf (now st) Ht (elapse st 0)) as H.
  destruct (exec W (f (now st)) (elapse st 0)) as [[o s2] e2]. cbn in *.
  intros e Ho He. destruct (H ltac:(lia) e Ho He) as [H1 [pre ->]].
  split; [exact H1|]. exists (Ev TimeTime (Ok (now st)) :: pre). reflexivity.
Qed.

Lemma fails_late_final (t : Z) :
  (d <= t)%Z ->
  fails_late W
    (cur ← call CurrentUrl;
     Ret ((None, None, cur) : option string * option string * string)) t d.
Proof.
  intros Hd st Ht e. cbn. unfold outside.
  destruct (fault W (tick st) string CurrentUrl) as [e'|]; cbn; [|discriminate].
  intros [= <-] _.
  assert (0 <= lag W st)%Z by (unfold lag; lia).
  split; [lia|]. exists []. reflexivity.
Qed.

End FailsLate.

Lemma fails_late_sooner (W : World) {A} (p : Prog A) (t d d' : Z) :
  (d' <= d)%Z -> fails_late W p t d -> fails_late W p t d'.
Proof.
  intros Hd H st Ht e Ho He. destruct (H st Ht e Ho He) as [H1 H2].
  split; [lia|exact H2].
Qed.

Lemma call_contained_ok {X} (op : Prim X) :
  (forall r, any_world X op r -> is_ok r = true) -> contained (call op).
Proof.
  intros H. apply always_call. intros [x|e] Hr e' He; [discriminate He|].
  specialize (H _ Hr). discriminate H.
Qed.

Lemma sleep_contained (ms : Z) : contained (call (Sleep ms)).
Proof.
  apply always_call. intros [x|e] Hr e' He; [discriminate He|].
  injection He as <-. cbn in Hr. subst e. reflexivity.
Qed.

Lemma guard_contained {A} (m : Prog A) (v : A) :
  contained (try_except m (on_Exception (fun _ => Ret v))).
Proof.
  eapply escapes_try_except; [apply escapes_any|].
  intros e _. unfold on_Exception. destruct (is_Exception e) eqn:He.
  - apply escapes_ret.
  - exact He.
Qed.

Lemma guard_any_contained {A} (m : Prog A) (v : A) :
  contained (try_except m (on_any (Ret v))).
Proof.
  eapply escapes_try_except; [apply escapes_any|].
  intros e _. apply escapes_ret.
Qed.

Lemma found_fails_late (W : World) (u : string) (t d : Z) :
  fails_late W
    (rt ← call (QueryParam u "request_token");
     status ← call (QueryParam u "status");
     Ret (rt, status, u)) t d.
Proof. intros st _ e H. discriminate H. Qed.

Lemma oauth_poll_loop_fails_late (W : World) (end_ : Z) (fuel : nat) (t : Z) :
  fails_late W (OAuth.poll_loop fuel end_) t end_.
Proof.
  revert t. induction fuel as [|fuel IH]; intros t; [apply fails_late_starve|].
  rewrite oauth_poll_loop_S. apply fails_late_time. intros t' Ht'.
  destruct (Z.ltb_spec t' end_) as [Hlt|Hge]; [|apply fails_late_final, Hge].
  apply fails_late_bind; [apply guard_contained|]. intros cur.
  destruct (contains MARKER cur); [apply found_fails_late|].
  apply fails_late_bind; [apply sleep_contained|]. intros _. apply IH.
Qed.

Lemma dashboard_poll_loop_fails_late (W : World) (end_ : Z) (fuel : nat) (t : Z) :
  fails_late W (Dashboard.poll_loop fuel end_) t end_.
Proof.
  revert t. induction fuel as [|fuel IH]; intros t; [apply fails_late_starve|].
  rewrite dashboard_poll_loop_S. apply fails_late_time. intros t' Ht'.
  destruct (Z.ltb_spec t' end_) as [Hlt|Hge]; [|apply fails_late_final, Hge].
  apply fails_late_bind; [apply guard_any_contained|]. intros cur.
  destruct (contains MARKER cur); [apply found_fails_late|].
  apply fails_late_bind; [apply sleep_contained|]. intros _. apply IH.
Qed.

(** X22. The redirect poller of either script swallows every failure to read
    the address while it polls. When it raises an exception that
    [except Exception] would catch, that exception comes from the unguarded
    read of the address in its final [return], which is its last call, and
    the deadline has passed. *)
Theorem poller_fails_only_at_the_end (W : World) (st : St) (timeout : Z) (e : exn) :
  is_Exception e = true ->
  (outcome_of W (OAuth.wait_for_request_token timeout) st = Raises e ->
   (now st + timeout
    <= now (state_of W (OAuth.wait_for_request_token timeout) st))%Z /\
   exists pre,
     events_of W (OAuth.wait_for_request_token timeout) st
     = pre ++ [Ev CurrentUrl (Exc e)]) /\
  (outcome_of W (Dashboard.wait_for_request_token timeout) st = Raises e ->
   (now st + timeout
    <= now (state_of W (Dashboard.wait_for_request_token timeout) st))%Z /\
   exists pre,
     events_of W (Dashboard.wait_for_request_token timeout) st
     = pre ++ [Ev CurrentUrl (Exc e)]).
Proof.
  intros He. split; intros Ho.
  - assert (H : fails_late W (OAuth.wait_for_request_token timeout) (now st)
                  (now st + timeout)).
    { unfold OAuth.wait_for_request_token. apply fails_late_time. intros t' Ht'.
      apply (fails_late_sooner _ _ _ (t' + timeout)); [lia|].
      apply oauth_poll_loop_fails_late. }
    apply (H st ltac:(lia) e Ho He).
  - assert (H : fails_late W (Dashboard.wait_for_request_token timeout) (now st)
                  (now st + timeout)).
    { unfold Dashboard.wait_for_request_token. apply fails_late_time. intros t' Ht'.
      apply (fails_late_sooner _ _ _ (t' + timeout)); [lia|].
      apply dashboard_poll_loop_fails_late. }
    apply (H st ltac:(lia) e Ho He).
Qed.

Lemma poller_fails_only_at_the_end_witness :
  (now Examples.start + 25000
   <= now (state_of Examples.url_unreadable_world
             (OAuth.wait_for_request_token 25000) Examples.start))%Z /\
  exists pre,
    events_of Examples.url_unreadable_world
      (OAuth.wait_for_request_token 25000) Examples.start
    = pre ++ [Ev CurrentUrl (Exc WebDriverException)].
Proof.
  apply (proj1 (poller_fails_only_at_the_end Examples.url_unreadable_world
                  Examples.start 25000 WebDriverException eq_refl)).
  vm_compute. reflexivity.
Defined.

(** ** The OTP injector when the browser misbehaves *)

Lemma sent_keys_app (e1 e2 : list Event) :
  sent_keys (e1 ++ e2) = sent_keys e1 ++ sent_keys e2.
Proof. unfold sent_keys. apply omap_app. Qed.

Lemma split_typed_step (expected : list (handle * string)) (fld : handle)
    (ch : string) (pre : list Event) (evs : list Event) (o : outcome unit) :
  sent_keys pre = [(fld, ch)] -> logs pre = [] ->
  split_typed expected evs o ->
  split_typed ((fld, ch) :: expected) (pre ++ evs) o.
Proof.
  intros Hp Hl (H1 & H2 & H3). unfold split_typed.
  rewrite sent_keys_app, logs_app, Hp, Hl, H2. cbn.
  split; [apply prefix_cons, H1|]. split; [reflexivity|].
  intros Ho. rewrite (H3 Ho). reflexivity.
Qed.

Lemma split_typed_stop (expected : list (handle * string)) (fld : handle)
    (ch : string) (evs : list Event) (e : exn) :
  logs evs = [] ->
  sent_keys evs = [] \/ sent_keys evs = [(fld, ch)] ->
  split_typed ((fld, ch) :: expected) evs (Raises e).
Proof.
  intros Hl Hs. unfold split_typed. split; [|split; [exact Hl|discriminate]].
  destruct Hs as [-> | ->]; [apply prefix_nil|].
  apply prefix_cons, prefix_nil.
Qed.

Lemma oauth_enter_split_typed (otp : list string) (i : nat) (fields : list handle) :
  always every (OAuth.enter_split i otp fields)
    (split_typed (zip (drop i fields) otp)).
Proof.
  revert i. induction otp as [|ch rest IH]; intros i.
  - cbn. rewrite zip_nil_r. repeat split. apply prefix_nil.
  - cbn [OAuth.enter_split]. destruct (fields !! i) as [fld|] eqn:Hi.
    + rewrite (drop_S _ _ _ Hi). cbn [zip zip_with].
      unfold attempt. cbn.
      repeat any_answer;
        first
          [ apply split_typed_stop; [reflexivity|cbn; auto]
          | (eapply always_mono; [|apply (IH (S i))]);
            intros evs o H;
            lazymatch goal with
            | |- split_typed _ ?l _ =>
                let pre := eval cbv beta in
                  (ltac:(let rec strip l :=
                           lazymatch l with
                           | ?x :: ?r => let r' := strip r in constr:(x :: r')
                           | _ => constr:(@nil Event)
                           end in
                         let p := strip l in exact p)) in
                change (split_typed ((fld, ch) :: zip (drop (S i) fields) rest)
                          (pre ++ evs) o)
            end;
            apply split_typed_step; [reflexivity|reflexivity|exact H] ].
    + rewrite drop_ge by (apply lookup_ge_None; exact Hi). cbn.
      repeat split. apply prefix_nil.
Qed.

Lemma dashboard_enter_split_typed (otp : list string) (i : nat)
    (fields : list handle) :
  always every (Dashboard.enter_split i otp fields)
    (split_typed (zip (drop i fields) otp)).
Proof.
  revert i. induction otp as [|ch rest IH]; intros i.
  - cbn. rewrite zip_nil_r. repeat split. apply prefix_nil.
  - cbn [Dashboard.enter_split]. destruct (fields !! i) as [fld|] eqn:Hi.
    + rewrite (drop_S _ _ _ Hi). cbn [zip zip_with].
      unfold attempt_any. cbn.
      repeat any_answer;
        first
          [ apply split_typed_stop; [reflexivity|cbn; auto]
          | (eapply always_mono; [|apply (IH (S i))]);
            intros evs o H;
            lazymatch goal with
            | |- split_typed _ ?l _ =>
                let pre := eval cbv beta in
                  (ltac:(let rec strip l :=
                           lazymatch l with
                           | ?x :: ?r => let r' := strip r in constr:(x :: r')
                           | _ => constr:(@nil Event)
                           end in
                         let p := strip l in exact p)) in
                change (split_typed ((fld, ch) :: zip (drop (S i) fields) rest)
                          (pre ++ evs) o)
            end;
            apply split_typed_step; [reflexivity|reflexivity|exact H] ].
    + rewrite drop_ge by (apply lookup_ge_None; exact Hi). cbn.
      repeat split. apply prefix_nil.
Qed.

(** One call of an injector on a path under [every], with what is known
    of the exception kept. *)
Ltac typing_step :=
  first
    [ match goal with
      | H : is_Exception ?e = _ |- context [is_Exception ?e] => rewrite H; cbn
      end
    | match goal with
      | |- context [is_Exception ?e] => destruct (is_Exception e) eqn:?; cbn
      end
    | match goal with
      | |- forall r, every _ _ r -> _ =>
          let r := fresh "r" in
          intros r _; destruct r as [?|?];
          cbn; unfold on_Exception, on_any; cbn
      end ].

Ltac typing_leaf :=
  unfold types, error_logged; cbn;
  repeat split; try discriminate; auto using prefix_nil;
  try (apply prefix_cons, prefix_nil);
  try (right; eexists; reflexivity);
  try (eexists; reflexivity).

Lemma oauth_enter_single_typed (otp : string) (fld : handle) :
  always every (OAuth.enter_otp otp [fld])
    (fun evs o =>
       types [(fld, otp)] evs o /\
       (o = Returns false -> error_logged evs)).
Proof.
  unfold OAuth.enter_otp, attempt, on_Exception, log_error. cbn.
  repeat typing_step; typing_leaf.
Qed.

Lemma dashboard_enter_single_typed (otp : string) (fld : handle) :
  always every (Dashboard.enter_otp_into_fields otp [fld])
    (fun evs o =>
       types [(fld, otp)] evs o /\
       (o = Returns false -> error_logged evs)).
Proof.
  unfold Dashboard.enter_otp_into_fields, attempt_any, on_Exception, on_any,
    log_error. cbn.
  repeat typing_step; typing_leaf.
Qed.

(** The handler of both injectors: log the error, answer [False]. *)
Lemma typing_error_handler (expected : list (handle * string)) (msg : string)
    (e1 : list Event) :
  sent_keys e1 `prefix_of` expected ->
  always every (log_error msg;; Ret false)
    (fun e2 o =>
       types expected (e1 ++ e2) o /\
       (o = Returns false -> error_logged (e1 ++ e2))).
Proof.
  intros Hp. unfold log_error. cbn. intros [[]|e] _; cbn.
  - split; [split; [|discriminate]|].
    + rewrite sent_keys_app, app_nil_r. exact Hp.
    + intros _. exists msg. rewrite logs_app. cbn. apply last_snoc.
  - split; [split|]; try discriminate.
    rewrite sent_keys_app, app_nil_r. exact Hp.
Qed.

(** After the loop over the characters: answer [True], or log what the
    loop raised and answer [False]. *)
Lemma split_typed_answer (expected : list (handle * string)) (msg : exn -> string)
    (m : Prog unit) :
  always every m (split_typed expected) ->
  always every
    (try_except (m;; Ret true)
       (on_Exception (fun e => log_error (msg e);; Ret false)))
    (fun evs o =>
       types expected evs o /\
       (o = Returns false -> error_logged evs)).
Proof.
  intros Hm. apply always_try_except, always_bind.
  eapply always_mono; [|exact Hm].
  intros e1 [[]|e|] (H1 & H2 & H3); cbn.
  - rewrite app_nil_r. repeat split; auto; discriminate.
  - unfold on_Exception. destruct (is_Exception e).
    + apply typing_error_handler, H1.
    + repeat split; auto; discriminate.
  - repeat split; auto; discriminate.
Qed.

Lemma oauth_enter_otp_typed (otp : string) (fields : list handle) :
  always every (OAuth.enter_otp otp fields)
    (fun evs o =>
       types (Spec.expected_keys otp fields) evs o /\
       (o = Returns true -> fields <> []) /\
       (o = Returns false -> fields = [] \/ error_logged evs)).
Proof.
  destruct fields as [|f1 [|f2 fs]].
  - cbn. typing_leaf.
  - eapply always_mono; [|apply oauth_enter_single_typed].
    intros evs o (H1 & H2). repeat split; try apply H1; try discriminate.
    intros Ho. right. apply H2, Ho.
  - eapply always_mono;
      [|apply (split_typed_answer (zip (f1 :: f2 :: fs) (chars otp))
                 (fun e => "Error entering OTP: " +:+ str_exn e) _
                 (oauth_enter_split_typed (chars otp) 0 (f1 :: f2 :: fs)))].
    intros evs o (H1 & H2). repeat split; try apply H1; try discriminate.
    intros Ho. right. apply H2, Ho.
Qed.

Lemma dashboard_enter_otp_typed (otp : string) (fields : list handle) :
  always every (Dashboard.enter_otp_into_fields otp fields)
    (fun evs o =>
       types (Spec.expected_keys otp fields) evs o /\
       (o = Returns false -> error_logged evs)).
Proof.
  destruct fields as [|f1 [|f2 fs]].
  - apply (split_typed_answer (zip [] (chars otp))
             (fun e => "OTP typing error: " +:+ str_exn e) _
             (dashboard_enter_split_typed (chars otp) 0 [])).
  - apply dashboard_enter_single_typed.
  - apply (split_typed_answer (zip (f1 :: f2 :: fs) (chars otp))
             (fun e => "OTP typing error: " +:+ str_exn e) _
             (dashboard_enter_split_typed (chars otp) 0 (f1 :: f2 :: fs))).
Qed.

(** X23. Whatever the browser does, the injector of either script types the
    expected keystrokes in order: what went through is an initial part of
    them (the whole passcode into a single field, else one character per
    field), and all of them when it answers [True]. When it answers [False]
    the last line it logged is an error, except that the OAuth script
    answers [False] silently when given no field; the dashboard script
    answers [True] there. *)
Theorem injector_types_in_order (W : World) (st : St) (otp : string)
    (fields : list handle) :
  (types (Spec.expected_keys otp fields)
     (events_of W (OAuth.enter_otp otp fields) st)
     (outcome_of W (OAuth.enter_otp otp fields) st) /\
   (outcome_of W (OAuth.enter_otp otp fields) st = Returns true -> fields <> []) /\
   (outcome_of W (OAuth.enter_otp otp fields) st = Returns false ->
    fields = [] \/ error_logged (events_of W (OAuth.enter_otp otp fields) st))) /\
  (types (Spec.expected_keys otp fields)
     (events_of W (Dashboard.enter_otp_into_fields otp fields) st)
     (outcome_of W (Dashboard.enter_otp_into_fields otp fields) st) /\
   (outcome_of W (Dashboard.enter_otp_into_fields otp fields) st = Returns false ->
    error_logged (events_of W (Dashboard.enter_otp_into_fields otp fields) st))) /\
  outcome_of W (OAuth.enter_otp otp []) st = Returns false /\
  outcome_of W (Dashboard.enter_otp_into_fields otp []) st = Returns true.
Proof.
  split; [|split; [|split]].
  - apply (always_exec every W (OAuth.enter_otp otp fields) _ st
             (every_answers W) (oauth_enter_otp_typed otp fields)).
  - apply (always_exec every W (Dashboard.enter_otp_into_fields otp fields) _ st
             (every_answers W) (dashboard_enter_otp_typed otp fields)).
  - reflexivity.
  - unfold outcome_of, Dashboard.enter_otp_into_fields.
    destruct (chars otp); reflexivity.
Qed.
